(** * SpiNNaker Nengo components: ensemble neuron state, ensemble boot,
      and the filter component

    A shallow embedding of
    - [spinnaker_components/ensemble/spin-nengo-ensemble.h] (packed
      voltage / refractory word and its accessors),
    - the ensemble [c_main] (configuration load sequence),
    - [spinnaker_components/filter/filter_main.c] ([data_system],
      the region loaders, [filter_update], [c_main]).

    Machine integers ([uint]) are values of [Z] in [0, 2^32) with the
    wrap-around written out.  An [accum] (s16.15 fixed point) is carried
    as the signed integer whose two's-complement pattern is its
    bit-pattern. *)

From Stdlib Require Import ZArith Lia String.
From stdpp Require Import base option list.

Local Open Scope Z_scope.

(** ** Machine words *)

Module Word.

Definition modulus : Z := 2 ^ 32.
Definition UINT32_MAX : Z := 0xffffffff.

(** Reduction of an integer to an unsigned 32-bit value. *)
Definition wrap (x : Z) : Z := x mod modulus.

Definition is_uint (x : Z) : Prop := 0 <= x < modulus.

(** An [accum] is in range when it fits a signed 32-bit word. *)
Definition is_accum (v : Z) : Prop := - 2 ^ 31 <= v < 2 ^ 31.

(** [bitsk]: the bit pattern of an [accum], as an unsigned word. *)
Definition bitsk (v : Z) : Z := v mod modulus.

(** [kbits]: the [accum] with the given bit pattern. *)
Definition kbits (u : Z) : Z :=
  let w := u mod modulus in
  if w <? 2 ^ 31 then w else w - modulus.

End Word.

(** ** The packed neuron word of [spin-nengo-ensemble.h]

    [v_ref_voltage[n]] keeps the 4-bit refractory counter in bits 31..28
    and the low 28 bits of the voltage's bit pattern in bits 27..0.
    Indexing outside the array is undefined in C and is [None] here. *)

Module Ensemble.
Import Word.

Record globals := {
  t_ref : Z;                 (* Refractory period -1 [steps] *)
  v_ref_voltage : list Z     (* 4b refractory state, remainder voltages *)
}.

Definition set_v_ref_voltage (l : list Z) (g : globals) : globals :=
  {| t_ref := t_ref g; v_ref_voltage := l |}.

(** [v_ref_voltage[n]] as an rvalue. *)
Definition load_word (n : Z) (g : globals) : option Z :=
  v_ref_voltage g !! Z.to_nat n.

(** [v_ref_voltage[n] = w]. *)
Definition store_word (n : Z) (w : Z) (g : globals) : option globals :=
  if decide (Z.to_nat n < length (v_ref_voltage g))%nat
  then Some (set_v_ref_voltage (<[Z.to_nat n := w]> (v_ref_voltage g)) g)
  else None.

(** [kbits( v_ref_voltage[n] & 0x0fffffff )] *)
Definition neuron_voltage (n : Z) (g : globals) : option Z :=
  w ← load_word n g;
  Some (kbits (Z.land w 0x0fffffff)).

(** [v_ref_voltage[n] =
      ( v_ref_voltage[n] & 0xf0000000 ) | ( bitsk( v ) & 0x0fffffff )] *)
Definition set_neuron_voltage (n : Z) (v : Z) (g : globals) : option globals :=
  w ← load_word n g;
  store_word n (Z.lor (Z.land w 0xf0000000) (Z.land (bitsk v) 0x0fffffff)) g.

(** [( v_ref_voltage[n] & 0xf0000000 ) >> 28] *)
Definition neuron_refractory (n : Z) (g : globals) : option Z :=
  w ← load_word n g;
  Some (Z.shiftr (Z.land w 0xf0000000) 28).

(** [v_ref_voltage[n] = t_ref] *)
Definition set_neuron_refractory (n : Z) (g : globals) : option globals :=
  store_word n (t_ref g) g.

(** [v_ref_voltage[n] -= 0x10000000] on an unsigned word. *)
Definition decrement_neuron_refractory (n : Z) (g : globals) : option globals :=
  w ← load_word n g;
  store_word n (wrap (w - 0x10000000)) g.

(** The low 28 bits of [v_ref_voltage[n]]: the voltage field, unread. *)
Definition voltage_bits (n : Z) (g : globals) : option Z :=
  w ← load_word n g; Some (Z.land w 0x0fffffff).

(** [k] successive timesteps of a refractory neuron: one decrement each. *)
Fixpoint decrement_steps (k : nat) (n : Z) (g : globals) : option globals :=
  match k with
  | O => Some g
  | S k' => g' ← decrement_neuron_refractory n g; decrement_steps k' n g'
  end.

End Ensemble.

(** ** The run-time kernel as seen by the components

    The components talk to the kernel only through calls; a call is kept
    as an [event] in the machine's [trace], in program order. *)

Module Kernel.
Import Word.

Inductive callback_id := MCPL_PACKET_RECEIVED | TIMER_TICK.

Inductive event :=
| IoPrintf (fmt : string) (args : list Z)
| RegionStart (n : Z)
| LeadAppConfigured
| SetTimerTick (period : Z)
| CallbackOn (id : callback_id) (handler : string) (priority : Z)
| Start
| Exit (code : Z)
| SendMcPacket (key payload : Z)
| DelayUs (us : Z).

(** A pointer into the configuration data: the words found from it on. *)
Definition address_t : Type := nat -> Z.

(** [addr[i]] read as a [uint]. *)
Definition read_uint (addr : address_t) (i : nat) : Z := wrap (addr i).

(** The [words] words copied by [spin1_memcpy] from [addr]. *)
Definition copy_words (addr : address_t) (words : nat) : list Z :=
  map (read_uint addr) (seq 0 words).

(** The machine: the component's globals [G], what the loader left in
    memory, and what the kernel has been asked to do so far. *)
Record machine (G : Type) := Machine {
  globals : G;
  sram : Z -> address_t;      (* start of each numbered sub-region *)
  leadAp : bool;
  simulation_ticks : Z;
  heap_free : Z;              (* bytes left in the small heap *)
  exit_code : option Z;       (* set once [spin1_exit] was called *)
  trace : list event
}.
Arguments Machine {G}.
Arguments globals {G}.
Arguments sram {G}.
Arguments leadAp {G}.
Arguments simulation_ticks {G}.
Arguments heap_free {G}.
Arguments exit_code {G}.
Arguments trace {G}.

(** State and failure: [None] is undefined behaviour of the C program
    (an access outside an array). *)
Definition M (G A : Type) : Type := machine G -> option (A * machine G).

Definition ret {G A} (a : A) : M G A := fun m => Some (a, m).

Definition bind {G A B} (c : M G A) (k : A -> M G B) : M G B :=
  fun m => match c m with
           | Some (a, m') => k a m'
           | None => None
           end.

Definition undefined {G A} : M G A := fun _ => None.

Definition read {G A} (f : G -> A) : M G A :=
  fun m => Some (f (globals m), m).

(** The machine with its globals changed by [f], all else as it was. *)
Definition with_globals {G} (f : G -> G) (m : machine G) : machine G :=
  Machine (f (globals m)) (sram m) (leadAp m) (simulation_ticks m)
    (heap_free m) (exit_code m) (trace m).

(** The machine after the further kernel calls [es]. *)
Definition with_events {G} (es : list event) (m : machine G) : machine G :=
  Machine (globals m) (sram m) (leadAp m) (simulation_ticks m)
    (heap_free m) (exit_code m) (trace m ++ es).

Definition update {G} (f : G -> G) : M G unit :=
  fun m => Some (tt, with_globals f m).

Definition of_option {G A} (o : option A) : M G A :=
  match o with Some a => ret a | None => undefined end.

Definition emit {G} (e : event) : M G unit :=
  fun m => Some (tt, with_events [e] m).

Declare Scope kernel_scope.
Delimit Scope kernel_scope with K.
Notation "x <- c ;; k" := (bind c (fun x => k))
  (at level 20, c at level 99, k at level 200, only parsing) : kernel_scope.
Notation "c ;; k" := (bind c (fun _ => k))
  (at level 100, k at level 200, right associativity, only parsing) : kernel_scope.

Local Open Scope kernel_scope.

(** [for (uint i = 0; i < n; i++) body(i)] *)
Fixpoint for_from {G} (i : nat) (count : nat) (body : Z -> M G unit) : M G unit :=
  match count with
  | O => ret tt
  | S c => body (Z.of_nat i) ;; for_from (S i) c body
  end.

Definition for_uint {G} (n : Z) (body : Z -> M G unit) : M G unit :=
  for_from 0 (Z.to_nat n) body.

(** [!a || b], evaluated left to right, [b] only when [a] succeeded. *)
Definition not_or {G} (a : M G bool) (b : M G bool) : M G bool :=
  ok <- a ;; if negb ok then ret true else b.

(** [!a] as the last operand of the chain. *)
Definition not_ {G} (a : M G bool) : M G bool :=
  ok <- a ;; ret (negb ok).

Definition io_printf {G} (fmt : string) (args : list Z) : M G unit :=
  emit (IoPrintf fmt args).

Definition system_load_sram {G} : M G (Z -> address_t) :=
  fun m => Some (sram m, m).

Definition region_start {G} (n : Z) (address : Z -> address_t) : M G address_t :=
  emit (RegionStart n) ;; ret (address n).

Definition get_leadAp {G} : M G bool := fun m => Some (leadAp m, m).

Definition get_simulation_ticks {G} : M G Z :=
  fun m => Some (simulation_ticks m, m).

Definition system_lead_app_configured {G} : M G unit := emit LeadAppConfigured.

Definition spin1_set_timer_tick {G} (period : Z) : M G unit :=
  emit (SetTimerTick period).

Definition spin1_callback_on {G} (id : callback_id) (handler : string)
    (priority : Z) : M G unit :=
  emit (CallbackOn id handler priority).

(** [spin1_start(SYNC_WAIT)] *)
Definition spin1_start {G} : M G unit := emit Start.

Definition spin1_send_mc_packet {G} (key payload : Z) : M G unit :=
  emit (SendMcPacket key payload).

Definition spin1_delay_us {G} (us : Z) : M G unit := emit (DelayUs us).

(** Modelled from the spec: the kernel is outside the repository.
    [spin1_exit] asks for the shutdown and returns to its caller, so the
    tick that asks is still processed to its end ("ceases ... strictly
    after processing the tick equal to that count"). *)
Definition spin1_exit {G} (code : Z) : M G unit :=
  fun m => Some (tt, Machine (globals m) (sram m) (leadAp m)
                       (simulation_ticks m) (heap_free m) (Some code)
                       (trace m ++ [Exit code])).

(** Modelled from the spec: "a small-heap allocator" whose requests can
    fail.  A request succeeds exactly when it fits what is left; the
    result says whether the pointer is non-NULL. *)
Definition spin1_malloc {G} (bytes : Z) : M G bool :=
  fun m => if bytes <=? heap_free m
           then Some (true, Machine (globals m) (sram m) (leadAp m)
                              (simulation_ticks m) (heap_free m - bytes)
                              (exit_code m) (trace m))
           else Some (false, m).

(** The events that show the component in the running state. *)
Definition is_run_event (e : event) : bool :=
  match e with
  | SetTimerTick _ | CallbackOn _ _ _ | Start => true
  | _ => false
  end.

Definition is_start (e : event) : bool :=
  match e with Start => true | _ => false end.

Definition is_set_timer (e : event) : bool :=
  match e with SetTimerTick _ => true | _ => false end.

Definition is_exit (e : event) : bool :=
  match e with Exit _ => true | _ => false end.

Definition is_printf (e : event) : bool :=
  match e with IoPrintf _ _ => true | _ => false end.

Definition packet_of (e : event) : option (Z * Z) :=
  match e with SendMcPacket k p => Some (k, p) | _ => None end.

(** The multicast packets of a trace, in order. *)
Definition packets (tr : list event) : list (Z * Z) := omap packet_of tr.

(** The sub-regions asked for, in order. *)
Definition region_of (e : event) : option Z :=
  match e with RegionStart n => Some n | _ => None end.

Definition regions (tr : list event) : list Z := omap region_of tr.

(** What a run has added to the trace it started from. *)
Definition new_events {G} (m m' : machine G) : list event :=
  drop (length (trace m)) (trace m').

(** [m'] has the trace of [m] and then diagnostics only. *)
Definition only_printed {G} (m m' : machine G) : Prop :=
  exists es, trace m' = trace m ++ es /\ forallb is_printf es = true.

(** A computation that asks nothing of the kernel but diagnostics. *)
Definition diagnostic_only {G A} (c : M G A) : Prop :=
  forall m a m', c m = Some (a, m') -> only_printed m m'.

End Kernel.

(** ** The ensemble component's [c_main]

    The region loaders, the PES and recording set-up and the globals they
    fill live in other files ([ensemble_data.c], [ensemble_pes.c],
    [recording.c], [input_filter.c]); they are taken as parameters: each
    is a function on the globals [G] that returns its [bool]. *)

Module EnsembleMain.
Import Word Kernel.
Local Open Scope kernel_scope.

Inductive input_group := g_input | g_input_inhibitory | g_input_modulatory.

Record library (G : Type) := Library {
  data_system : address_t -> G -> bool * G;
  data_get_bias : address_t -> Z -> G -> bool * G;
  data_get_encoders : address_t -> Z -> Z -> G -> bool * G;
  data_get_decoders : address_t -> Z -> Z -> G -> bool * G;
  data_get_keys : address_t -> Z -> G -> bool * G;
  input_filter_get_filters : input_group -> address_t -> G -> bool * G;
  input_filter_get_filter_routes : input_group -> address_t -> G -> bool * G;
  get_pes : address_t -> G -> bool * G;
  record_buffer_initialise : address_t -> Z -> Z -> G -> bool * G;
  n_neurons : G -> Z;                 (* g_ensemble.n_neurons *)
  n_dimensions : G -> Z;              (* g_input.n_dimensions *)
  g_n_output_dimensions : G -> Z;
  machine_timestep : G -> Z;          (* g_ensemble.machine_timestep *)
  inhib_gain : G -> list Z;           (* g_ensemble.inhib_gain *)
  set_inhib_gain : list Z -> G -> G
}.
Arguments data_system {G}.
Arguments data_get_bias {G}.
Arguments data_get_encoders {G}.
Arguments data_get_decoders {G}.
Arguments data_get_keys {G}.
Arguments input_filter_get_filters {G}.
Arguments input_filter_get_filter_routes {G}.
Arguments get_pes {G}.
Arguments record_buffer_initialise {G}.
Arguments n_neurons {G}.
Arguments n_dimensions {G}.
Arguments g_n_output_dimensions {G}.
Arguments machine_timestep {G}.
Arguments inhib_gain {G}.
Arguments set_inhib_gain {G}.

(** A call of a function that works on the globals and returns a [bool]. *)
Definition call {G} (f : G -> bool * G) : M G bool :=
  fun m => let '(b, g) := f (globals m) in
           Some (b, Machine g (sram m) (leadAp m) (simulation_ticks m)
                      (heap_free m) (exit_code m) (trace m)).

Section Main.
Context {G : Type} (L : library G).

Definition failed_to_start : M G unit :=
  io_printf "[Ensemble] Failed to start.\n" [].

(** Lines 57-66: routing tables, timer period, start. *)
Definition configure_and_start : M G unit :=
  io_printf "[Ensemble] C_MAIN Configuring system.\n" [] ;;
  lead <- get_leadAp ;;
  (if lead then system_lead_app_configured else ret tt) ;;
  io_printf "[Ensemble] C_MAIN Set timer and spin1_start.\n" [] ;;
  dt <- read (machine_timestep L) ;;
  spin1_set_timer_tick dt ;;
  spin1_start.

(** Lines 32-55: the filter/route pairs, PES, recording. *)
Definition load_subcomponents (address : Z -> address_t) : M G unit :=
  failed <-
    not_or (a <- region_start 6 address ;;
            call (input_filter_get_filters L g_input a))
   (not_or (a <- region_start 7 address ;;
            call (input_filter_get_filter_routes L g_input a))
   (not_or (a <- region_start 8 address ;;
            call (input_filter_get_filters L g_input_inhibitory a))
   (not_or (a <- region_start 9 address ;;
            call (input_filter_get_filter_routes L g_input_inhibitory a))
   (not_or (a <- region_start 11 address ;;
            call (input_filter_get_filters L g_input_modulatory a))
   (not_ (a <- region_start 12 address ;;
          call (input_filter_get_filter_routes L g_input_modulatory a)))
   )))) ;;
  if failed then failed_to_start
  else
    a13 <- region_start 13 address ;;
    pes <- call (get_pes L a13) ;;
    if negb pes then failed_to_start
    else
      a15 <- region_start 15 address ;;
      ticks <- get_simulation_ticks ;;
      n <- read (n_neurons L) ;;
      rec <- call (record_buffer_initialise L a15 ticks n) ;;
      if negb rec then failed_to_start
      else configure_and_start.

(** Lines 20-30: the inhibitory gains, allocated and copied in place. *)
Definition load_inhib_gain (address : Z -> address_t) (k : M G unit) : M G unit :=
  n <- read (n_neurons L) ;;
  ok <- spin1_malloc (wrap (n * 4)) ;;
  if negb ok then io_printf "[Ensemble] Failed to malloc inhib gains.\n" []
  else
    a10 <- region_start 10 address ;;
    n <- read (n_neurons L) ;;
    update (set_inhib_gain L
              (map kbits (copy_words a10 (Z.to_nat (wrap (n * 4) / 4))))) ;;
    n <- read (n_neurons L) ;;
    for_uint n (fun i =>
      gains <- read (inhib_gain L) ;;
      x <- of_option (gains !! Z.to_nat i) ;;
      io_printf "Inhib gain[%d] = %k\n" [i; x]) ;;
    k.

Definition c_main : M G unit :=
  io_printf "[Ensemble] C_MAIN\n" [] ;;
  address <- system_load_sram ;;
  a1 <- region_start 1 address ;;
  ok <- call (data_system L a1) ;;
  if negb ok then failed_to_start
  else
    (* Get data *)
    a2 <- region_start 2 address ;;
    n <- read (n_neurons L) ;;
    _ <- call (data_get_bias L a2 n) ;;
    a3 <- region_start 3 address ;;
    n <- read (n_neurons L) ;;
    d <- read (n_dimensions L) ;;
    _ <- call (data_get_encoders L a3 n d) ;;
    a4 <- region_start 4 address ;;
    n <- read (n_neurons L) ;;
    d <- read (g_n_output_dimensions L) ;;
    _ <- call (data_get_decoders L a4 n d) ;;
    a5 <- region_start 5 address ;;
    d <- read (g_n_output_dimensions L) ;;
    _ <- call (data_get_keys L a5 d) ;;
    load_inhib_gain address (load_subcomponents address).

End Main.

(** The component has reached the running state when [spin1_start] was
    called. *)
Definition reached_running {G} (m : machine G) : bool :=
  existsb is_start (trace m).

Definition timer_period_set {G} (m : machine G) : bool :=
  existsb is_set_timer (trace m).

(** The library [L] with a bias loader that does to the globals what the
    one of [L] does but returns [b]. *)
Definition reporting_bias {G} (b : bool) (L : library G) : library G :=
  {| data_system := data_system L;
     data_get_bias := fun a n g => (b, (data_get_bias L a n g).2);
     data_get_encoders := data_get_encoders L;
     data_get_decoders := data_get_decoders L;
     data_get_keys := data_get_keys L;
     input_filter_get_filters := input_filter_get_filters L;
     input_filter_get_filter_routes := input_filter_get_filter_routes L;
     get_pes := get_pes L;
     record_buffer_initialise := record_buffer_initialise L;
     n_neurons := n_neurons L;
     n_dimensions := n_dimensions L;
     g_n_output_dimensions := g_n_output_dimensions L;
     machine_timestep := machine_timestep L;
     inhib_gain := inhib_gain L;
     set_inhib_gain := set_inhib_gain L |}.

(** A library over trivial globals whose loaders all succeed, except that
    the bias loader reports [bias_ok]. *)
Definition stub_library (bias_ok : bool) : library (list Z) :=
  {| data_system := fun _ g => (true, g);
     data_get_bias := fun _ _ g => (bias_ok, g);
     data_get_encoders := fun _ _ _ g => (true, g);
     data_get_decoders := fun _ _ _ g => (true, g);
     data_get_keys := fun _ _ g => (true, g);
     input_filter_get_filters := fun _ _ g => (true, g);
     input_filter_get_filter_routes := fun _ _ g => (true, g);
     get_pes := fun _ g => (true, g);
     record_buffer_initialise := fun _ _ _ g => (true, g);
     n_neurons := fun _ => 2;
     n_dimensions := fun _ => 1;
     g_n_output_dimensions := fun _ => 1;
     machine_timestep := fun _ => 1000;
     inhib_gain := fun g => g;
     set_inhib_gain := fun l _ => l |}.

Definition boot_machine : machine (list Z) :=
  {| globals := []; sram := fun _ _ => 0; leadAp := true;
     simulation_ticks := 100; heap_free := 65536; exit_code := None;
     trace := [] |}.

End EnsembleMain.

(** ** The filter component ([filter_main.c]) *)

Module Filter.
Import Word Kernel.
Local Open Scope kernel_scope.

(** The fixed-point arithmetic of [value_t]: [+] and [*] of the compiler's
    [accum] type, on values carried as signed integers. *)
Class FixedPoint := {
  kadd : Z -> Z -> Z;
  kmul : Z -> Z -> Z
}.

(** Modelled from the spec: the input filtering subsystem
    ([../common/input_filter.c]) is missing from the verified sources.
    "Initialize(capacity) allocates the accumulator/output vector of the
    requested width; fails if memory cannot be obtained"; the loaders
    "fail if the region is malformed or allocation fails"; a packet is
    folded into an accumulator; "Step(apply_decay) ... writes the result
    into the externally visible filtered-vector slot".  [input_vector] is
    the vector that the pointer returned by [input_filter_initialise]
    refers to. *)
Class InputFilter := {
  input_filter_t : Type;
  input_filter_initialise : input_filter_t -> Z -> bool * input_filter_t;
  input_filter_get_filters : input_filter_t -> address_t -> bool * input_filter_t;
  input_filter_get_filter_routes : input_filter_t -> address_t -> bool * input_filter_t;
  input_filter_mcpl_rx : input_filter_t -> Z -> Z -> input_filter_t;
  input_filter_step : input_filter_t -> bool -> input_filter_t;
  input_vector : input_filter_t -> list Z
}.

(** The width of the filtered vector is fixed once initialised. *)
Class InputFilterWidth `{InputFilter} : Prop := {
  initialise_width : forall f n f',
    input_filter_initialise f n = (true, f') ->
    length (input_vector f') = Z.to_nat n;
  get_filters_width : forall f a,
    length (input_vector (input_filter_get_filters f a).2) = length (input_vector f);
  get_filter_routes_width : forall f a,
    length (input_vector (input_filter_get_filter_routes f a).2) = length (input_vector f);
  mcpl_rx_width : forall f k p,
    length (input_vector (input_filter_mcpl_rx f k p)) = length (input_vector f);
  step_width : forall f b,
    length (input_vector (input_filter_step f b)) = length (input_vector f)
}.

(** What [g_filter.input] can point to. *)
Inductive input_ptr := NULL | InputBuffer.

Section Component.
Context {FP : FixedPoint} {IF : InputFilter}.

Record filter_parameters_t := FilterParameters {
  size_in : Z;
  size_out : Z;
  machine_timestep : Z;
  transmission_delay : Z;
  interpacket_pause : Z;
  keys : list Z;
  input : input_ptr;          (* aliases the vector owned by [g_input] *)
  output : list Z;
  transform : list Z
}.

(** The globals of [filter_main.c]. *)
Record filter_globals := FilterGlobals {
  g_filter : filter_parameters_t;
  delay_remaining : Z;
  g_input : input_filter_t
}.

Definition set_g_filter (f : filter_parameters_t -> filter_parameters_t)
    (g : filter_globals) : filter_globals :=
  FilterGlobals (f (g_filter g)) (delay_remaining g) (g_input g).

Definition set_delay_remaining (d : Z) (g : filter_globals) : filter_globals :=
  FilterGlobals (g_filter g) d (g_input g).

Definition set_g_input (f : input_filter_t) (g : filter_globals) : filter_globals :=
  FilterGlobals (g_filter g) (delay_remaining g) f.

Definition set_sizes_and_timing (si so mt td ip : Z)
    (p : filter_parameters_t) : filter_parameters_t :=
  FilterParameters si so mt td ip (keys p) (input p) (output p) (transform p).

Definition set_keys (l : list Z) (p : filter_parameters_t) : filter_parameters_t :=
  FilterParameters (size_in p) (size_out p) (machine_timestep p)
    (transmission_delay p) (interpacket_pause p) l (input p) (output p)
    (transform p).

Definition set_input (i : input_ptr) (p : filter_parameters_t) : filter_parameters_t :=
  FilterParameters (size_in p) (size_out p) (machine_timestep p)
    (transmission_delay p) (interpacket_pause p) (keys p) i (output p)
    (transform p).

Definition set_output (l : list Z) (p : filter_parameters_t) : filter_parameters_t :=
  FilterParameters (size_in p) (size_out p) (machine_timestep p)
    (transmission_delay p) (interpacket_pause p) (keys p) (input p) l
    (transform p).

Definition set_transform (l : list Z) (p : filter_parameters_t) : filter_parameters_t :=
  FilterParameters (size_in p) (size_out p) (machine_timestep p)
    (transmission_delay p) (interpacket_pause p) (keys p) (input p) (output p)
    l.

Abbreviation FM := (M filter_globals).

(** Array accesses; outside the array they are undefined. *)
Definition load_transform (i : Z) : FM Z :=
  t <- read (fun g => transform (g_filter g)) ;; of_option (t !! Z.to_nat i).

Definition load_keys (i : Z) : FM Z :=
  t <- read (fun g => keys (g_filter g)) ;; of_option (t !! Z.to_nat i).

Definition load_output (i : Z) : FM Z :=
  t <- read (fun g => output (g_filter g)) ;; of_option (t !! Z.to_nat i).

Definition load_input (i : Z) : FM Z :=
  p <- read (fun g => input (g_filter g)) ;;
  match p with
  | NULL => undefined
  | InputBuffer =>
      v <- read (fun g => input_vector (g_input g)) ;;
      of_option (v !! Z.to_nat i)
  end.

Definition store_output (i : Z) (x : Z) : FM unit :=
  t <- read (fun g => output (g_filter g)) ;;
  if decide (Z.to_nat i < length t)%nat
  then update (set_g_filter (set_output (<[Z.to_nat i := x]> t)))
  else undefined.

(** Lines 16-24: apply the transform to the input to get the output. *)
Definition apply_transform : FM unit :=
  n_out <- read (fun g => size_out (g_filter g)) ;;
  for_uint n_out (fun j =>
    store_output j 0 ;;
    n_in <- read (fun g => size_in (g_filter g)) ;;
    for_uint n_in (fun k =>
      n_in <- read (fun g => size_in (g_filter g)) ;;
      t <- load_transform (wrap (j * n_in + k)) ;;
      x <- load_input k ;;
      o <- load_output j ;;
      store_output j (kadd o (kmul t x)))).

(** Lines 31-36: one packet per output dimension. *)
Definition transmit_output : FM unit :=
  n_out <- read (fun g => size_out (g_filter g)) ;;
  for_uint n_out (fun d =>
    o <- load_output d ;;
    let val := bitsk o in
    key <- load_keys d ;;
    spin1_send_mc_packet key val ;;
    pause <- read (fun g => interpacket_pause (g_filter g)) ;;
    spin1_delay_us pause).

(** Lines 26-37: the delay counter and the transmission. *)
Definition count_and_transmit : FM unit :=
  d <- read delay_remaining ;;
  update (set_delay_remaining (wrap (d - 1))) ;;
  d <- read delay_remaining ;;
  if d =? 0 then
    td <- read (fun g => transmission_delay (g_filter g)) ;;
    update (set_delay_remaining td) ;;
    transmit_output
  else ret tt.

(** Lines 13-37: what a tick does after the simulation-length test. *)
Definition update_body : FM unit :=
  update (fun g => set_g_input (input_filter_step (g_input g) true) g) ;;
  apply_transform ;;
  count_and_transmit.

Definition filter_update (ticks arg1 : Z) : FM unit :=
  sim <- get_simulation_ticks ;;
  (if negb (sim =? UINT32_MAX) && (sim <=? ticks)
   then spin1_exit 0 else ret tt) ;;
  update_body.

Definition data_system (addr : address_t) : FM bool :=
  update (set_g_filter (set_sizes_and_timing
            (read_uint addr 0) (read_uint addr 1) (read_uint addr 2)
            (read_uint addr 3) (read_uint addr 4))) ;;
  td <- read (fun g => transmission_delay (g_filter g)) ;;
  update (set_delay_remaining td) ;;
  d <- read delay_remaining ;;
  io_printf "[Filter] transmission delay = %d\n" [d] ;;
  n_in <- read (fun g => size_in (g_filter g)) ;;
  f <- read g_input ;;
  let '(ok, f') := input_filter_initialise f n_in in
  update (set_g_input f') ;;
  update (set_g_filter (set_input (if ok then InputBuffer else NULL))) ;;
  p <- read (fun g => input (g_filter g)) ;;
  match p with
  | NULL => ret false
  | InputBuffer => ret true
  end.

(** Modelled from the spec: the macro [MALLOC_FAIL_FALSE] is defined in a
    header ([filter.h] or one it includes) that is missing from the
    verified sources; by its name and its use ("allocation failure ...
    fatal"), it assigns the result of [spin1_malloc] to the pointer it is
    given and makes the enclosing loader return [false] when that result
    is [NULL].  [assign] is the assignment to the pointer.  [NULL] is kept
    as the array with no element, every access through which is
    undefined.  A block that was obtained is not read before the
    [spin1_memcpy] that follows has filled all of it, so the loader
    stores it there together with its contents. *)
Definition MALLOC_FAIL_FALSE
    (assign : list Z -> filter_parameters_t -> filter_parameters_t)
    (bytes : Z) (k : FM bool) : FM bool :=
  ok <- spin1_malloc bytes ;;
  if ok then k else (update (set_g_filter (assign [])) ;; ret false).

Definition data_get_output_keys (addr : address_t) : FM bool :=
  n_out <- read (fun g => size_out (g_filter g)) ;;
  MALLOC_FAIL_FALSE set_keys (wrap (n_out * 4)) (
    n_out <- read (fun g => size_out (g_filter g)) ;;
    update (set_g_filter (set_keys
              (copy_words addr (Z.to_nat (wrap (n_out * 4) / 4))))) ;;
    n_out <- read (fun g => size_out (g_filter g)) ;;
    for_uint n_out (fun i =>
      key <- load_keys i ;;
      io_printf "g_filter.keys[%d] = %08x\n" [i; key]) ;;
    ret true).

Definition data_get_transform (addr : address_t) : FM bool :=
  n_in <- read (fun g => size_in (g_filter g)) ;;
  n_out <- read (fun g => size_out (g_filter g)) ;;
  MALLOC_FAIL_FALSE set_transform (wrap (wrap (4 * n_in) * n_out)) (
    update (set_g_filter (set_transform
              (map kbits (copy_words addr
                            (Z.to_nat (wrap (wrap (n_in * n_out) * 4) / 4)))))) ;;
    io_printf "Transform = [" [] ;;
    n_out <- read (fun g => size_out (g_filter g)) ;;
    for_uint n_out (fun i =>
      n_in <- read (fun g => size_in (g_filter g)) ;;
      for_uint n_in (fun j =>
        n_in <- read (fun g => size_in (g_filter g)) ;;
        t <- load_transform (wrap (i * n_in + j)) ;;
        io_printf "%k " [t]) ;;
      io_printf "\n" []) ;;
    io_printf "]\n" [] ;;
    ret true).

Definition mcpl_callback (key payload : Z) : FM unit :=
  update (fun g => set_g_input (input_filter_mcpl_rx (g_input g) key payload) g).

(** A library loader called on [&g_input]. *)
Definition on_g_input (f : input_filter_t -> bool * input_filter_t) : FM bool :=
  g <- read g_input ;;
  let '(ok, g') := f g in
  update (set_g_input g') ;;
  ret ok.

(** The loader that [c_main] applies to sub-region [n]. *)
Definition loader (n : Z) (a : address_t) : FM bool :=
  match n with
  | 1 => data_system a
  | 2 => data_get_output_keys a
  | 3 => on_g_input (fun g => input_filter_get_filters g a)
  | 4 => on_g_input (fun g => input_filter_get_filter_routes g a)
  | _ => data_get_transform a
  end.

Definition c_main : FM unit :=
  address <- system_load_sram ;;
  failed <-
    not_or (a <- region_start 1 address ;; data_system a)
   (not_or (a <- region_start 2 address ;; data_get_output_keys a)
   (not_or (a <- region_start 3 address ;;
            on_g_input (fun g => input_filter_get_filters g a))
   (not_or (a <- region_start 4 address ;;
            on_g_input (fun g => input_filter_get_filter_routes g a))
   (not_ (a <- region_start 5 address ;; data_get_transform a))))) ;;
  if failed then
    io_printf "[Filter] Failed to initialise.\n" []
  else
    (* Set up routing tables *)
    lead <- get_leadAp ;;
    (if lead then system_lead_app_configured else ret tt) ;;
    (* Setup timer tick, start *)
    dt <- read (fun g => machine_timestep (g_filter g)) ;;
    spin1_set_timer_tick dt ;;
    spin1_callback_on MCPL_PACKET_RECEIVED "mcpl_callback" (-1) ;;
    spin1_callback_on TIMER_TICK "filter_update" 2 ;;
    spin1_start.

(** *** The dense matrix-vector product, as the specification words it

    [output[j] = sum over k of transform[j, k] * input[k]], the sum and
    the products in the fixed-point arithmetic, the sum taken from zero in
    the order of [k]. *)
Definition matvec_row (T x : list Z) (n_in : nat) (j : nat) : Z :=
  fold_left (fun acc k => kadd acc (kmul (T !!! (j * n_in + k)%nat) (x !!! k)))
            (seq 0 n_in) 0.

Definition matvec (T x : list Z) (n_in n_out : nat) : list Z :=
  map (matvec_row T x n_in) (seq 0 n_out).

(** The packets of one transmission: for every output dimension [d], key
    [keys[d]] and payload [bitsk(output[d])]. *)
Definition output_packets (ks out : list Z) : list (Z * Z) :=
  zip ks (map bitsk out).

(** The kernel calls of one transmission: each packet, then the pause. *)
Definition transmission_trace (pause : Z) (pk : list (Z * Z)) : list event :=
  flat_map (fun kp => [SendMcPacket kp.1 kp.2; DelayUs pause]) pk.

(** *** One tick, as the specification words it (4.3, steps 1 to 4)

    1. halt requested when the total tick count has been reached;
    2. the input filter stepped with decay;
    3. the output recomputed as the matrix-vector product;
    4. the delay counter decremented; at zero it is reset and the output
       is transmitted. *)
Definition exits (ticks : Z) (m : machine filter_globals) : bool :=
  negb (simulation_ticks m =? UINT32_MAX) && (simulation_ticks m <=? ticks).

Definition transmits (m : machine filter_globals) : bool :=
  wrap (delay_remaining (globals m) - 1) =? 0.

Definition output_of_tick (m : machine filter_globals) : list Z :=
  matvec (transform (g_filter (globals m)))
         (input_vector (input_filter_step (g_input (globals m)) true))
         (Z.to_nat (size_in (g_filter (globals m))))
         (Z.to_nat (size_out (g_filter (globals m)))).

Definition after_tick (ticks : Z) (m : machine filter_globals)
    : machine filter_globals :=
  Machine
    (FilterGlobals
       (set_output (output_of_tick m) (g_filter (globals m)))
       (if transmits m then transmission_delay (g_filter (globals m))
        else wrap (delay_remaining (globals m) - 1))
       (input_filter_step (g_input (globals m)) true))
    (sram m) (leadAp m) (simulation_ticks m) (heap_free m)
    (if exits ticks m then Some 0 else exit_code m)
    (trace m
     ++ (if exits ticks m then [Exit 0] else [])
     ++ (if transmits m
         then transmission_trace (interpacket_pause (g_filter (globals m)))
                (output_packets (keys (g_filter (globals m)))
                   (output_of_tick m))
         else [])).

(** *** Well-formed globals

    The arrays have the sizes the system region declares, so that no
    access of [filter_update] leaves an array. *)
Record well_formed (m : machine filter_globals) : Prop := WellFormed {
  wf_size_in : is_uint (size_in (g_filter (globals m)));
  wf_size_out : is_uint (size_out (g_filter (globals m)));
  wf_product : size_in (g_filter (globals m)) * size_out (g_filter (globals m))
               <= modulus;
  wf_keys : length (keys (g_filter (globals m)))
            = Z.to_nat (size_out (g_filter (globals m)));
  wf_output : length (output (g_filter (globals m)))
              = Z.to_nat (size_out (g_filter (globals m)));
  wf_transform : length (transform (g_filter (globals m)))
                 = (Z.to_nat (size_out (g_filter (globals m)))
                    * Z.to_nat (size_in (g_filter (globals m))))%nat;
  wf_input : input (g_filter (globals m)) = InputBuffer;
  wf_input_vector : length (input_vector (g_input (globals m)))
                    = Z.to_nat (size_in (g_filter (globals m)));
  wf_delay : is_uint (delay_remaining (globals m));
  wf_transmission_delay : is_uint (transmission_delay (g_filter (globals m)))
}.

(** *** Loading in order, stopping at the first failure

    [loaded address ns m ok m']: from [m], the sub-regions [ns] are taken
    in order, each with its loader; the first loader that returns [false]
    ends the loading ([ok = false]) and the later ones are not run. *)
Inductive loaded (address : Z -> address_t)
    : list Z -> machine filter_globals -> bool -> machine filter_globals -> Prop :=
| loaded_all m : loaded address [] m true m
| loaded_failure n rest m m1 :
    (a <- region_start n address ;; loader n a)%K m = Some (false, m1) ->
    loaded address (n :: rest) m false m1
| loaded_next n rest m m1 ok m2 :
    (a <- region_start n address ;; loader n a)%K m = Some (true, m1) ->
    loaded address rest m1 ok m2 ->
    loaded address (n :: rest) m ok m2.

(** *** The timer loop

    Modelled from the spec: the kernel that dispatches the callbacks is
    outside the repository.  Packets that arrive before a tick are folded
    in first ("all packets arriving before the timer fires are guaranteed
    to have been folded into the input-filter accumulators"); the timer
    callback then runs with the next tick number; once [spin1_exit] was
    called no further callback runs ("exits its run loop permanently"). *)
Record tick_report := TickReport {
  tick_number : Z;
  sent : list (Z * Z);        (* the packets sent during the tick *)
  output_after : list Z       (* [g_filter.output] at the end of the tick *)
}.

Fixpoint deliver (arrivals : list (Z * Z)) : FM unit :=
  match arrivals with
  | [] => ret tt
  | (key, payload) :: rest => mcpl_callback key payload ;; deliver rest
  end.

Definition get_exit_code : FM (option Z) := fun m => Some (exit_code m, m).

Definition get_trace : FM (list event) := fun m => Some (trace m, m).

Fixpoint run_ticks (ticks : Z) (arrivals : list (list (Z * Z)))
    : FM (list tick_report) :=
  match arrivals with
  | [] => ret []
  | pk :: rest =>
      stop <- get_exit_code ;;
      match stop with
      | Some _ => ret []
      | None =>
          deliver pk ;;
          before <- get_trace ;;
          filter_update ticks 0 ;;
          after <- get_trace ;;
          out <- read (fun g => output (g_filter g)) ;;
          more <- run_ticks (wrap (ticks + 1)) rest ;;
          ret (TickReport ticks (packets (drop (length before) after)) out
                 :: more)
      end
  end.

End Component.

(** *** Concrete instances, for running the model

    [accum] arithmetic as the compiler emits it for the non-saturating
    type: the exact result wrapped to 32 bits, the product scaled back by
    the 15 fractional bits. *)
Definition accum_arith : FixedPoint :=
  {| kadd := fun a b => kbits (a + b);
     kmul := fun a b => kbits (Z.shiftr (a * b) 15) |}.

(** An input filter with one slot per dimension, no routing and no
    decay: a packet's key names the dimension and its payload replaces
    the value held there. *)
Definition plain_input_filter : InputFilter :=
  {| input_filter_t := list Z;
     input_filter_initialise := fun _ n => (true, replicate (Z.to_nat n) 0);
     input_filter_get_filters := fun f _ => (true, f);
     input_filter_get_filter_routes := fun f _ => (true, f);
     input_filter_mcpl_rx := fun f key payload =>
       <[Z.to_nat key := payload]> f;
     input_filter_step := fun f _ => f;
     input_vector := fun f => f |}.

(** A filter with [T = [1, -1]] (one output, two inputs), keys [[7]],
    a transmission delay of [n] ticks, input [[3.0, 1.0]]. *)
Definition example_machine (n sim : Z)
    : machine (@filter_globals plain_input_filter) :=
  {| globals :=
       @FilterGlobals plain_input_filter
         (FilterParameters 2 1 1000 n 0 [7] InputBuffer [0] [32768; -32768])
         n [98304; 32768];
     sram := fun _ _ => 0; leadAp := true; simulation_ticks := sim;
     heap_free := 65536; exit_code := None; trace := [] |}.

(** A freshly booted filter core whose system region asks for two
    inputs and one output, with [heap] bytes of heap left. *)
Definition booting_machine (heap : Z)
    : machine (@filter_globals plain_input_filter) :=
  {| globals :=
       @FilterGlobals plain_input_filter
         (FilterParameters 0 0 0 0 0 [] NULL [] []) 0 [];
     sram := fun n i =>
       match n with
       | 1 => nth i [2; 1; 1000; 2; 0] 0
       | 2 => 7
       | 5 => nth i [32768; -32768] 0
       | _ => 0
       end;
     leadAp := false; simulation_ticks := 10; heap_free := heap;
     exit_code := None; trace := [] |}.

End Filter.

(** ** Encoders and decoders ([spin-nengo-ensemble.h], lines 72-78)

    Both matrices are flat arrays, one row per neuron. *)

Module Coding.
Import Word.

Record globals := {
  n_input_dimensions : Z;    (* Number of input dimensions D_{in} *)
  n_output_dimensions : Z;   (* Number of output dimensions D_{out} *)
  encoders : list Z;         (* Encoder values : N x D_{in} *)
  decoders : list Z          (* Decoder values : N x SUM( d in D_{outs} ) *)
}.

(** [encoders[ n * n_input_dimensions + d ]] *)
Definition neuron_encoder (n d : Z) (g : globals) : option Z :=
  encoders g !! Z.to_nat (wrap (n * n_input_dimensions g + d)).

(** [decoders[ n * n_output_dimensions + d ]] *)
Definition neuron_decoder (n d : Z) (g : globals) : option Z :=
  decoders g !! Z.to_nat (wrap (n * n_output_dimensions g + d)).

End Coding.

(** ** Where the ensemble's [c_main] can end *)

Module EnsembleBoot.
Import Word Kernel EnsembleMain.

(** The place where [c_main] returns: after [data_system] failed, after
    the inhibitory gains could not be allocated, after the [k]-th of the
    six filter and route loaders failed, after [get_pes] failed, after
    [record_buffer_initialise] failed, or after [spin1_start]. *)
Inductive stop :=
| StopSystem
| StopMalloc
| StopFilter (k : nat)
| StopPes
| StopRecord
| Started.

(** The sub-regions of the three filter and route pairs, in the order of
    lines 33-38. *)
Definition subcomponent_regions : list Z := [6; 7; 8; 9; 11; 12].

Definition failure_message : event :=
  IoPrintf "[Ensemble] Failed to start.\n" [].

(** The kernel calls of a whole run of [c_main] that ends at [s], where
    [gains] are the diagnostics of the inhibitory gains. *)
Definition boot_events (s : stop) (gains : list event) (lead : bool) (dt : Z)
    : list event :=
  let system := [IoPrintf "[Ensemble] C_MAIN\n" []; RegionStart 1] in
  let data := map RegionStart [2; 3; 4; 5] in
  let inhib := RegionStart 10 :: gains in
  let filters := map RegionStart subcomponent_regions in
  match s with
  | StopSystem => system ++ [failure_message]
  | StopMalloc =>
      system ++ data
      ++ [IoPrintf "[Ensemble] Failed to malloc inhib gains.\n" []]
  | StopFilter k =>
      system ++ data ++ inhib
      ++ map RegionStart (take k subcomponent_regions) ++ [failure_message]
  | StopPes =>
      system ++ data ++ inhib ++ filters
      ++ [RegionStart 13; failure_message]
  | StopRecord =>
      system ++ data ++ inhib ++ filters
      ++ [RegionStart 13; RegionStart 15; failure_message]
  | Started =>
      system ++ data ++ inhib ++ filters
      ++ [RegionStart 13; RegionStart 15;
          IoPrintf "[Ensemble] C_MAIN Configuring system.\n" []]
      ++ (if lead then [LeadAppConfigured] else [])
      ++ [IoPrintf "[Ensemble] C_MAIN Set timer and spin1_start.\n" [];
          SetTimerTick dt; Start]
  end.

(** The loader applied to the [k]-th (from 1) of [subcomponent_regions]. *)
Definition subcomponent_loader {G} (L : library G) (k : nat)
    (address : Z -> address_t) (g : G) : bool * G :=
  match k with
  | 1%nat => input_filter_get_filters L g_input (address 6) g
  | 2%nat => input_filter_get_filter_routes L g_input (address 7) g
  | 3%nat => input_filter_get_filters L g_input_inhibitory (address 8) g
  | 4%nat => input_filter_get_filter_routes L g_input_inhibitory (address 9) g
  | 5%nat => input_filter_get_filters L g_input_modulatory (address 11) g
  | _ => input_filter_get_filter_routes L g_input_modulatory (address 12) g
  end.

(** *** The globals of a run

    Every step of [c_main] works on the globals left by the step before
    it.  For a run from [m] these are the globals with which each checked
    step is called, and what the step returns there. *)

Section Run.
Context {G : Type} (L : library G) (m : machine G).

(** [data_system(region_start(1, address))], line 9. *)
Definition system_result : bool * G := data_system L (sram m 1) (globals m).

(** The globals left by the four data loaders of lines 15 to 18, each
    called with the sizes read from the globals left by the one before:
    the globals in which line 21 reads [g_ensemble.n_neurons]. *)
Definition globals_after_data : G :=
  let g1 := system_result.2 in
  let g2 := (data_get_bias L (sram m 2) (n_neurons L g1) g1).2 in
  let g3 := (data_get_encoders L (sram m 3) (n_neurons L g2)
               (n_dimensions L g2) g2).2 in
  let g4 := (data_get_decoders L (sram m 4) (n_neurons L g3)
               (g_n_output_dimensions L g3) g3).2 in
  (data_get_keys L (sram m 5) (g_n_output_dimensions L g4) g4).2.

(** The byte count of line 21. *)
Definition gains_bytes : Z := wrap (n_neurons L globals_after_data * 4).

(** The globals after the [spin1_memcpy] of line 26. *)
Definition globals_with_gains : G :=
  set_inhib_gain L
    (map kbits (copy_words (sram m 10) (Z.to_nat (gains_bytes / 4))))
    globals_after_data.

(** The [k]-th (from 1) of the six filter and route loaders, called on
    the globals left by the [k - 1] loaders before it: what it returns
    and the globals it leaves.  For [k = 0] these are the globals the
    first loader is called on. *)
Fixpoint loader_result (k : nat) : bool * G :=
  match k with
  | O => (true, globals_with_gains)
  | S j => subcomponent_loader L (S j) (sram m) (loader_result j).2
  end.

(** [get_pes(region_start(13, address))], line 44. *)
Definition pes_result : bool * G :=
  get_pes L (sram m 13) (loader_result 6).2.

(** [record_buffer_initialise(..., region_start(15, address),
    simulation_ticks, g_ensemble.n_neurons)], line 51. *)
Definition record_result : bool * G :=
  record_buffer_initialise L (sram m 15) (simulation_ticks m)
    (n_neurons L pes_result.2) pes_result.2.

(** The checked steps before the filter loaders have succeeded. *)
Definition gains_loaded : Prop :=
  system_result.1 = true /\ gains_bytes <= heap_free m.

(** The first [k] filter and route loaders have returned [true]. *)
Definition loaders_passed (k : nat) : Prop :=
  forall j, (1 <= j <= k)%nat -> (loader_result j).1 = true.

(** What the checked steps of the run from [m] returned when the run
    ends at [s]: every checked step before the place [s] returned
    success and the step at [s] returned failure; for [Started], every
    checked step returned success. *)
Definition stop_reason (s : stop) : Prop :=
  match s with
  | StopSystem => system_result.1 = false
  | StopMalloc => system_result.1 = true /\ heap_free m < gains_bytes
  | StopFilter k =>
      gains_loaded /\ (1 <= k <= 6)%nat
      /\ loaders_passed (k - 1) /\ (loader_result k).1 = false
  | StopPes => gains_loaded /\ loaders_passed 6 /\ pes_result.1 = false
  | StopRecord =>
      gains_loaded /\ loaders_passed 6 /\ pes_result.1 = true
      /\ record_result.1 = false
  | Started =>
      gains_loaded /\ loaders_passed 6 /\ pes_result.1 = true
      /\ record_result.1 = true
  end.

End Run.

End EnsembleBoot.

(** ** Concrete boots of the ensemble, for running the model *)

Module EnsembleBootExamples.
Import Word Kernel EnsembleMain.

(** The library [L] whose four data loaders (regions 2 to 5) do to the
    globals what those of [L] do but return the given values. *)
Definition reporting_data {G} (b2 b3 b4 b5 : bool) (L : library G) : library G :=
  {| data_system := data_system L;
     data_get_bias := fun a n g => (b2, (data_get_bias L a n g).2);
     data_get_encoders := fun a n d g => (b3, (data_get_encoders L a n d g).2);
     data_get_decoders := fun a n d g => (b4, (data_get_decoders L a n d g).2);
     data_get_keys := fun a d g => (b5, (data_get_keys L a d g).2);
     input_filter_get_filters := input_filter_get_filters L;
     input_filter_get_filter_routes := input_filter_get_filter_routes L;
     get_pes := get_pes L;
     record_buffer_initialise := record_buffer_initialise L;
     n_neurons := n_neurons L;
     n_dimensions := n_dimensions L;
     g_n_output_dimensions := g_n_output_dimensions L;
     machine_timestep := machine_timestep L;
     inhib_gain := inhib_gain L;
     set_inhib_gain := set_inhib_gain L |}.

(** A library that keeps a log.  The globals are the regions loaded so
    far and the inhibitory gains; every loader adds its region to the log
    and succeeds, except that [get_pes] fails when it is called with
    exactly [bad] regions in the log.  In a run of [c_main] it is called
    with eleven.  [g_ensemble.n_neurons] is 0 until [data_system] has
    loaded region 1, and 2 from then on. *)
Definition logging_library (bad : nat) : library (list Z * list Z) :=
  let note (r : Z) (g : list Z * list Z) := (g.1 ++ [r], g.2) in
  {| data_system := fun _ g => (true, note 1 g);
     data_get_bias := fun _ _ g => (true, note 2 g);
     data_get_encoders := fun _ _ _ g => (true, note 3 g);
     data_get_decoders := fun _ _ _ g => (true, note 4 g);
     data_get_keys := fun _ _ g => (true, note 5 g);
     input_filter_get_filters := fun i _ g =>
       (true, note match i with
                   | g_input => 6
                   | g_input_inhibitory => 8
                   | g_input_modulatory => 11
                   end g);
     input_filter_get_filter_routes := fun i _ g =>
       (true, note match i with
                   | g_input => 7
                   | g_input_inhibitory => 9
                   | g_input_modulatory => 12
                   end g);
     get_pes := fun _ g => (negb (length g.1 =? bad)%nat, note 13 g);
     record_buffer_initialise := fun _ _ _ g => (true, note 15 g);
     n_neurons := fun g => if (length g.1 =? 0)%nat then 0 else 2;
     n_dimensions := fun _ => 1;
     g_n_output_dimensions := fun _ => 1;
     machine_timestep := fun _ => 1000;
     inhib_gain := snd;
     set_inhib_gain := fun l g => (g.1, l) |}.

Definition logging_boot_machine : machine (list Z * list Z) :=
  {| globals := ([], []); sram := fun _ _ => 0; leadAp := true;
     simulation_ticks := 100; heap_free := 65536; exit_code := None;
     trace := [] |}.

(** [logging_boot_machine] with four bytes of heap left. *)
Definition starved_logging_machine : machine (list Z * list Z) :=
  {| globals := ([], []); sram := fun _ _ => 0; leadAp := true;
     simulation_ticks := 100; heap_free := 4; exit_code := None;
     trace := [] |}.

End EnsembleBootExamples.

(** ** What a computation leaves as it was *)

Module Frame.
Import Kernel.

(** [c] does not change what [view] shows of the globals. *)
Definition keeps {G A X} (view : G -> X) (c : M G A) : Prop :=
  forall m a m', c m = Some (a, m') -> view (globals m') = view (globals m).

End Frame.

(** ** The filter after a successful load *)

Module FilterBoot.
Import Word Kernel Filter.

Section Booted.
Context {IF : InputFilter}.

(** What the five loaders leave when all succeed, in terms of the
    configuration memory of the machine [m] that booted: the system
    parameters are the first five words of region 1, the delay counter is
    the transmission delay, the keys are the first [size_out] words of
    region 2, the transform the first [size_in * size_out] words of
    region 5, the input pointer is set; [g_filter.output] is what it was. *)
Record booted (m m1 : machine filter_globals) : Prop := Booted {
  booted_size_in :
    size_in (g_filter (globals m1)) = read_uint (sram m 1) 0;
  booted_size_out :
    size_out (g_filter (globals m1)) = read_uint (sram m 1) 1;
  booted_machine_timestep :
    machine_timestep (g_filter (globals m1)) = read_uint (sram m 1) 2;
  booted_transmission_delay :
    transmission_delay (g_filter (globals m1)) = read_uint (sram m 1) 3;
  booted_interpacket_pause :
    interpacket_pause (g_filter (globals m1)) = read_uint (sram m 1) 4;
  booted_delay_remaining :
    delay_remaining (globals m1) = read_uint (sram m 1) 3;
  booted_keys :
    keys (g_filter (globals m1))
    = copy_words (sram m 2) (Z.to_nat (read_uint (sram m 1) 1));
  booted_transform :
    transform (g_filter (globals m1))
    = map kbits (copy_words (sram m 5)
                   (Z.to_nat (read_uint (sram m 1) 1)
                    * Z.to_nat (read_uint (sram m 1) 0)));
  booted_input : input (g_filter (globals m1)) = InputBuffer;
  booted_input_vector :
    length (input_vector (g_input (globals m1)))
    = Z.to_nat (read_uint (sram m 1) 0);
  booted_output :
    output (g_filter (globals m1)) = output (g_filter (globals m));
  booted_heap :
    heap_free m1
    = heap_free m - read_uint (sram m 1) 1 * 4
      - read_uint (sram m 1) 0 * read_uint (sram m 1) 1 * 4;
  booted_sram : sram m1 = sram m;
  booted_leadAp : leadAp m1 = leadAp m;
  booted_simulation_ticks : simulation_ticks m1 = simulation_ticks m;
  booted_exit_code : exit_code m1 = exit_code m
}.

End Booted.
End FilterBoot.

(** ** A filter core about to boot, with its output array in place *)

Module FilterBootExamples.
Import Word Kernel Filter.

(** [booting_machine heap] with a one-entry output array. *)
Definition sized_booting_machine (heap : Z)
    : machine (@filter_globals plain_input_filter) :=
  {| globals :=
       @FilterGlobals plain_input_filter
         (FilterParameters 0 0 0 0 0 [] NULL [0] []) 0 [];
     sram := sram (booting_machine heap);
     leadAp := false; simulation_ticks := UINT32_MAX; heap_free := heap;
     exit_code := None; trace := [] |}.

(** A loaded filter with no input dimension: two outputs holding stale
    values, keys [[7; 8]], an empty transform. *)
Definition inputless_machine
    : machine (@filter_globals plain_input_filter) :=
  {| globals :=
       @FilterGlobals plain_input_filter
         (FilterParameters 0 2 1000 1 0 [7; 8] InputBuffer [5; 5] [])
         1 [];
     sram := fun _ _ => 0; leadAp := true; simulation_ticks := 5;
     heap_free := 65536; exit_code := None; trace := [] |}.

(** [example_machine 1 5] with three bytes of heap left. *)
Definition starved_example_machine
    : machine (@filter_globals plain_input_filter) :=
  {| globals := globals (example_machine 1 5);
     sram := fun _ _ => 0; leadAp := true; simulation_ticks := 5;
     heap_free := 3; exit_code := None; trace := [] |}.

(** A filter whose system region asked for 2^30 outputs. *)
Definition oversized_machine
    : machine (@filter_globals plain_input_filter) :=
  {| globals :=
       @FilterGlobals plain_input_filter
         (FilterParameters 1 (2 ^ 30) 1000 1 0 [] NULL [] []) 1 [];
     sram := fun _ _ => 0; leadAp := true; simulation_ticks := 5;
     heap_free := 0; exit_code := None; trace := [] |}.

End FilterBootExamples.


(** ** The first harness: [ensemble-harness.c]

    [initialise_buffers] obtains the ensemble's eight arrays from the
    heap.  The arrays are not written here, so a pointer is kept as what
    [spin1_malloc] returned: [NULL], or a block of so many bytes. *)

Module Harness.
Import Word Kernel.
Local Open Scope kernel_scope.

Inductive block := NULL | Block (bytes : Z).

(** The eight pointer globals of lines 3 to 8 that the function sets. *)
Inductive pointer_name :=
| encoders | decoders | output_keys | i_bias
| ibuf_accumulator | ibuf_filtered | v_ref_voltage | decoded_values.

#[global] Instance pointer_name_eq_dec : EqDecision pointer_name.
Proof. solve_decision. Defined.

Record harness_globals := Globals {
  n_input_dimensions : Z;
  n_output_dimensions : Z;
  n_neurons : Z;
  pointer : pointer_name -> block
}.

(** [p = x] for the pointer global [p]. *)
Definition assign (p : pointer_name) (x : block) (g : harness_globals) : harness_globals :=
  Globals (n_input_dimensions g) (n_output_dimensions g) (n_neurons g)
    (fun q => if decide (q = p) then x else pointer g q).

(** [p = spin1_malloc(bytes)]: the result is stored unchecked. *)
Definition malloc_into (p : pointer_name) (bytes : Z) : M harness_globals unit :=
  ok <- spin1_malloc bytes ;;
  update (assign p (if ok then Block bytes else NULL)).

(** [sizeof] is 4 for [accum], [uint], [current_t] and [value_t]; the
    products are formed left to right in 32 bits. *)
Definition initialise_buffers : M harness_globals unit :=
  n_in <- read n_input_dimensions ;; n <- read n_neurons ;;
  malloc_into encoders (wrap (wrap (4 * n_in) * n)) ;;
  n_out <- read n_output_dimensions ;; n <- read n_neurons ;;
  malloc_into decoders (wrap (wrap (4 * n_out) * n)) ;;
  n_out <- read n_output_dimensions ;;
  malloc_into output_keys (wrap (4 * n_out)) ;;
  n <- read n_neurons ;;
  malloc_into i_bias (wrap (4 * n)) ;;
  n_in <- read n_input_dimensions ;;
  malloc_into ibuf_accumulator (wrap (4 * n_in)) ;;
  n_in <- read n_input_dimensions ;;
  malloc_into ibuf_filtered (wrap (4 * n_in)) ;;
  n <- read n_neurons ;;
  malloc_into v_ref_voltage (wrap (4 * n)) ;;
  n_out <- read n_output_dimensions ;;
  malloc_into decoded_values (wrap (4 * n_out)).

(** *** The requests as a list, for stating what the heap has given *)

(** The requests of lines 52 to 63 in program order. *)
Definition requests (g : harness_globals) : list (pointer_name * Z) :=
  [ (encoders, wrap (wrap (4 * n_input_dimensions g) * n_neurons g));
    (decoders, wrap (wrap (4 * n_output_dimensions g) * n_neurons g));
    (output_keys, wrap (4 * n_output_dimensions g));
    (i_bias, wrap (4 * n_neurons g));
    (ibuf_accumulator, wrap (4 * n_input_dimensions g));
    (ibuf_filtered, wrap (4 * n_input_dimensions g));
    (v_ref_voltage, wrap (4 * n_neurons g));
    (decoded_values, wrap (4 * n_output_dimensions g)) ].

(** The bytes a pointer holds. *)
Definition held (x : block) : Z :=
  match x with NULL => 0 | Block bytes => bytes end.

(** The bytes held by the pointers named in [rs]. *)
Definition held_by (g : harness_globals) (rs : list (pointer_name * Z)) : Z :=
  foldr Z.add 0 (map (fun r => held (pointer g r.1)) rs).

(** The bytes asked for by [rs]. *)
Definition asked (rs : list (pointer_name * Z)) : Z :=
  foldr Z.add 0 (map snd rs).

(** The machine after one request has been served and stored. *)
Definition serve (m : machine harness_globals) (r : pointer_name * Z)
    : machine harness_globals :=
  if r.2 <=? heap_free m
  then Machine (assign r.1 (Block r.2) (globals m)) (sram m) (leadAp m)
         (simulation_ticks m) (heap_free m - r.2) (exit_code m) (trace m)
  else with_globals (assign r.1 NULL) m.

(** An ensemble of 3 neurons, 2 inputs and 1 output, with [heap] bytes
    of heap. *)
Definition small_ensemble (heap : Z) : machine harness_globals :=
  {| globals := Globals 2 1 3 (fun _ => NULL);
     sram := fun _ _ => 0; leadAp := false; simulation_ticks := 0;
     heap_free := heap; exit_code := None; trace := [] |}.

End Harness.

(** * Properties *)

(** ** Machine words and the two bit fields *)

Section WordFacts.
Import Word.

Lemma wrap_range x : is_uint (wrap x).
Proof. unfold is_uint, wrap, modulus. apply Z.mod_pos_bound. lia. Qed.

Lemma wrap_small x : is_uint x -> wrap x = x.
Proof. unfold is_uint, wrap. intros. apply Z.mod_small. lia. Qed.

Lemma kbits_range u : is_accum (kbits u).
Proof.
  unfold is_accum, kbits, modulus.
  pose proof (Z.mod_pos_bound u (2 ^ 32) ltac:(lia)).
  destruct (Z.ltb_spec (u mod 2 ^ 32) (2 ^ 31)); lia.
Qed.

Lemma kbits_bitsk v : is_accum v -> kbits (bitsk v) = v.
Proof.
  unfold is_accum, kbits, bitsk, modulus. intros Hv.
  rewrite Z.mod_mod by lia.
  destruct (Z.ltb_spec (v mod 2 ^ 32) (2 ^ 31));
    Z.div_mod_to_equations; lia.
Qed.

Lemma bitsk_kbits u : is_uint u -> bitsk (kbits u) = u.
Proof.
  unfold is_uint, kbits, bitsk, modulus. intros Hu.
  rewrite (Z.mod_small u) by lia.
  destruct (Z.ltb_spec u (2 ^ 31));
    Z.div_mod_to_equations; lia.
Qed.

(** The voltage field: the low 28 bits. *)
Lemma land_voltage_mask x : Z.land x 0x0fffffff = x mod 2 ^ 28.
Proof. change 0x0fffffff with (Z.ones 28). apply Z.land_ones. lia. Qed.

(** The counter field: the four bits above them. *)
Lemma shiftr_counter_mask x :
  Z.shiftr (Z.land x 0xf0000000) 28 = (x / 2 ^ 28) mod 2 ^ 4.
Proof.
  rewrite Z.shiftr_land.
  change (Z.shiftr 0xf0000000 28) with (Z.ones 4).
  rewrite Z.land_ones by lia.
  now rewrite Z.shiftr_div_pow2 by lia.
Qed.

Lemma counter_of_packed w b :
  Z.land (Z.lor (Z.land w 0xf0000000) (Z.land b 0x0fffffff)) 0xf0000000
  = Z.land w 0xf0000000.
Proof.
  rewrite Z.land_lor_distr_l, <- !Z.land_assoc.
  change (Z.land 0xf0000000 0xf0000000) with 0xf0000000.
  change (Z.land 0x0fffffff 0xf0000000) with 0.
  now rewrite Z.land_0_r, Z.lor_0_r.
Qed.

Lemma voltage_of_packed w b :
  Z.land (Z.lor (Z.land w 0xf0000000) (Z.land b 0x0fffffff)) 0x0fffffff
  = Z.land b 0x0fffffff.
Proof.
  rewrite Z.land_lor_distr_l, <- !Z.land_assoc.
  change (Z.land 0x0fffffff 0x0fffffff) with 0x0fffffff.
  change (Z.land 0xf0000000 0x0fffffff) with 0.
  now rewrite Z.land_0_r, Z.lor_0_l.
Qed.

End WordFacts.

(** ** The packed neuron word *)

Section EnsembleFacts.
Import Word Ensemble.

Lemma load_word_lt n g w :
  load_word n g = Some w -> (Z.to_nat n < length (v_ref_voltage g))%nat.
Proof. unfold load_word. apply lookup_lt_Some. Qed.

Lemma store_word_Some n x g w :
  load_word n g = Some w ->
  store_word n x g
  = Some (set_v_ref_voltage (<[Z.to_nat n := x]> (v_ref_voltage g)) g).
Proof.
  intros H%load_word_lt. unfold store_word. now rewrite decide_True.
Qed.

Lemma load_after_store n x g w :
  load_word n g = Some w ->
  load_word n (set_v_ref_voltage (<[Z.to_nat n := x]> (v_ref_voltage g)) g)
  = Some x.
Proof.
  intros H%load_word_lt. unfold load_word. simpl.
  now apply list_lookup_insert_eq.
Qed.

(** What one decrement does to a word whose counter is not zero. *)
Lemma decrement_word w :
  is_uint w -> 1 <= (w / 2 ^ 28) mod 2 ^ 4 ->
  (wrap (w - 0x10000000) / 2 ^ 28) mod 2 ^ 4 = (w / 2 ^ 28) mod 2 ^ 4 - 1
  /\ wrap (w - 0x10000000) mod 2 ^ 28 = w mod 2 ^ 28
  /\ is_uint (wrap (w - 0x10000000)).
Proof.
  unfold is_uint, wrap, modulus. intros Hw Hc.
  assert (Hge : 2 ^ 28 <= w) by (Z.div_mod_to_equations; lia).
  rewrite (Z.mod_small (w - 0x10000000)) by lia.
  repeat split; try lia; Z.div_mod_to_equations; lia.
Qed.

(** C9. [set_neuron_voltage(n, v)] leaves the top-4-bit refractory counter
    as it was and makes [neuron_voltage(n)] the value whose bit pattern is
    the low 28 bits of [bitsk(v)]; when the bit pattern of [v] fits in 28
    bits, [neuron_voltage(n)] is [v] again. *)
Theorem set_neuron_voltage_frame (n v : Z) (g : globals) (w : Z) :
  load_word n g = Some w ->
  is_accum v ->
  exists g',
    set_neuron_voltage n v g = Some g'
    /\ neuron_refractory n g' = neuron_refractory n g
    /\ (exists x, neuron_voltage n g' = Some x
                  /\ bitsk x = Z.land (bitsk v) 0x0fffffff)
    /\ (bitsk v < 2 ^ 28 -> neuron_voltage n g' = Some v).
Proof.
  intros Hw Hv. eexists. split.
  { unfold set_neuron_voltage. rewrite Hw. simpl.
    now apply store_word_Some with (w := w). }
  unfold neuron_refractory, neuron_voltage.
  rewrite (load_after_store _ _ _ _ Hw), Hw. simpl.
  rewrite counter_of_packed, voltage_of_packed.
  split; [reflexivity|]. split.
  - eexists. split; [reflexivity|].
    apply bitsk_kbits. rewrite land_voltage_mask.
    unfold is_uint, modulus.
    pose proof (Z.mod_pos_bound (bitsk v) (2 ^ 28) ltac:(lia)). lia.
  - intros Hfit. f_equal.
    rewrite land_voltage_mask, Z.mod_small.
    + now apply kbits_bitsk.
    + unfold bitsk, modulus in *.
      pose proof (Z.mod_pos_bound v (2 ^ 32) ltac:(lia)). lia.
Qed.

Lemma set_neuron_voltage_frame_witness :
  exists g',
    set_neuron_voltage 1 98304 {| t_ref := 0x20000000;
                                  v_ref_voltage := [0; 0x30000005] |}
    = Some g'
    /\ neuron_refractory 1 g' = Some 3
    /\ neuron_voltage 1 g' = Some 98304.
Proof.
  destruct (set_neuron_voltage_frame 1 98304
              {| t_ref := 0x20000000; v_ref_voltage := [0; 0x30000005] |}
              0x30000005)
    as (g' & Hset & Hrefr & _ & Hround).
  - reflexivity.
  - unfold is_accum. lia.
  - exists g'. split; [exact Hset|]. split.
    + rewrite Hrefr. reflexivity.
    + apply Hround. reflexivity.
Defined.

Lemma decrement_once n g w c :
  load_word n g = Some w -> is_uint w ->
  neuron_refractory n g = Some c -> 1 <= c ->
  exists g' w',
    decrement_neuron_refractory n g = Some g'
    /\ load_word n g' = Some w' /\ is_uint w'
    /\ neuron_refractory n g' = Some (c - 1)
    /\ voltage_bits n g' = voltage_bits n g.
Proof.
  intros Hw Hu Hc Hpos.
  unfold neuron_refractory in Hc. rewrite Hw in Hc. simpl in Hc.
  rewrite shiftr_counter_mask in Hc. injection Hc as Hc.
  destruct (decrement_word w Hu ltac:(lia)) as (Hcnt & Hlow & Hu').
  eexists. exists (wrap (w - 0x10000000)). split.
  { unfold decrement_neuron_refractory. rewrite Hw. simpl.
    now apply store_word_Some with (w := w). }
  unfold neuron_refractory, voltage_bits.
  rewrite (load_after_store _ _ _ _ Hw), Hw. simpl.
  rewrite shiftr_counter_mask, !land_voltage_mask, Hcnt, Hlow, Hc.
  auto.
Qed.

Lemma decrement_many i : forall n g w c,
  load_word n g = Some w -> is_uint w ->
  neuron_refractory n g = Some c -> Z.of_nat i <= c ->
  exists gi,
    decrement_steps i n g = Some gi
    /\ neuron_refractory n gi = Some (c - Z.of_nat i)
    /\ voltage_bits n gi = voltage_bits n g.
Proof.
  induction i as [|i IH]; intros n g w c Hw Hu Hc Hle.
  - exists g. simpl. rewrite Z.sub_0_r. auto.
  - destruct (decrement_once n g w c Hw Hu Hc ltac:(lia))
      as (g' & w' & Hdec & Hw' & Hu' & Hc' & Hv').
    destruct (IH n g' w' (c - 1) Hw' Hu' Hc' ltac:(lia))
      as (gi & Hsteps & Hci & Hvi).
    exists gi. simpl. rewrite Hdec. simpl. split; [exact Hsteps|].
    split; [rewrite Hci; f_equal; lia | congruence].
Qed.

(** C7. With a refractory counter of at least 1, one call of
    [decrement_neuron_refractory(n)] lowers the counter by exactly one and
    keeps the low 28 voltage bits; after [i] calls the counter is the
    initial one less [i], so it is zero after exactly as many calls as the
    initial counter and not before. *)
Theorem decrement_neuron_refractory_counts (n : Z) (g : globals) (w c : Z) :
  load_word n g = Some w ->
  is_uint w ->
  neuron_refractory n g = Some c ->
  1 <= c ->
  (exists g',
      decrement_neuron_refractory n g = Some g'
      /\ neuron_refractory n g' = Some (c - 1)
      /\ voltage_bits n g' = voltage_bits n g)
  /\ (forall i : nat, Z.of_nat i <= c ->
      exists gi,
        decrement_steps i n g = Some gi
        /\ neuron_refractory n gi = Some (c - Z.of_nat i)
        /\ voltage_bits n gi = voltage_bits n g
        /\ (neuron_refractory n gi = Some 0 <-> Z.of_nat i = c)).
Proof.
  intros Hw Hu Hc Hpos. split.
  - destruct (decrement_once n g w c Hw Hu Hc Hpos)
      as (g' & w' & Hdec & _ & _ & Hc' & Hv').
    eauto.
  - intros i Hi.
    destruct (decrement_many i n g w c Hw Hu Hc Hi) as (gi & Hs & Hci & Hvi).
    exists gi. repeat split; auto; rewrite Hci.
    + intros [=]. lia.
    + intros ->. f_equal. lia.
Qed.

Lemma decrement_neuron_refractory_counts_witness :
  exists g3,
    decrement_steps 3 0 {| t_ref := 0; v_ref_voltage := [0x30000005] |}
    = Some g3
    /\ neuron_refractory 0 g3 = Some 0
    /\ voltage_bits 0 g3 = Some 5.
Proof.
  destruct (decrement_neuron_refractory_counts 0
              {| t_ref := 0; v_ref_voltage := [0x30000005] |} 0x30000005 3)
    as [_ Hmany].
  - reflexivity.
  - unfold is_uint, modulus. lia.
  - reflexivity.
  - lia.
  - destruct (Hmany 3%nat ltac:(lia)) as (g3 & Hs & Hc & Hv & _).
    exists g3. split; [exact Hs|]. split; [exact Hc|].
    rewrite Hv. reflexivity.
Defined.

(** C6 (code bug).  [set_neuron_refractory(n)] stores [t_ref] unshifted,
    although the counter is kept in the top four bits of the word.  For
    every [t_ref] that is a count of steps as the header and the system
    region give it, [1 <= t_ref < 16], and indeed for every
    [1 <= t_ref < 2^28], the counter read back by [neuron_refractory(n)]
    in the same tick is 0, not [t_ref], and the voltage read back by
    [neuron_voltage(n)] is the bit pattern [t_ref], not zero: the neuron
    is not refractory and its voltage is not reset. *)
Theorem set_neuron_refractory_stores_unshifted (n : Z) (g : globals) (w : Z) :
  load_word n g = Some w ->
  1 <= t_ref g < 2 ^ 28 ->
  exists g',
    set_neuron_refractory n g = Some g'
    /\ load_word n g' = Some (t_ref g)
    /\ neuron_refractory n g' = Some 0
    /\ neuron_voltage n g' = Some (t_ref g)
    /\ neuron_refractory n g' <> Some (t_ref g)
    /\ neuron_voltage n g' <> Some 0.
Proof.
  intros Hw Ht. eexists. split.
  { unfold set_neuron_refractory. now apply store_word_Some with (w := w). }
  split; [now apply load_after_store with (w := w)|].
  unfold neuron_refractory, neuron_voltage.
  rewrite (load_after_store _ _ _ _ Hw). simpl.
  rewrite shiftr_counter_mask, land_voltage_mask.
  rewrite (Z.div_small (t_ref g) (2 ^ 28)) by lia.
  rewrite (Z.mod_small (t_ref g) (2 ^ 28)) by lia.
  assert (Hk : kbits (t_ref g) = t_ref g).
  { unfold kbits, modulus. rewrite Z.mod_small by lia.
    destruct (Z.ltb_spec (t_ref g) (2 ^ 31)); lia. }
  rewrite Hk. change (0 mod 2 ^ 4) with 0.
  repeat split; try reflexivity; intros [=]; lia.
Qed.

Lemma set_neuron_refractory_stores_unshifted_witness :
  exists g',
    set_neuron_refractory 0 {| t_ref := 2; v_ref_voltage := [77] |} = Some g'
    /\ neuron_refractory 0 g' = Some 0
    /\ neuron_voltage 0 g' = Some 2.
Proof.
  destruct (set_neuron_refractory_stores_unshifted 0
              {| t_ref := 2; v_ref_voltage := [77] |} 77)
    as (g' & Hset & _ & Hc & Hv & _).
  - reflexivity.
  - simpl. lia.
  - exists g'. split; [exact Hset|]. split; [exact Hc | exact Hv].
Defined.

(** Two concrete readings.  With [t_ref = 2] (a count of steps) the word
    written is [2]: the counter field reads 0, not [t_ref], and the
    voltage field reads the bit pattern 2, not zero.  With
    [t_ref = 0x20000000] (the count 2 held in the counter field) the
    counter reads 2, which is not the value of [t_ref] either. *)
Lemma set_neuron_refractory_readback_fails :
  (exists g',
     set_neuron_refractory 0 {| t_ref := 2; v_ref_voltage := [0] |} = Some g'
     /\ ~ (neuron_refractory 0 g' = Some 2 /\ neuron_voltage 0 g' = Some 0))
  /\ (exists g',
        set_neuron_refractory 0 {| t_ref := 0x20000000; v_ref_voltage := [0] |}
        = Some g'
        /\ ~ (neuron_refractory 0 g' = Some 0x20000000
              /\ neuron_voltage 0 g' = Some 0)).
Proof.
  split; (eexists; split; [reflexivity|]);
    vm_compute; intros [H _]; discriminate H.
Qed.

(** What the store leaves for any [t_ref].  [set_neuron_refractory(n)]
    writes [t_ref] as the whole packed word: in the same tick
    [neuron_refractory(n)] reads back the top four bits of [t_ref] and
    [neuron_voltage(n)] the value of its low 28 bits; the counter would
    read [c] and the voltage zero only for a [t_ref] that already held
    the count [c] (below 16) in its top four bits. *)
Theorem set_neuron_refractory_packed (n : Z) (g : globals) (w : Z) :
  load_word n g = Some w ->
  is_uint (t_ref g) ->
  exists g',
    set_neuron_refractory n g = Some g'
    /\ load_word n g' = Some (t_ref g)
    /\ neuron_refractory n g' = Some (Z.shiftr (t_ref g) 28)
    /\ neuron_voltage n g' = Some (kbits (Z.land (t_ref g) 0x0fffffff))
    /\ (forall c, 0 <= c < 16 -> t_ref g = Z.shiftl c 28 ->
        neuron_refractory n g' = Some c /\ neuron_voltage n g' = Some 0).
Proof.
  intros Hw Hu. eexists. split.
  { unfold set_neuron_refractory. now apply store_word_Some with (w := w). }
  unfold neuron_refractory, neuron_voltage.
  rewrite (load_after_store _ _ _ _ Hw). simpl.
  rewrite shiftr_counter_mask, land_voltage_mask.
  assert (Hsh : (t_ref g / 2 ^ 28) mod 2 ^ 4 = Z.shiftr (t_ref g) 28).
  { rewrite Z.shiftr_div_pow2 by lia. apply Z.mod_small.
    unfold is_uint, modulus in Hu. Z.div_mod_to_equations. lia. }
  rewrite Hsh. do 3 (split; [reflexivity|]).
  intros c Hc Ht. rewrite Ht.
  rewrite Z.shiftr_shiftl_l, Z.sub_diag, Z.shiftl_0_r by lia.
  split; [reflexivity|]. f_equal.
  rewrite Z.shiftl_mul_pow2, Z_mod_mult by lia. reflexivity.
Qed.

Lemma set_neuron_refractory_packed_witness :
  exists g',
    set_neuron_refractory 0 {| t_ref := 0x20000000; v_ref_voltage := [77] |}
    = Some g'
    /\ neuron_refractory 0 g' = Some 2
    /\ neuron_voltage 0 g' = Some 0.
Proof.
  destruct (set_neuron_refractory_packed 0
              {| t_ref := 0x20000000; v_ref_voltage := [77] |} 77)
    as (g' & Hset & _ & _ & _ & Hshifted).
  - reflexivity.
  - unfold is_uint, modulus. simpl. lia.
  - exists g'. split; [exact Hset|].
    apply (Hshifted 2); [lia | reflexivity].
Defined.

End EnsembleFacts.

(** ** The ensemble component's boot *)

Section EnsembleMainFacts.
Import Word Kernel EnsembleMain.

(** Whatever the bias loader returns, [c_main] does the same: the value
    is dropped at the call (line 15). *)
Lemma c_main_ignores_bias_report {G} (L : library G) (b : bool)
    (m : machine G) :
  c_main (reporting_bias b L) m = c_main L m.
Proof.
  unfold c_main, bind, call. cbn.
  destruct (data_system L _ _) as [[|] g1]; cbn; [|reflexivity].
  destruct (data_get_bias L _ _ _) as [b' g2]. reflexivity.
Qed.

(** C1 at a concrete boot: the bias loader (region 2) reports failure,
    every other load step succeeds, and [c_main] still sets the timer
    period and calls [spin1_start]; what the bias loader reports changes
    nothing in what [c_main] does. *)
Theorem c_main_starts_despite_bias_failure :
  (data_get_bias (stub_library false) (sram boot_machine 2) 2 []).1 = false
  /\ (exists m',
        c_main (stub_library false) boot_machine = Some (tt, m')
        /\ timer_period_set m' = true
        /\ reached_running m' = true
        /\ regions (trace m') = [1; 2; 3; 4; 5; 10; 6; 7; 8; 9; 11; 12; 13; 15])
  /\ option_map (fun r => trace r.2) (c_main (stub_library false) boot_machine)
     = option_map (fun r => trace r.2) (c_main (stub_library true) boot_machine).
Proof.
  split; [reflexivity|]. split; [|vm_compute; reflexivity].
  eexists. split; [vm_compute; reflexivity|]. vm_compute. repeat split.
Qed.

End EnsembleMainFacts.

(** ** The filter component *)

Section LoopFacts.
Import Kernel.
Context {G : Type}.

(** The loop rule: an invariant indexed by the loop counter. *)
Lemma for_from_invariant (body : Z -> M G unit) (I : nat -> machine G -> Prop) :
  forall (c i : nat) (m : machine G),
    I i m ->
    (forall k mk, (i <= k < i + c)%nat -> I k mk ->
       exists mk', body (Z.of_nat k) mk = Some (tt, mk') /\ I (S k) mk') ->
    exists m', for_from i c body m = Some (tt, m') /\ I (i + c)%nat m'.
Proof.
  induction c as [|c IH]; intros i m Hi Hstep.
  - exists m. rewrite Nat.add_0_r. auto.
  - destruct (Hstep i m ltac:(lia) Hi) as (m1 & Hb & Hi1).
    destruct (IH (S i) m1 Hi1) as (m' & Hrest & Hend).
    { intros k mk Hk. apply Hstep. lia. }
    exists m'. split.
    + simpl. unfold bind. rewrite Hb. exact Hrest.
    + replace (i + S c)%nat with (S i + c)%nat by lia. exact Hend.
Qed.

End LoopFacts.

Section FilterFacts.
Import Word Kernel Filter.
Context {FP : FixedPoint} {IF : InputFilter}.

Lemma bind_Some {G A B} (c : M G A) (k : A -> M G B) m a m' :
  c m = Some (a, m') -> bind c k m = k a m'.
Proof. intros H. unfold bind. now rewrite H. Qed.

Lemma load_transform_at (m : machine filter_globals) (i : Z) :
  (Z.to_nat i < length (transform (g_filter (globals m))))%nat ->
  load_transform i m
  = Some (transform (g_filter (globals m)) !!! Z.to_nat i, m).
Proof.
  intros H. unfold load_transform, bind, read, of_option.
  now rewrite (list_lookup_lookup_total_lt _ _ H).
Qed.

Lemma load_keys_at (m : machine filter_globals) (i : Z) :
  (Z.to_nat i < length (keys (g_filter (globals m))))%nat ->
  load_keys i m = Some (keys (g_filter (globals m)) !!! Z.to_nat i, m).
Proof.
  intros H. unfold load_keys, bind, read, of_option.
  now rewrite (list_lookup_lookup_total_lt _ _ H).
Qed.

Lemma load_output_at (m : machine filter_globals) (i : Z) :
  (Z.to_nat i < length (output (g_filter (globals m))))%nat ->
  load_output i m = Some (output (g_filter (globals m)) !!! Z.to_nat i, m).
Proof.
  intros H. unfold load_output, bind, read, of_option.
  now rewrite (list_lookup_lookup_total_lt _ _ H).
Qed.

Lemma load_input_at (m : machine filter_globals) (i : Z) :
  input (g_filter (globals m)) = InputBuffer ->
  (Z.to_nat i < length (input_vector (g_input (globals m))))%nat ->
  load_input i m = Some (input_vector (g_input (globals m)) !!! Z.to_nat i, m).
Proof.
  intros Hp H. unfold load_input, bind, read, of_option. rewrite Hp.
  now rewrite (list_lookup_lookup_total_lt _ _ H).
Qed.

Lemma store_output_at (m : machine filter_globals) (i x : Z) :
  (Z.to_nat i < length (output (g_filter (globals m))))%nat ->
  store_output i x m
  = Some (tt, with_globals (set_g_filter (set_output
                 (<[Z.to_nat i := x]> (output (g_filter (globals m)))))) m).
Proof.
  intros H. unfold store_output, bind, read, update.
  now rewrite decide_True.
Qed.

(** The index [j * size_in + k] does not wrap and stays in the matrix. *)
Lemma transform_index (n_in n_out : Z) (j k : nat) :
  is_uint n_in -> n_in * n_out <= modulus ->
  (j < Z.to_nat n_out)%nat -> (k < Z.to_nat n_in)%nat ->
  Z.to_nat (wrap (Z.of_nat j * n_in + Z.of_nat k)) = (j * Z.to_nat n_in + k)%nat
  /\ (j * Z.to_nat n_in + k < Z.to_nat n_out * Z.to_nat n_in)%nat.
Proof.
  unfold is_uint, modulus. intros Hn Hprod Hj Hk.
  assert (Hlt : Z.of_nat j * n_in + Z.of_nat k < n_out * n_in) by nia.
  split.
  - rewrite wrap_small by (unfold is_uint, modulus; nia). nia.
  - nia.
Qed.

Lemma matvec_row_S (T x : list Z) (n_in j k : nat) (acc : Z) :
  fold_left (fun acc k => kadd acc (kmul (T !!! (j * n_in + k)%nat) (x !!! k)))
    (seq 0 (S k)) acc
  = kadd (fold_left (fun acc k => kadd acc (kmul (T !!! (j * n_in + k)%nat) (x !!! k)))
            (seq 0 k) acc)
         (kmul (T !!! (j * n_in + k)%nat) (x !!! k)).
Proof. rewrite seq_S, fold_left_app. reflexivity. Qed.

(** One row of the transform loop (the body of the loop over [j]). *)
Lemma transform_row (m : machine filter_globals) (out : list Z) (j : nat) :
  well_formed m ->
  (j < Z.to_nat (size_out (g_filter (globals m))))%nat ->
  length out = Z.to_nat (size_out (g_filter (globals m))) ->
  (store_output (Z.of_nat j) 0 ;;
   n_in <- read (fun g => size_in (g_filter g)) ;;
   for_uint n_in (fun k =>
     n_in <- read (fun g => size_in (g_filter g)) ;;
     t <- load_transform (wrap (Z.of_nat j * n_in + k)) ;;
     x <- load_input k ;;
     o <- load_output (Z.of_nat j) ;;
     store_output (Z.of_nat j) (kadd o (kmul t x))))%K
    (with_globals (set_g_filter (set_output out)) m)
  = Some (tt, with_globals (set_g_filter (set_output
              (<[j := matvec_row (transform (g_filter (globals m)))
                        (input_vector (g_input (globals m)))
                        (Z.to_nat (size_in (g_filter (globals m)))) j]>
                 out))) m).
Proof.
  intros Hwf Hj Hout. destruct Hwf.
  set (T := transform (g_filter (globals m))) in *.
  set (x := input_vector (g_input (globals m))) in *.
  set (n_in := size_in (g_filter (globals m))) in *.
  set (n_out := size_out (g_filter (globals m))) in *.
  erewrite bind_Some by (apply store_output_at; cbn; rewrite Nat2Z.id; lia).
  unfold bind at 1, read at 1. cbn. fold n_in. rewrite Nat2Z.id.
  set (acc := fun k => fold_left
    (fun acc k => kadd acc (kmul (T !!! (j * Z.to_nat n_in + k)%nat) (x !!! k)))
    (seq 0 k) 0).
  destruct (for_from_invariant
    (fun k =>
       n_in0 <- read (fun g => size_in (g_filter g)) ;;
       t <- load_transform (wrap (Z.of_nat j * n_in0 + k)) ;;
       x0 <- load_input k ;;
       o <- load_output (Z.of_nat j) ;;
       store_output (Z.of_nat j) (kadd o (kmul t x0)))%K
    (fun k mk => mk = with_globals (set_g_filter (set_output
                         (<[j := acc k]> out))) m)
    (Z.to_nat n_in) 0%nat
    (with_globals (set_g_filter (set_output (<[j := 0]> out))) m))
    as (m' & Hrun & Hm').
  - reflexivity.
  - intros k mk Hk ->. eexists. split; [|reflexivity].
    assert (Hacc : acc (S k)
                   = kadd (acc k) (kmul (T !!! (j * Z.to_nat n_in + k)%nat)
                                        (x !!! k)))
      by apply matvec_row_S.
    rewrite Hacc. clearbody acc.
    destruct (transform_index n_in n_out j k) as [Hidx Hin]; try lia; try assumption.
    unfold bind at 1, read at 1. cbn. fold n_in.
    erewrite bind_Some
      by (apply load_transform_at; cbn; fold T; rewrite Hidx; lia).
    erewrite bind_Some
      by (apply load_input_at; cbn; [assumption | rewrite Nat2Z.id; fold x; lia]).
    erewrite bind_Some
      by (apply load_output_at; cbn; rewrite Nat2Z.id, length_insert; lia).
    rewrite store_output_at
      by (cbn; rewrite Nat2Z.id, length_insert; lia).
    cbn. fold T x. rewrite !Nat2Z.id, Hidx.
    rewrite list_lookup_total_insert_eq by lia.
    rewrite list_insert_insert_eq.
    reflexivity.
  - subst m'. exact Hrun.
Qed.

Lemma with_output_same (m : machine filter_globals) :
  with_globals (set_g_filter (set_output (output (g_filter (globals m))))) m = m.
Proof. destruct m as [[[] ? ?] ? ? ? ? ? ?]. reflexivity. Qed.

Lemma insert_next_row (f : nat -> Z) (out : list Z) (j : nat) :
  (j < length out)%nat ->
  <[j := f j]> (map f (seq 0 j) ++ drop j out)
  = map f (seq 0 (S j)) ++ drop (S j) out.
Proof.
  intros Hj.
  destruct (lookup_lt_is_Some_2 out j Hj) as [y Hy].
  rewrite seq_S, map_app, <- app_assoc. simpl.
  rewrite (drop_S out y j Hy).
  rewrite insert_app_r_alt by (rewrite length_map, length_seq; lia).
  rewrite length_map, length_seq, Nat.sub_diag. reflexivity.
Qed.

(** The transform loop writes the matrix-vector product. *)
Lemma apply_transform_at (m : machine filter_globals) :
  well_formed m ->
  apply_transform m
  = Some (tt, with_globals (set_g_filter (set_output
                (matvec (transform (g_filter (globals m)))
                        (input_vector (g_input (globals m)))
                        (Z.to_nat (size_in (g_filter (globals m))))
                        (Z.to_nat (size_out (g_filter (globals m))))))) m).
Proof.
  intros Hwf.
  set (T := transform (g_filter (globals m))).
  set (x := input_vector (g_input (globals m))).
  set (n_in := Z.to_nat (size_in (g_filter (globals m)))).
  set (n_out := Z.to_nat (size_out (g_filter (globals m)))).
  set (out0 := output (g_filter (globals m))).
  assert (Hlen : length out0 = n_out) by apply (wf_output m Hwf).
  unfold apply_transform. unfold bind at 1, read at 1. fold n_out.
  destruct (for_from_invariant
    (fun j =>
       store_output j 0 ;;
       n_in <- read (fun g => size_in (g_filter g)) ;;
       for_uint n_in (fun k =>
         n_in <- read (fun g => size_in (g_filter g)) ;;
         t <- load_transform (wrap (j * n_in + k)) ;;
         x <- load_input k ;;
         o <- load_output j ;;
         store_output j (kadd o (kmul t x))))%K
    (fun j mj => mj = with_globals (set_g_filter (set_output
                         (map (matvec_row T x n_in) (seq 0 j) ++ drop j out0))) m)
    n_out 0%nat m) as (m' & Hrun & Hm').
  - simpl. rewrite drop_0. symmetry. apply with_output_same.
  - intros j mj Hj ->. eexists. split.
    + apply transform_row; [assumption | fold n_out; lia |].
      rewrite length_app, length_map, length_seq, length_drop. fold n_out. lia.
    + fold T x n_in. rewrite insert_next_row by lia. reflexivity.
  - refine (eq_trans Hrun _). rewrite Hm'. simpl.
    rewrite drop_ge, app_nil_r by lia. reflexivity.
Qed.

Lemma packets_transmission_trace (pause : Z) (pk : list (Z * Z)) :
  packets (transmission_trace pause pk) = pk.
Proof.
  induction pk as [|[k p] pk IH]; [reflexivity|].
  change (packets (transmission_trace pause ((k, p) :: pk)))
    with ((k, p) :: packets (transmission_trace pause pk)).
  now rewrite IH.
Qed.

Lemma with_events_app {G} (es1 es2 : list event) (m : machine G) :
  with_events es2 (with_events es1 m) = with_events (es1 ++ es2) m.
Proof. unfold with_events. simpl. now rewrite app_assoc. Qed.

Lemma with_events_nil {G} (m : machine G) : with_events [] m = m.
Proof. destruct m. unfold with_events. simpl. now rewrite app_nil_r. Qed.

(** The transmission loop sends one packet per output dimension. *)
Lemma transmit_output_at (m : machine filter_globals) :
  length (keys (g_filter (globals m)))
  = Z.to_nat (size_out (g_filter (globals m))) ->
  length (output (g_filter (globals m)))
  = Z.to_nat (size_out (g_filter (globals m))) ->
  transmit_output m
  = Some (tt, with_events
                (transmission_trace (interpacket_pause (g_filter (globals m)))
                   (output_packets (keys (g_filter (globals m)))
                      (output (g_filter (globals m))))) m).
Proof.
  intros Hk Ho.
  set (ks := keys (g_filter (globals m))) in *.
  set (out := output (g_filter (globals m))) in *.
  set (pause := interpacket_pause (g_filter (globals m))).
  set (n_out := Z.to_nat (size_out (g_filter (globals m)))) in *.
  unfold transmit_output. unfold bind at 1, read at 1. fold n_out.
  destruct (for_from_invariant
    (fun d =>
       o <- load_output d ;;
       key <- load_keys d ;;
       spin1_send_mc_packet key (bitsk o) ;;
       pause <- read (fun g => interpacket_pause (g_filter g)) ;;
       spin1_delay_us pause)%K
    (fun d md => md = with_events
                   (transmission_trace pause
                      (take d (output_packets ks out))) m)
    n_out 0%nat m) as (m' & Hrun & Hm').
  - simpl. now rewrite with_events_nil.
  - intros d md Hd ->. eexists. split.
    + erewrite bind_Some
        by (apply load_output_at; cbn; fold out; rewrite Nat2Z.id; lia).
      erewrite bind_Some
        by (apply load_keys_at; cbn; fold ks; rewrite Nat2Z.id; lia).
      cbn. reflexivity.
    + cbn. fold ks out pause. rewrite !Nat2Z.id.
      unfold with_events. cbn. rewrite <- !app_assoc. do 2 f_equal.
      assert (Hlk : output_packets ks out !! d
                    = Some (ks !!! d, bitsk (out !!! d))).
      { unfold output_packets. apply lookup_zip_with_Some.
        exists (ks !!! d), (bitsk (out !!! d)). split; [reflexivity|]. split.
        - apply list_lookup_lookup_total_lt. lia.
        - rewrite list_lookup_fmap.
          rewrite (list_lookup_lookup_total_lt out d) by lia. reflexivity. }
      rewrite (take_S_r _ _ _ Hlk).
      unfold transmission_trace. rewrite flat_map_app. simpl. reflexivity.
  - refine (eq_trans Hrun _). rewrite Hm'. simpl.
    rewrite take_ge; [reflexivity|].
    unfold output_packets. rewrite length_zip_with, length_map. lia.
Qed.


(** [filter_update] is the tick of the specification. *)
Lemma filter_update_after_tick `{!InputFilterWidth}
    (ticks arg1 : Z) (m : machine filter_globals) :
  well_formed m ->
  filter_update ticks arg1 m = Some (tt, after_tick ticks m).
Proof.
  intros Hwf.
  unfold filter_update. unfold bind at 1, get_simulation_ticks at 1.
  fold (exits ticks m).
  set (m1 := if exits ticks m
             then Machine (globals m) (sram m) (leadAp m) (simulation_ticks m)
                    (heap_free m) (Some 0) (trace m ++ [Exit 0])
             else m).
  assert (H1 : (if exits ticks m then spin1_exit 0 else ret tt) m
               = Some (tt, m1)).
  { unfold m1. destruct (exits ticks m); reflexivity. }
  rewrite (bind_Some _ _ _ _ _ H1).
  assert (Hg : globals m1 = globals m).
  { unfold m1. destruct (exits ticks m); reflexivity. }
  unfold update_body. unfold bind at 1, update at 1.
  set (m2 := with_globals
               (fun g => set_g_input (input_filter_step (g_input g) true) g) m1).
  assert (Hwf2 : well_formed m2).
  { destruct Hwf. unfold m2. split; cbn; rewrite ?Hg; try assumption.
    rewrite step_width. assumption. }
  rewrite (bind_Some _ _ _ _ _ (apply_transform_at m2 Hwf2)).
  unfold count_and_transmit.
  unfold bind at 1, read at 1. unfold bind at 1, update at 1.
  unfold bind at 1, read at 1.
  cbn [globals with_globals set_delay_remaining delay_remaining m2
       set_g_filter set_g_input g_filter].
  rewrite Hg. fold (transmits m).
  destruct (transmits m) eqn:Htr.
  - unfold bind at 1, read at 1. unfold bind at 1, update at 1.
    rewrite transmit_output_at
      by (cbn; rewrite ?Hg; unfold matvec;
          rewrite ?length_map, ?length_seq; apply Hwf || reflexivity).
    unfold after_tick, output_of_tick. rewrite Htr.
    clear H1 Hg Hwf2. subst m2 m1.
    destruct (exits ticks m); unfold with_events; cbn;
      rewrite <- ?app_assoc; reflexivity.
  - unfold after_tick, output_of_tick. rewrite Htr.
    clear H1 Hg Hwf2. subst m2 m1.
    destruct (exits ticks m); cbn; rewrite ?app_nil_r; reflexivity.
Qed.

Lemma after_tick_well_formed `{!InputFilterWidth}
    (ticks : Z) (m : machine filter_globals) :
  well_formed m -> well_formed (after_tick ticks m).
Proof.
  intros []. unfold after_tick, output_of_tick, matvec.
  split; cbn; try assumption.
  - now rewrite length_map, length_seq.
  - now rewrite step_width.
  - destruct (transmits m); [assumption | apply wrap_range].
Qed.


(** *** Facts about [after_tick] *)

Lemma new_events_app {G} (m m' : machine G) (es : list event) :
  trace m' = trace m ++ es -> new_events m m' = es.
Proof. intros H. unfold new_events. rewrite H. apply drop_app_length. Qed.

Lemma new_events_after_tick (ticks : Z) (m : machine filter_globals) :
  new_events m (after_tick ticks m)
  = (if exits ticks m then [Exit 0] else [])
    ++ (if transmits m
        then transmission_trace (interpacket_pause (g_filter (globals m)))
               (output_packets (keys (g_filter (globals m)))
                  (output_of_tick m))
        else []).
Proof. apply new_events_app. reflexivity. Qed.

Lemma packets_after_tick (ticks : Z) (m : machine filter_globals) :
  packets (new_events m (after_tick ticks m))
  = if transmits m
    then output_packets (keys (g_filter (globals m))) (output_of_tick m)
    else [].
Proof.
  rewrite new_events_after_tick. unfold packets. rewrite omap_app.
  fold (packets (if transmits m
        then transmission_trace (interpacket_pause (g_filter (globals m)))
               (output_packets (keys (g_filter (globals m)))
                  (output_of_tick m))
        else [])).
  destruct (exits ticks m), (transmits m); simpl;
    rewrite ?packets_transmission_trace; reflexivity.
Qed.

Lemma exits_after_tick (ticks : Z) (m : machine filter_globals) :
  existsb is_exit (new_events m (after_tick ticks m)) = exits ticks m.
Proof.
  rewrite new_events_after_tick, existsb_app.
  assert (Hno : forall pause pk,
             existsb is_exit (transmission_trace pause pk) = false).
  { intros pause pk. induction pk as [|kp pk IH]; [reflexivity|].
    simpl. exact IH. }
  destruct (exits ticks m), (transmits m); simpl; rewrite ?Hno; reflexivity.
Qed.

(** With a counter in [1, 2^32), the tick transmits exactly when the
    counter is 1. *)
Lemma transmits_iff (m : machine filter_globals) :
  1 <= delay_remaining (globals m) < modulus ->
  transmits m = (delay_remaining (globals m) =? 1).
Proof.
  intros Hd. unfold transmits.
  rewrite wrap_small by (unfold is_uint; lia).
  destruct (Z.eqb_spec (delay_remaining (globals m) - 1) 0),
           (Z.eqb_spec (delay_remaining (globals m)) 1); lia.
Qed.

(** *** Packets arriving between ticks *)

Lemma deliver_at (arrivals : list (Z * Z)) : forall m : machine filter_globals,
  deliver arrivals m
  = Some (tt, with_globals
                (fun g => set_g_input
                   (fold_left (fun f kp => input_filter_mcpl_rx f kp.1 kp.2)
                      arrivals (g_input g)) g) m).
Proof.
  induction arrivals as [|[key payload] rest IH]; intros m.
  - destruct m as [[? ? ?] ? ? ? ? ? ?]. reflexivity.
  - simpl. unfold bind, mcpl_callback, update. rewrite IH. reflexivity.
Qed.

Lemma fold_mcpl_rx_width `{!InputFilterWidth} (arrivals : list (Z * Z)) :
  forall f,
    length (input_vector
              (fold_left (fun f kp => input_filter_mcpl_rx f kp.1 kp.2)
                 arrivals f))
    = length (input_vector f).
Proof.
  induction arrivals as [|kp rest IH]; intros f; [reflexivity|].
  simpl. rewrite IH. apply mcpl_rx_width.
Qed.

Lemma delivered_well_formed `{!InputFilterWidth}
    (arrivals : list (Z * Z)) (m : machine filter_globals) :
  well_formed m ->
  well_formed (with_globals
                 (fun g => set_g_input
                    (fold_left (fun f kp => input_filter_mcpl_rx f kp.1 kp.2)
                       arrivals (g_input g)) g) m).
Proof.
  intros []. split; cbn; try assumption.
  now rewrite fold_mcpl_rx_width.
Qed.

(** *** The timer loop, one tick at a time *)

Lemma run_ticks_exited (t : Z) (arrivals : list (list (Z * Z)))
    (m : machine filter_globals) (code : Z) :
  exit_code m = Some code -> run_ticks t arrivals m = Some ([], m).
Proof.
  intros He. destruct arrivals; [reflexivity|].
  simpl. unfold bind at 1, get_exit_code at 1. now rewrite He.
Qed.

Lemma run_ticks_cons `{!InputFilterWidth} (t : Z) (pk : list (Z * Z))
    (rest : list (list (Z * Z))) (m : machine filter_globals) :
  well_formed m ->
  exit_code m = None ->
  run_ticks t (pk :: rest) m
  = let m0 := with_globals
                (fun g => set_g_input
                   (fold_left (fun f kp => input_filter_mcpl_rx f kp.1 kp.2)
                      pk (g_input g)) g) m in
    let m1 := after_tick t m0 in
    match run_ticks (wrap (t + 1)) rest m1 with
    | Some (more, m') =>
        Some (TickReport t (packets (new_events m0 m1))
                (output (g_filter (globals m1))) :: more, m')
    | None => None
    end.
Proof.
  intros Hwf He. simpl.
  unfold bind at 1, get_exit_code at 1. rewrite He.
  rewrite (bind_Some _ _ _ _ _ (deliver_at pk m)).
  unfold bind at 1, get_trace at 1.
  rewrite (bind_Some _ _ _ _ _
             (filter_update_after_tick t 0 _ (delivered_well_formed pk m Hwf))).
  unfold bind at 1, get_trace at 1. unfold bind at 1, read at 1.
  unfold bind at 1.
  destruct (run_ticks (wrap (t + 1)) rest _) as [[more m']|]; reflexivity.
Qed.


(** *** The claims about [filter_update] *)

(** C2. Each invocation of [filter_update] sets [output[j]], for every
    output dimension [j < size_out], to the fixed-point sum over [k] of
    [transform[j*size_in+k] * input[k]], taken from zero, where [input] is
    the current filtered input vector (the one the input filter holds
    after this tick's step); the transform is left as it was. *)
Theorem filter_update_matvec `{!InputFilterWidth}
    (ticks arg1 : Z) (m : machine filter_globals) :
  well_formed m ->
  exists m',
    filter_update ticks arg1 m = Some (tt, m')
    /\ transform (g_filter (globals m')) = transform (g_filter (globals m))
    /\ length (output (g_filter (globals m')))
       = Z.to_nat (size_out (g_filter (globals m)))
    /\ forall j : nat,
         (j < Z.to_nat (size_out (g_filter (globals m))))%nat ->
         output (g_filter (globals m')) !! j
         = Some (matvec_row (transform (g_filter (globals m)))
                   (input_vector (g_input (globals m')))
                   (Z.to_nat (size_in (g_filter (globals m)))) j).
Proof.
  intros Hwf. exists (after_tick ticks m).
  split; [now apply filter_update_after_tick|].
  split; [reflexivity|].
  cbn. unfold output_of_tick, matvec.
  split; [now rewrite length_map, length_seq|].
  intros j Hj. rewrite list_lookup_fmap, lookup_seq_lt by assumption.
  reflexivity.
Qed.

(** C8. [data_system] leaves [delay_remaining] equal to the configured
    transmission delay.  With a transmission delay of at least 1 and
    [delay_remaining] in [1, transmission_delay] before a call of
    [filter_update], it is in that interval after the call, too.  With a
    transmission delay of 0, hence [delay_remaining = 0], the call wraps
    [delay_remaining] to [2^32 - 1] and sends no packet. *)
Theorem delay_remaining_interval `{!InputFilterWidth}
    (ticks arg1 : Z) (m : machine filter_globals) :
  well_formed m ->
  (forall (addr : address_t) (m0 : machine filter_globals),
     exists ok m1,
       data_system addr m0 = Some (ok, m1)
       /\ transmission_delay (g_filter (globals m1)) = read_uint addr 3
       /\ delay_remaining (globals m1)
          = transmission_delay (g_filter (globals m1)))
  /\ exists m',
       filter_update ticks arg1 m = Some (tt, m')
       /\ transmission_delay (g_filter (globals m'))
          = transmission_delay (g_filter (globals m))
       /\ (1 <= transmission_delay (g_filter (globals m)) ->
           1 <= delay_remaining (globals m)
             <= transmission_delay (g_filter (globals m)) ->
           1 <= delay_remaining (globals m')
             <= transmission_delay (g_filter (globals m')))
       /\ (transmission_delay (g_filter (globals m)) = 0 ->
           delay_remaining (globals m) = 0 ->
           delay_remaining (globals m') = 2 ^ 32 - 1
           /\ packets (new_events m m') = []).
Proof.
  intros Hwf. split.
  - intros addr m0. unfold data_system.
    unfold bind, update, read, io_printf, emit. cbn.
    destruct (input_filter_initialise (g_input (globals m0)) (read_uint addr 0))
      as [[|] f']; cbn; eauto.
  - exists (after_tick ticks m).
    split; [now apply filter_update_after_tick|].
    split; [reflexivity|]. split.
    + intros Htd Hd. cbn.
      pose proof (wf_transmission_delay m Hwf) as Hu. unfold is_uint in Hu.
      rewrite transmits_iff by lia.
      destruct (Z.eqb_spec (delay_remaining (globals m)) 1); [lia|].
      rewrite wrap_small by (unfold is_uint; lia). lia.
    + intros Htd Hd. rewrite packets_after_tick. cbn.
      unfold transmits. rewrite Hd. split; reflexivity.
Qed.


(** *** The timer loop over many ticks *)

(** The position in the transmission cycle moves by one per tick. *)
Lemma cycle_step (N d : Z) (i : nat) :
  1 <= d <= N ->
  (Z.of_nat (S i) + 1 + (N - d)) mod N
  = (Z.of_nat i + 1 + (N - (if d =? 1 then N else d - 1))) mod N.
Proof.
  intros Hd. destruct (Z.eqb_spec d 1) as [->|Hne].
  - replace (Z.of_nat (S i) + 1 + (N - 1)) with (Z.of_nat i + 1 + 1 * N) by lia.
    rewrite Z_mod_plus_full. f_equal. lia.
  - f_equal. lia.
Qed.

Lemma cycle_start (N d : Z) :
  1 <= d <= N ->
  ((Z.of_nat 0 + 1 + (N - d)) mod N =? 0) = (d =? 1).
Proof.
  intros Hd. destruct (Z.eqb_spec d 1) as [->|Hne].
  - replace (Z.of_nat 0 + 1 + (N - 1)) with N by lia.
    rewrite Z_mod_same_full. reflexivity.
  - rewrite Z.mod_small by lia. apply Z.eqb_neq. lia.
Qed.

Lemma run_ticks_schedule `{!InputFilterWidth} (N : Z) (ks : list Z)
    (arrivals : list (list (Z * Z))) :
  1 <= N ->
  forall (t : Z) (m : machine filter_globals),
    well_formed m ->
    transmission_delay (g_filter (globals m)) = N ->
    keys (g_filter (globals m)) = ks ->
    1 <= delay_remaining (globals m) <= N ->
    exists reports m',
      run_ticks t arrivals m = Some (reports, m')
      /\ forall (i : nat) (r : tick_report),
           reports !! i = Some r ->
           sent r
           = (if (Z.of_nat i + 1 + (N - delay_remaining (globals m))) mod N =? 0
              then output_packets ks (output_after r)
              else [])
           /\ length (output_after r) = length ks.
Proof.
  intros HN. induction arrivals as [|pk rest IH]; intros t m Hwf Htd Hks Hd.
  - exists [], m. split; [reflexivity|]. intros i r Hr. discriminate Hr.
  - destruct (exit_code m) as [code|] eqn:He.
    { exists [], m. split; [now apply run_ticks_exited with (code := code)|].
      intros i r Hr. discriminate Hr. }
    rewrite (run_ticks_cons t pk rest m Hwf He). cbv zeta.
    set (m0 := with_globals _ m).
    assert (Hwf0 : well_formed m0) by now apply delivered_well_formed.
    assert (Hu : N < modulus).
    { pose proof (wf_transmission_delay m Hwf) as Hx.
      unfold is_uint in Hx. lia. }
    assert (Htr : transmits m0 = (delay_remaining (globals m) =? 1)).
    { rewrite transmits_iff; [reflexivity | cbn; lia]. }
    destruct (IH (wrap (t + 1)) (after_tick t m0)) as (more & m' & Hrun & Hmore).
    + now apply after_tick_well_formed.
    + exact Htd.
    + exact Hks.
    + cbn -[transmits]. rewrite Htr.
      destruct (Z.eqb_spec (delay_remaining (globals m)) 1); [cbn; lia|].
      cbn. rewrite wrap_small by (unfold is_uint; lia). lia.
    + rewrite Hrun. eexists _, m'. split; [reflexivity|].
      intros [|i] r Hr.
      * injection Hr as <-. cbn [sent output_after].
        rewrite packets_after_tick, cycle_start, Htr by lia.
        cbn [after_tick globals g_filter set_output output].
        replace (keys (g_filter (globals m0))) with ks by (symmetry; exact Hks).
        split; [reflexivity|].
        unfold output_of_tick, matvec. rewrite length_map, length_seq, <- Hks.
        symmetry. apply (wf_keys m0 Hwf0).
      * destruct (Hmore i r Hr) as [Hsent Hlen].
        split; [|exact Hlen].
        rewrite Hsent, cycle_step by lia.
        cbn -[transmits Z.modulo]. rewrite Htr.
        destruct (Z.eqb_spec (delay_remaining (globals m)) 1); cbn;
          rewrite ?Htd, ?wrap_small by (unfold is_uint; lia); reflexivity.
Qed.

(** With the sentinel, every tick is processed and none asks to exit. *)
Lemma run_ticks_endless `{!InputFilterWidth} (arrivals : list (list (Z * Z))) :
  forall (t : Z) (m : machine filter_globals),
    well_formed m ->
    simulation_ticks m = UINT32_MAX ->
    exit_code m = None ->
    exists reports m' es,
      run_ticks t arrivals m = Some (reports, m')
      /\ length reports = length arrivals
      /\ exit_code m' = None
      /\ trace m' = trace m ++ es
      /\ existsb is_exit es = false.
Proof.
  induction arrivals as [|pk rest IH]; intros t m Hwf Hsim He.
  - exists [], m, []. rewrite app_nil_r. auto.
  - rewrite (run_ticks_cons t pk rest m Hwf He). cbv zeta.
    set (m0 := with_globals _ m).
    assert (Hwf0 : well_formed m0) by now apply delivered_well_formed.
    assert (Hex : exits t m0 = false).
    { unfold exits. cbn. rewrite Hsim. reflexivity. }
    destruct (IH (wrap (t + 1)) (after_tick t m0))
      as (more & m' & es & Hrun & Hlen & He' & Htr & Hno).
    + now apply after_tick_well_formed.
    + exact Hsim.
    + cbn -[exits]. now rewrite Hex.
    + rewrite Hrun.
      exists (TickReport t (packets (new_events m0 (after_tick t m0)))
                (output (g_filter (globals (after_tick t m0)))) :: more),
             m', (new_events m0 (after_tick t m0) ++ es).
      split; [reflexivity|]. split; [simpl; lia|]. split; [exact He'|].
      split.
      * rewrite Htr, new_events_after_tick, app_assoc. reflexivity.
      * rewrite existsb_app, exits_after_tick, Hex, Hno. reflexivity.
Qed.




(** C3. With a transmission delay [N >= 1] and [delay_remaining]
    initialised to [N], whatever packets arrive and whatever the input
    filter does, the [i]-th invocation of [filter_update] (counting from
    1) sends exactly one packet per output dimension ([size_out] packets,
    the [d]-th with key [keys[d]] and payload [bitsk(output[d])]) when [N]
    divides [i], and no packet on the [N - 1] invocations in between; with
    the infinite-run sentinel every tick offered is processed. *)
Theorem transmission_every_nth_tick `{!InputFilterWidth} (N : Z)
    (t0 : Z) (arrivals : list (list (Z * Z))) (m : machine filter_globals) :
  well_formed m ->
  1 <= N ->
  transmission_delay (g_filter (globals m)) = N ->
  delay_remaining (globals m) = N ->
  exists reports m',
    run_ticks t0 arrivals m = Some (reports, m')
    /\ (forall (i : nat) (r : tick_report),
          reports !! i = Some r ->
          sent r = (if Z.of_nat (S i) mod N =? 0
                    then output_packets (keys (g_filter (globals m)))
                           (output_after r)
                    else [])
          /\ length (output_packets (keys (g_filter (globals m)))
                       (output_after r))
             = Z.to_nat (size_out (g_filter (globals m))))
    /\ (simulation_ticks m = UINT32_MAX -> exit_code m = None ->
        length reports = length arrivals).
Proof.
  intros Hwf HN Htd Hd.
  destruct (run_ticks_schedule N (keys (g_filter (globals m))) arrivals HN
              t0 m Hwf Htd eq_refl ltac:(lia))
    as (reports & m' & Hrun & Hsent).
  exists reports, m'. split; [exact Hrun|]. split.
  - intros i r Hr. destruct (Hsent i r Hr) as [Hs Hlen]. split.
    + rewrite Hs, Hd.
      replace (Z.of_nat i + 1 + (N - N)) with (Z.of_nat (S i)) by lia.
      reflexivity.
    + unfold output_packets.
      rewrite length_zip_with, length_map, Hlen, (wf_keys m Hwf). lia.
  - intros Hsim He.
    destruct (run_ticks_endless arrivals t0 m Hwf Hsim He)
      as (reports' & m'' & es & Hrun' & Hlen & _).
    rewrite Hrun in Hrun'. injection Hrun' as -> ->. exact Hlen.
Qed.


(** C10. With [simulation_ticks = UINT32_MAX], no invocation of
    [filter_update], whatever its tick number, calls [spin1_exit]; the
    timer loop processes every tick it is offered and never halts. *)
Theorem no_exit_with_sentinel `{!InputFilterWidth}
    (t0 : Z) (arrivals : list (list (Z * Z))) (m : machine filter_globals) :
  well_formed m ->
  simulation_ticks m = UINT32_MAX ->
  (forall ticks arg1 : Z,
     exists m',
       filter_update ticks arg1 m = Some (tt, m')
       /\ exit_code m' = exit_code m
       /\ existsb is_exit (new_events m m') = false)
  /\ (exit_code m = None ->
      exists reports m',
        run_ticks t0 arrivals m = Some (reports, m')
        /\ length reports = length arrivals
        /\ exit_code m' = None
        /\ existsb is_exit (new_events m m') = false).
Proof.
  intros Hwf Hsim. split.
  - intros ticks arg1.
    assert (Hex : exits ticks m = false).
    { unfold exits. rewrite Hsim. reflexivity. }
    exists (after_tick ticks m).
    split; [now apply filter_update_after_tick|].
    rewrite exits_after_tick. cbn -[exits]. rewrite Hex. auto.
  - intros He.
    destruct (run_ticks_endless arrivals t0 m Hwf Hsim He)
      as (reports & m' & es & Hrun & Hlen & He' & Htr & Hno).
    exists reports, m'. rewrite (new_events_app m m' es Htr). auto.
Qed.


(** *** Loading: what the loaders ask of the kernel *)

Lemma only_printed_refl {G} (m : machine G) : only_printed m m.
Proof. exists []. now rewrite app_nil_r. Qed.

Lemma only_printed_trans {G} (m1 m2 m3 : machine G) :
  only_printed m1 m2 -> only_printed m2 m3 -> only_printed m1 m3.
Proof.
  intros (es1 & H1 & P1) (es2 & H2 & P2). exists (es1 ++ es2).
  rewrite H2, H1, app_assoc, forallb_app, P1, P2. auto.
Qed.

Lemma diagnostic_ret {G A} (a : A) : diagnostic_only (@ret G A a).
Proof. intros m a' m' [= _ <-]. apply only_printed_refl. Qed.

Lemma diagnostic_undefined {G A} : diagnostic_only (@undefined G A).
Proof. intros m a m' H. discriminate H. Qed.

Lemma diagnostic_bind {G A B} (c : M G A) (k : A -> M G B) :
  diagnostic_only c -> (forall a, diagnostic_only (k a)) ->
  diagnostic_only (bind c k).
Proof.
  intros Hc Hk m b m2 H. unfold bind in H.
  destruct (c m) as [[a m1]|] eqn:Hcm; [|discriminate].
  eapply only_printed_trans; [eapply Hc | eapply Hk]; eassumption.
Qed.

Lemma diagnostic_read {G A} (f : G -> A) : diagnostic_only (read f).
Proof. intros m a m' [= _ <-]. apply only_printed_refl. Qed.

Lemma diagnostic_update {G} (f : G -> G) : diagnostic_only (update f).
Proof.
  intros m a m' H. injection H as _ <-. exists []. cbn.
  rewrite app_nil_r. auto.
Qed.

Lemma diagnostic_of_option {G A} (o : option A) :
  diagnostic_only (@of_option G A o).
Proof. destruct o; [apply diagnostic_ret | apply diagnostic_undefined]. Qed.

Lemma diagnostic_io_printf {G} (fmt : string) (args : list Z) :
  diagnostic_only (@io_printf G fmt args).
Proof.
  intros m a m' H. injection H as _ <-. exists [IoPrintf fmt args]. auto.
Qed.

Lemma diagnostic_spin1_malloc {G} (bytes : Z) :
  diagnostic_only (@spin1_malloc G bytes).
Proof.
  intros m a m' H. unfold spin1_malloc in H.
  destruct (bytes <=? heap_free m); injection H as _ <-.
  - exists []. cbn. rewrite app_nil_r. auto.
  - apply only_printed_refl.
Qed.

Lemma diagnostic_for_from {G} (body : Z -> M G unit) :
  (forall k, diagnostic_only (body k)) ->
  forall c i, diagnostic_only (for_from i c body).
Proof.
  intros Hb. induction c as [|c IH]; intros i.
  - apply diagnostic_ret.
  - simpl. apply diagnostic_bind; [apply Hb | intros _; apply IH].
Qed.

Lemma diagnostic_for_uint {G} (n : Z) (body : Z -> M G unit) :
  (forall k, diagnostic_only (body k)) -> diagnostic_only (for_uint n body).
Proof. intros Hb. unfold for_uint. apply diagnostic_for_from. exact Hb. Qed.

Create HintDb diagnostic.
#[local] Hint Resolve diagnostic_ret diagnostic_undefined diagnostic_read
  diagnostic_update diagnostic_of_option diagnostic_io_printf
  diagnostic_spin1_malloc : diagnostic.

Ltac diagnostic :=
  repeat first
    [ progress auto with diagnostic
    | apply diagnostic_bind; [|intros ?]
    | apply diagnostic_for_uint; intros ?
    | match goal with
      | |- diagnostic_only (if ?b then _ else _) => destruct b
      | |- diagnostic_only (match ?p with NULL => _ | InputBuffer => _ end) =>
          destruct p
      | |- diagnostic_only (let '(_, _) := ?p in _) => destruct p
      end ].

Lemma diagnostic_data_system (a : address_t) : diagnostic_only (data_system a).
Proof. unfold data_system. diagnostic. Qed.

Lemma diagnostic_data_get_output_keys (a : address_t) :
  diagnostic_only (data_get_output_keys a).
Proof.
  unfold data_get_output_keys, MALLOC_FAIL_FALSE, load_keys. diagnostic.
Qed.

Lemma diagnostic_data_get_transform (a : address_t) :
  diagnostic_only (data_get_transform a).
Proof.
  unfold data_get_transform, MALLOC_FAIL_FALSE, load_transform. diagnostic.
Qed.

Lemma diagnostic_on_g_input (f : input_filter_t -> bool * input_filter_t) :
  diagnostic_only (on_g_input f).
Proof. unfold on_g_input. diagnostic. Qed.

Lemma diagnostic_loader (n : Z) (a : address_t) : diagnostic_only (loader n a).
Proof.
  unfold loader.
  repeat match goal with
         | |- diagnostic_only (match ?x with _ => _ end) => destruct x
         end;
    auto using diagnostic_data_system, diagnostic_data_get_output_keys,
      diagnostic_data_get_transform, diagnostic_on_g_input.
Qed.


(** *** [c_main]: loading in order, and the failure path *)

Lemma printed_is_silent (es : list event) :
  forallb is_printf es = true ->
  regions es = [] /\ existsb is_run_event es = false /\ packets es = [].
Proof.
  induction es as [|e es IH]; [auto|].
  simpl. intros [He Hes]%andb_prop. destruct (IH Hes) as (Hr & Hx & Hp).
  destruct e; try discriminate He. cbn. auto.
Qed.

Lemma load_step_trace (address : Z -> address_t) (n : Z)
    (m : machine filter_globals) (ok : bool) (m1 : machine filter_globals) :
  (a <- region_start n address ;; loader n a)%K m = Some (ok, m1) ->
  exists es, trace m1 = trace m ++ RegionStart n :: es
             /\ forallb is_printf es = true.
Proof.
  intros H. unfold bind at 1 in H. cbn in H.
  destruct (diagnostic_loader n (address n) _ _ _ H) as (es & Htr & Hes).
  exists es. split; [|exact Hes].
  rewrite Htr. cbn. now rewrite <- app_assoc.
Qed.

Lemma loaded_trace (address : Z -> address_t) (ns : list Z)
    (m : machine filter_globals) (ok : bool) (m1 : machine filter_globals) :
  loaded address ns m ok m1 ->
  exists (k : nat) (es : list event),
    trace m1 = trace m ++ es
    /\ regions es = take k ns
    /\ (if ok then k = length ns else (1 <= k <= length ns)%nat)
    /\ existsb is_run_event es = false
    /\ packets es = [].
Proof.
  induction 1 as [m | n rest m m1 Hstep | n rest m m1 ok m2 Hstep Hrest IH].
  - exists 0%nat, []. rewrite app_nil_r. auto.
  - destruct (load_step_trace _ _ _ _ _ Hstep) as (es & Htr & Hes).
    destruct (printed_is_silent es Hes) as (Hr & Hx & Hp).
    exists 1%nat, (RegionStart n :: es). split; [exact Htr|].
    cbn. unfold regions, packets in *. rewrite Hr, Hx, Hp, take_0.
    repeat split; lia.
  - destruct (load_step_trace _ _ _ _ _ Hstep) as (es & Htr & Hes).
    destruct (printed_is_silent es Hes) as (Hr & Hx & Hp).
    destruct IH as (k & es' & Htr' & Hr' & Hk & Hx' & Hp').
    exists (S k), ((RegionStart n :: es) ++ es'). split.
    { rewrite Htr', Htr, <- app_assoc. reflexivity. }
    unfold regions, packets in *.
    rewrite !omap_app, existsb_app. cbn. rewrite Hr, Hp, Hr', Hp', Hx, Hx'.
    repeat split. destruct ok; lia.
Qed.

Lemma not_or_failed {G} (a b : M G bool) (m m1 : machine G) :
  a m = Some (false, m1) -> not_or a b m = Some (true, m1).
Proof. intros H. unfold not_or, bind. now rewrite H. Qed.

Lemma not_or_passed {G} (a b : M G bool) (m m1 : machine G) :
  a m = Some (true, m1) -> not_or a b m = b m1.
Proof. intros H. unfold not_or, bind. now rewrite H. Qed.

Lemma not_last {G} (a : M G bool) (m m1 : machine G) (ok : bool) :
  a m = Some (ok, m1) -> not_ a m = Some (negb ok, m1).
Proof. intros H. unfold not_, bind. now rewrite H. Qed.

(** [c_main] loads as [loaded] says, then reports the failure or starts. *)
Lemma c_main_of_loaded (m : machine filter_globals) (ok : bool)
    (m1 : machine filter_globals) :
  loaded (sram m) [1; 2; 3; 4; 5] m ok m1 ->
  c_main m
  = (if ok
     then
       lead <- get_leadAp ;;
       (if lead then system_lead_app_configured else ret tt) ;;
       dt <- read (fun g => machine_timestep (g_filter g)) ;;
       spin1_set_timer_tick dt ;;
       spin1_callback_on MCPL_PACKET_RECEIVED "mcpl_callback" (-1) ;;
       spin1_callback_on TIMER_TICK "filter_update" 2 ;;
       spin1_start
     else io_printf "[Filter] Failed to initialise.\n" [])%K m1.
Proof.
  intros H. unfold c_main. unfold bind at 1, system_load_sram at 1.
  cbv beta iota.
  inversion H as [ | ? ? ? ? S1 | ? ? ? mA ? ? S1 H2 ]; subst.
  { unfold bind at 1. now rewrite (not_or_failed _ _ _ _ S1). }
  inversion H2 as [ | ? ? ? ? S2 | ? ? ? mB ? ? S2 H3 ]; subst.
  { unfold bind at 1.
    now rewrite (not_or_passed _ _ _ _ S1), (not_or_failed _ _ _ _ S2). }
  inversion H3 as [ | ? ? ? ? S3 | ? ? ? mC ? ? S3 H4 ]; subst.
  { unfold bind at 1.
    now rewrite (not_or_passed _ _ _ _ S1), (not_or_passed _ _ _ _ S2),
      (not_or_failed _ _ _ _ S3). }
  inversion H4 as [ | ? ? ? ? S4 | ? ? ? mD ? ? S4 H5 ]; subst.
  { unfold bind at 1.
    now rewrite (not_or_passed _ _ _ _ S1), (not_or_passed _ _ _ _ S2),
      (not_or_passed _ _ _ _ S3), (not_or_failed _ _ _ _ S4). }
  unfold bind at 1.
  rewrite (not_or_passed _ _ _ _ S1), (not_or_passed _ _ _ _ S2),
    (not_or_passed _ _ _ _ S3), (not_or_passed _ _ _ _ S4).
  inversion H5 as [ | ? ? ? ? S5 | ? ? ? mE ? ? S5 H6 ]; subst.
  { now rewrite (not_last
                   (a <- region_start 5 (sram m) ;; data_get_transform a)%K
                   _ _ _ S5). }
  inversion H6; subst.
  now rewrite (not_last
                 (a <- region_start 5 (sram m) ;; data_get_transform a)%K
                 _ _ _ S5).
Qed.

(** C5. At boot the five sub-regions are taken in the order 1, 2, 3, 4, 5,
    each with its loader, up to the first loader that returns [false].
    When all five succeed, [c_main] goes on to [spin1_start]; when one
    fails, the later loaders are not run, [c_main] logs the failure
    message and returns: no timer period, no callback, no [spin1_start],
    no packet. *)
Theorem c_main_aborts_on_load_failure (m : machine filter_globals)
    (ok : bool) (m1 : machine filter_globals) :
  loaded (sram m) [1; 2; 3; 4; 5] m ok m1 ->
  exists (m' : machine filter_globals) (k : nat),
    c_main m = Some (tt, m')
    /\ regions (new_events m m') = take k [1; 2; 3; 4; 5]
    /\ (ok = true ->
        k = 5%nat /\ existsb is_start (new_events m m') = true)
    /\ (ok = false ->
        (1 <= k <= 5)%nat
        /\ m' = with_events [IoPrintf "[Filter] Failed to initialise.\n" []] m1
        /\ existsb is_run_event (new_events m m') = false
        /\ packets (new_events m m') = []).
Proof.
  intros H. rewrite (c_main_of_loaded m ok m1 H).
  destruct (loaded_trace _ _ _ _ _ H) as (k & es & Htr & Hr & Hk & Hx & Hp).
  unfold regions, packets in *.
  destruct ok.
  - unfold bind at 1, get_leadAp at 1. cbv beta iota.
    destruct (leadAp m1);
      (eexists _, k; split; [reflexivity|]; cbn;
       erewrite (new_events_app m)
         by (cbn; rewrite Htr, <- !app_assoc; reflexivity);
       rewrite omap_app, existsb_app, Hr; cbn; rewrite app_nil_r;
       split; [reflexivity|]; split; [|discriminate];
       intros _; split; [exact Hk|]; apply orb_true_r).
  - eexists _, k. split; [reflexivity|].
    erewrite (new_events_app m)
      by (cbn; rewrite Htr, <- app_assoc; reflexivity).
    rewrite !omap_app, !existsb_app, Hr, Hx, Hp. cbn. rewrite app_nil_r.
    split; [reflexivity|]. split; [discriminate|].
    intros _. auto.
Qed.

End FilterFacts.

(** ** The claims at concrete machines *)

Section FilterExamples.
Import Word Kernel Filter.

Lemma plain_input_filter_width : @InputFilterWidth plain_input_filter.
Proof.
  split; simpl.
  - intros f n f' [= <-]. apply length_replicate.
  - reflexivity.
  - reflexivity.
  - intros f k p. apply length_insert.
  - reflexivity.
Qed.

Lemma example_machine_well_formed (n sim : Z) :
  is_uint n -> @well_formed plain_input_filter (example_machine n sim).
Proof.
  intros Hn. split; simpl; try reflexivity; try assumption;
    unfold is_uint, modulus; lia.
Qed.

Lemma filter_update_matvec_witness :
  exists m',
    @filter_update accum_arith plain_input_filter 1 0 (example_machine 1 5)
    = Some (tt, m')
    /\ output (g_filter (globals m')) !! 0%nat = Some 65536.
Proof.
  destruct (@filter_update_matvec accum_arith plain_input_filter
              plain_input_filter_width 1 0 (example_machine 1 5))
    as (m' & Hrun & _ & _ & Hout).
  - apply example_machine_well_formed. unfold is_uint, modulus. lia.
  - exists m'. split; [exact Hrun|].
    rewrite (Hout 0%nat) by (simpl; lia).
    assert (Hin : input_vector (g_input (globals m')) = [98304; 32768]).
    { vm_compute in Hrun. injection Hrun as <-. reflexivity. }
    rewrite Hin. vm_compute. reflexivity.
Defined.

Lemma delay_remaining_interval_witness :
  exists m',
    @filter_update accum_arith plain_input_filter 1 0 (example_machine 0 5)
    = Some (tt, m')
    /\ delay_remaining (globals m') = 2 ^ 32 - 1
    /\ packets (new_events (example_machine 0 5) m') = [].
Proof.
  destruct (@delay_remaining_interval accum_arith plain_input_filter
              plain_input_filter_width 1 0 (example_machine 0 5))
    as (_ & m' & Hrun & _ & _ & Hzero).
  - apply example_machine_well_formed. unfold is_uint, modulus. lia.
  - exists m'. split; [exact Hrun|]. apply Hzero; reflexivity.
Defined.

Lemma transmission_every_nth_tick_witness :
  exists reports m',
    @run_ticks accum_arith plain_input_filter 1
      [[]; [(0, 32768)]; []; []; []] (example_machine 2 UINT32_MAX)
    = Some (reports, m')
    /\ map sent reports = [[]; [(7, 0)]; []; [(7, 0)]; []].
Proof.
  destruct (@transmission_every_nth_tick accum_arith plain_input_filter
              plain_input_filter_width 2 1 [[]; [(0, 32768)]; []; []; []]
              (example_machine 2 UINT32_MAX))
    as (reports & m' & Hrun & _ & _).
  - apply example_machine_well_formed. unfold is_uint, modulus. lia.
  - lia.
  - reflexivity.
  - reflexivity.
  - exists reports, m'. split; [exact Hrun|].
    vm_compute in Hrun. injection Hrun as <- _. reflexivity.
Defined.


Lemma no_exit_with_sentinel_witness :
  exists reports m',
    @run_ticks accum_arith plain_input_filter 4294967294
      [[]; []; []] (example_machine 1 UINT32_MAX)
    = Some (reports, m')
    /\ length reports = 3%nat
    /\ exit_code m' = None.
Proof.
  destruct (@no_exit_with_sentinel accum_arith plain_input_filter
              plain_input_filter_width 4294967294 [[]; []; []]
              (example_machine 1 UINT32_MAX))
    as (_ & Hloop).
  - apply example_machine_well_formed. unfold is_uint, modulus. lia.
  - reflexivity.
  - destruct Hloop as (reports & m' & Hrun & Hlen & He & _); [reflexivity|].
    exists reports, m'. auto.
Defined.

Lemma c_main_aborts_on_load_failure_witness :
  exists m',
    @c_main plain_input_filter (booting_machine 0) = Some (tt, m')
    /\ regions (new_events (booting_machine 0) m') = [1; 2]
    /\ existsb is_run_event (new_events (booting_machine 0) m') = false
    /\ packets (new_events (booting_machine 0) m') = [].
Proof.
  assert (Hload : exists m1,
            @loaded plain_input_filter (sram (booting_machine 0))
              [1; 2; 3; 4; 5] (booting_machine 0) false m1).
  { eexists. eapply loaded_next; [reflexivity|].
    eapply loaded_failure. reflexivity. }
  destruct Hload as (m1 & Hload).
  destruct (@c_main_aborts_on_load_failure plain_input_filter
              (booting_machine 0) false m1 Hload)
    as (m' & k & Hrun & Hreg & _ & Hfail).
  destruct (Hfail eq_refl) as (Hk & Hm' & Hquiet & Hpk).
  exists m'. split; [exact Hrun|]. split; [|split; assumption].
  vm_compute in Hrun. injection Hrun as <-. reflexivity.
Defined.

End FilterExamples.

(** * Further properties of the code *)

(** ** The packed neuron word: ranges, frame, edge cases *)

Section PackedWordFacts.
Import Word Ensemble.

(** X1. Whatever the word holds, the counter read by [neuron_refractory]
    is below 16 and the voltage read by [neuron_voltage] is in
    [0, 2^28): the mask clears the sign bit, so no negative voltage is
    ever read. *)
Theorem neuron_fields_range (n : Z) (g : globals) (c x : Z) :
  (neuron_refractory n g = Some c -> 0 <= c < 16)
  /\ (neuron_voltage n g = Some x -> 0 <= x < 2 ^ 28).
Proof.
  unfold neuron_refractory, neuron_voltage.
  destruct (load_word n g) as [w|]; simpl; split; intros [= <-].
  - rewrite shiftr_counter_mask. apply Z.mod_pos_bound. lia.
  - rewrite land_voltage_mask.
    pose proof (Z.mod_pos_bound w (2 ^ 28) ltac:(lia)) as Hb.
    unfold kbits, modulus. rewrite Z.mod_small by lia.
    destruct (Z.ltb_spec (w mod 2 ^ 28) (2 ^ 31)); lia.
Qed.

Lemma neuron_fields_range_witness :
  neuron_refractory 0 {| t_ref := 0; v_ref_voltage := [0xffffffff] |} = Some 15
  /\ neuron_voltage 0 {| t_ref := 0; v_ref_voltage := [0xffffffff] |}
     = Some 0x0fffffff
  /\ 0 <= 15 < 16 /\ 0 <= 0x0fffffff < 2 ^ 28.
Proof.
  split; [reflexivity|]. split; [reflexivity|].
  destruct (neuron_fields_range 0
              {| t_ref := 0; v_ref_voltage := [0xffffffff] |} 15 0x0fffffff)
    as [Hc Hx].
  split; [apply Hc | apply Hx]; reflexivity.
Defined.

(** X2. What [set_neuron_voltage] keeps of a voltage: for every [accum]
    [v] the voltage read back is [v mod 2^28]; it is [v] exactly when
    [0 <= v < 2^28], so every negative voltage is read back as a
    different, non-negative one. *)
Theorem set_neuron_voltage_readback (n v : Z) (g : globals) (w : Z) :
  load_word n g = Some w ->
  is_accum v ->
  exists g',
    set_neuron_voltage n v g = Some g'
    /\ neuron_voltage n g' = Some (v mod 2 ^ 28)
    /\ (neuron_voltage n g' = Some v <-> 0 <= v < 2 ^ 28).
Proof.
  intros Hw Hv. eexists. split.
  { unfold set_neuron_voltage. rewrite Hw. simpl.
    now apply store_word_Some with (w := w). }
  assert (Hread : forall x,
            neuron_voltage n
              (set_v_ref_voltage
                 (<[Z.to_nat n := Z.lor (Z.land w 0xf0000000)
                                    (Z.land (bitsk v) 0x0fffffff)]>
                    (v_ref_voltage g)) g) = Some x
            <-> x = v mod 2 ^ 28).
  { intros x. unfold neuron_voltage.
    rewrite (load_after_store _ _ _ _ Hw). simpl.
    rewrite voltage_of_packed, land_voltage_mask.
    assert (Hmod : bitsk v mod 2 ^ 28 = v mod 2 ^ 28).
    { unfold bitsk, modulus. Z.div_mod_to_equations. lia. }
    rewrite Hmod.
    pose proof (Z.mod_pos_bound v (2 ^ 28) ltac:(lia)) as Hb.
    unfold kbits, modulus. rewrite (Z.mod_small (v mod 2 ^ 28)) by lia.
    destruct (Z.ltb_spec (v mod 2 ^ 28) (2 ^ 31)); [|lia].
    split; [intros [= <-]; reflexivity | intros ->; reflexivity]. }
  split; [now apply Hread|].
  rewrite Hread.
  pose proof (Z.mod_pos_bound v (2 ^ 28) ltac:(lia)) as Hb.
  split.
  - intros ->. exact Hb.
  - intros Hr. symmetry. apply Z.mod_small. exact Hr.
Qed.

Lemma set_neuron_voltage_readback_witness :
  exists g',
    set_neuron_voltage 0 (-1) {| t_ref := 0; v_ref_voltage := [0] |} = Some g'
    /\ neuron_voltage 0 g' = Some 0x0fffffff.
Proof.
  destruct (set_neuron_voltage_readback 0 (-1)
              {| t_ref := 0; v_ref_voltage := [0] |} 0)
    as (g' & Hset & Hread & _).
  - reflexivity.
  - unfold is_accum. lia.
  - exists g'. split; [exact Hset|]. rewrite Hread. reflexivity.
Defined.

Lemma store_word_frame n x g g' :
  store_word n x g = Some g' ->
  t_ref g' = t_ref g
  /\ length (v_ref_voltage g') = length (v_ref_voltage g)
  /\ forall n', Z.to_nat n' <> Z.to_nat n -> load_word n' g' = load_word n' g.
Proof.
  unfold store_word. destruct (decide _); [|discriminate].
  intros [= <-]. simpl. split; [reflexivity|].
  split; [apply length_insert|].
  intros n' Hne. unfold load_word. simpl.
  apply list_lookup_insert_ne. congruence.
Qed.

(** X3. The three writers work on one word: after
    [set_neuron_voltage(n, v)], [set_neuron_refractory(n)] or
    [decrement_neuron_refractory(n)], [t_ref] and the size of the array
    are as before, and the voltage and the counter of every other neuron
    are unchanged. *)
Theorem neuron_writers_frame (n v : Z) (g g' : globals) :
  set_neuron_voltage n v g = Some g'
  \/ set_neuron_refractory n g = Some g'
  \/ decrement_neuron_refractory n g = Some g' ->
  t_ref g' = t_ref g
  /\ length (v_ref_voltage g') = length (v_ref_voltage g)
  /\ forall n', Z.to_nat n' <> Z.to_nat n ->
       neuron_voltage n' g' = neuron_voltage n' g
       /\ neuron_refractory n' g' = neuron_refractory n' g.
Proof.
  intros H.
  assert (Hst : exists x, store_word n x g = Some g').
  { destruct H as [H|[H|H]].
    - unfold set_neuron_voltage in H.
      destruct (load_word n g); [|discriminate]. simpl in H. eauto.
    - unfold set_neuron_refractory in H. eauto.
    - unfold decrement_neuron_refractory in H.
      destruct (load_word n g); [|discriminate]. simpl in H. eauto. }
  destruct Hst as (x & Hst).
  destruct (store_word_frame _ _ _ _ Hst) as (Ht & Hl & Ho).
  split; [exact Ht|]. split; [exact Hl|].
  intros n' Hne. unfold neuron_voltage, neuron_refractory.
  rewrite (Ho n' Hne). auto.
Qed.

Lemma neuron_writers_frame_witness :
  exists g',
    decrement_neuron_refractory 1
      {| t_ref := 0; v_ref_voltage := [0x20000007; 0x10000000] |} = Some g'
    /\ neuron_refractory 0 g' = Some 2 /\ neuron_voltage 0 g' = Some 7.
Proof.
  eexists. split; [reflexivity|].
  destruct (neuron_writers_frame 1 0
              {| t_ref := 0; v_ref_voltage := [0x20000007; 0x10000000] |}
              _ (or_intror (or_intror eq_refl))) as (_ & _ & Hother).
  destruct (Hother 0) as [Hv Hc]; [discriminate|].
  rewrite Hv, Hc. split; reflexivity.
Defined.

(** X4. [decrement_neuron_refractory] does not test the counter: on a
    neuron whose counter is 0 the unsigned subtraction wraps, the counter
    becomes 15 and the voltage bits stay. *)
Theorem decrement_at_zero_wraps (n : Z) (g : globals) (w : Z) :
  load_word n g = Some w ->
  is_uint w ->
  neuron_refractory n g = Some 0 ->
  exists g',
    decrement_neuron_refractory n g = Some g'
    /\ neuron_refractory n g' = Some 15
    /\ voltage_bits n g' = voltage_bits n g.
Proof.
  intros Hw Hu Hc.
  unfold neuron_refractory in Hc. rewrite Hw in Hc. simpl in Hc.
  rewrite shiftr_counter_mask in Hc. injection Hc as Hc.
  eexists. split.
  { unfold decrement_neuron_refractory. rewrite Hw. simpl.
    now apply store_word_Some with (w := w). }
  unfold neuron_refractory, voltage_bits.
  rewrite (load_after_store _ _ _ _ Hw), Hw. simpl.
  rewrite shiftr_counter_mask, !land_voltage_mask.
  unfold is_uint, wrap, modulus in *.
  assert (Hlt : w < 2 ^ 28) by (Z.div_mod_to_equations; lia).
  replace ((w - 0x10000000) mod 2 ^ 32) with (w + 0xf0000000)
    by (Z.div_mod_to_equations; lia).
  split; f_equal; Z.div_mod_to_equations; lia.
Qed.

Lemma decrement_at_zero_wraps_witness :
  exists g',
    decrement_neuron_refractory 0 {| t_ref := 0; v_ref_voltage := [9] |}
    = Some g'
    /\ neuron_refractory 0 g' = Some 15
    /\ voltage_bits 0 g' = Some 9.
Proof.
  destruct (decrement_at_zero_wraps 0 {| t_ref := 0; v_ref_voltage := [9] |} 9)
    as (g' & Hdec & Hc & Hv).
  - reflexivity.
  - unfold is_uint, modulus. lia.
  - reflexivity.
  - exists g'. split; [exact Hdec|]. split; [exact Hc|].
    rewrite Hv. reflexivity.
Defined.

End PackedWordFacts.

(** ** The ensemble's [c_main]: every way it can end *)

Section EnsembleBootFacts.
Import Word Kernel EnsembleMain EnsembleBoot.
Context {G : Type}.

(** The loop rule for what holds once the loop has returned. *)
Lemma for_from_post (body : Z -> M G unit) (I : machine G -> Prop) :
  (forall k mk mk', I mk -> body k mk = Some (tt, mk') -> I mk') ->
  forall (c i : nat) (m m' : machine G),
    I m -> for_from i c body m = Some (tt, m') -> I m'.
Proof.
  intros Hbody. induction c as [|c IH]; intros i m m' Hi Hrun.
  - injection Hrun as <-. exact Hi.
  - simpl in Hrun. unfold bind in Hrun.
    destruct (body (Z.of_nat i) m) as [[[] m1]|] eqn:Hb; [|discriminate].
    eapply IH; [|exact Hrun]. eapply Hbody; eassumption.
Qed.

Lemma with_events_events (es1 es2 : list event) (m : machine G) :
  with_events es2 (with_events es1 m) = with_events (es1 ++ es2) m.
Proof. unfold with_events. simpl. now rewrite app_assoc. Qed.

(** The loop over the inhibitory gains only prints. *)
Lemma gains_loop_prints (L : library G) (n : Z) (m m' : machine G) :
  for_uint n (fun i =>
      bind (read (inhib_gain L)) (fun gains =>
      bind (of_option (gains !! Z.to_nat i)) (fun x =>
      io_printf "Inhib gain[%d] = %k\n" [i; x]))) m = Some (tt, m') ->
  exists es, m' = with_events es m /\ forallb is_printf es = true.
Proof.
  unfold for_uint.
  apply (for_from_post _
           (fun mk => exists es, mk = with_events es m
                                 /\ forallb is_printf es = true)).
  - intros k mk mk' (es & -> & Hes) Hb.
    unfold bind, read in Hb. cbn in Hb.
    destruct (inhib_gain L (globals m) !! Z.to_nat k) as [x|];
      [|discriminate].
    cbn in Hb. injection Hb as <-.
    exists (es ++ [IoPrintf "Inhib gain[%d] = %k\n" [k; x]]).
    split; [apply with_events_events|].
    rewrite forallb_app, Hes. reflexivity.
  - exists []. split; [|reflexivity].
    destruct m. unfold with_events. simpl. now rewrite app_nil_r.
Qed.

Lemma call_eq (f : G -> bool * G) (m : machine G) :
  call f m
  = Some ((f (globals m)).1,
          Machine (f (globals m)).2 (sram m) (leadAp m) (simulation_ticks m)
            (heap_free m) (exit_code m) (trace m)).
Proof. unfold call. now destruct (f (globals m)). Qed.

Ltac run_call H :=
  repeat (cbn [globals sram leadAp simulation_ticks heap_free exit_code trace
               with_events negb app] in H;
          cbv beta iota in H;
          try rewrite call_eq in H).

Ltac end_at H s gains :=
  injection H as <-; exists s, gains;
  split; [first [assumption | reflexivity]|];
  split;
  [ unfold new_events; cbn [trace with_events];
    rewrite <- ?app_assoc; rewrite drop_app_length; reflexivity
  | ].

Ltac run_terms :=
  unfold stop_reason, gains_loaded, loaders_passed, pes_result, record_result,
    gains_bytes;
  cbn [loader_result subcomponent_loader Nat.sub];
  unfold globals_with_gains, gains_bytes, globals_after_data, system_result;
  cbv zeta.

Ltac passed :=
  let j := fresh "j" in
  let Hj := fresh "Hj" in
  intros j Hj;
  destruct j as [|[|[|[|[|[|[|j]]]]]]]; try lia;
  cbn [loader_result subcomponent_loader];
  unfold globals_with_gains, gains_bytes, globals_after_data, system_result;
  cbv zeta; assumption.

Ltac filter_reason :=
  run_terms;
  repeat match goal with
         | |- _ /\ _ => split
         | |- (_ <= _)%nat => lia
         | |- forall _, _ => passed
         | |- _ => assumption
         end.

(** A run of [c_main] that returns has made the kernel calls of one of the
    six places, and the checked steps have returned, on the globals of
    the run, what leads there. *)
Lemma c_main_ends (L : library G) (m m' : machine G) :
  c_main L m = Some (tt, m') ->
  exists (s : stop) (gains : list event),
    forallb is_printf gains = true
    /\ new_events m m'
       = boot_events s gains (leadAp m) (machine_timestep L (globals m'))
    /\ stop_reason L m s.
Proof.
  intros H.
  unfold c_main, load_inhib_gain, load_subcomponents, configure_and_start,
    failed_to_start, not_or, not_ in H.
  unfold io_printf, region_start, system_load_sram, get_simulation_ticks,
    get_leadAp, system_lead_app_configured, spin1_set_timer_tick,
    spin1_start, spin1_malloc in H.
  unfold emit, ret, read, update in H. unfold bind in H.
  run_call H.
  destruct ((data_system L (sram m 1) (globals m)).1) eqn:E1; run_call H.
  2:{ end_at H StopSystem (@nil event). exact E1. }
  match type of H with
  | context [wrap (n_neurons L ?g * 4) <=? heap_free m] =>
      destruct (Z.leb_spec (wrap (n_neurons L g * 4)) (heap_free m))
        as [Hfit|Hfull]
  end; run_call H.
  2:{ end_at H StopMalloc (@nil event). filter_reason. }
  match type of H with
  | context [for_uint ?n ?body ?m0] =>
      destruct (for_uint n body m0) as [[[] mL]|] eqn:Hloop; [|discriminate]
  end.
  apply gains_loop_prints in Hloop. destruct Hloop as (gains & -> & Hgains).
  run_call H.
  (* the six filter and route loaders, left to right *)
  match type of H with context [(input_filter_get_filters L g_input ?a ?g).1] =>
    destruct ((input_filter_get_filters L g_input a g).1) eqn:F1 end;
    run_call H; [|end_at H (StopFilter 1) gains; filter_reason].
  match type of H with
    context [(input_filter_get_filter_routes L g_input ?a ?g).1] =>
    destruct ((input_filter_get_filter_routes L g_input a g).1) eqn:F2 end;
    run_call H; [|end_at H (StopFilter 2) gains; filter_reason].
  match type of H with
    context [(input_filter_get_filters L g_input_inhibitory ?a ?g).1] =>
    destruct ((input_filter_get_filters L g_input_inhibitory a g).1) eqn:F3
  end;
    run_call H; [|end_at H (StopFilter 3) gains; filter_reason].
  match type of H with
    context [(input_filter_get_filter_routes L g_input_inhibitory ?a ?g).1] =>
    destruct ((input_filter_get_filter_routes L g_input_inhibitory a g).1)
      eqn:F4
  end;
    run_call H; [|end_at H (StopFilter 4) gains; filter_reason].
  match type of H with
    context [(input_filter_get_filters L g_input_modulatory ?a ?g).1] =>
    destruct ((input_filter_get_filters L g_input_modulatory a g).1) eqn:F5
  end;
    run_call H; [|end_at H (StopFilter 5) gains; filter_reason].
  match type of H with
    context [(input_filter_get_filter_routes L g_input_modulatory ?a ?g).1] =>
    destruct ((input_filter_get_filter_routes L g_input_modulatory a g).1)
      eqn:F6
  end;
    run_call H; [|end_at H (StopFilter 6) gains; filter_reason].
  match type of H with context [(get_pes L ?a ?g).1] =>
    destruct ((get_pes L a g).1) eqn:P end;
    run_call H; [|end_at H StopPes gains; filter_reason].
  match type of H with context [(record_buffer_initialise L ?a ?t ?n ?g).1] =>
    destruct ((record_buffer_initialise L a t n g).1) eqn:R end;
    run_call H; [|end_at H StopRecord gains; filter_reason].
  destruct (leadAp m) eqn:Hlead; run_call H;
    (end_at H Started gains; filter_reason).
Qed.



Lemma silent_events (es : list event) :
  forallb is_printf es = true ->
  regions es = [] /\ existsb is_run_event es = false
  /\ existsb is_start es = false /\ packets es = [].
Proof.
  induction es as [|e es IH]; [auto|].
  simpl. intros [He Hes]%andb_prop. destruct (IH Hes) as (Hr & Hx & Hs & Hp).
  destruct e; try discriminate He. cbn. auto.
Qed.

Lemma boot_events_regions (s : stop) (gains : list event) (lead : bool)
    (dt : Z) :
  forallb is_printf gains = true ->
  regions (boot_events s gains lead dt)
  = match s with
    | StopSystem => [1]
    | StopMalloc => [1; 2; 3; 4; 5]
    | StopFilter k => [1; 2; 3; 4; 5; 10] ++ take k subcomponent_regions
    | StopPes => [1; 2; 3; 4; 5; 10; 6; 7; 8; 9; 11; 12; 13]
    | _ => [1; 2; 3; 4; 5; 10; 6; 7; 8; 9; 11; 12; 13; 15]
    end.
Proof.
  intros Hg. destruct (silent_events gains Hg) as (Hr & _).
  assert (Hmap : forall l, omap region_of (map RegionStart l) = l).
  { induction l as [|r l IH]; [reflexivity|]. cbn. now rewrite IH. }
  unfold regions in *. unfold boot_events.
  change (RegionStart 10 :: gains) with ([RegionStart 10] ++ gains).
  destruct s; rewrite ?omap_app, ?Hr, ?Hmap;
    cbn -[take subcomponent_regions]; rewrite ?app_nil_r; try reflexivity.
  destruct lead; reflexivity.
Qed.

Lemma boot_events_start (s : stop) (gains : list event) (lead : bool)
    (dt : Z) :
  forallb is_printf gains = true ->
  existsb is_start (boot_events s gains lead dt)
  = match s with Started => true | _ => false end
  /\ existsb is_run_event (boot_events s gains lead dt)
     = match s with Started => true | _ => false end.
Proof.
  intros Hg. destruct (silent_events gains Hg) as (_ & Hx & Hs & _).
  assert (Hmap : forall l, existsb is_start (map RegionStart l) = false
                           /\ existsb is_run_event (map RegionStart l) = false).
  { induction l as [|r l [IH1 IH2]]; [auto|]. cbn. auto. }
  destruct s; cbn; rewrite ?existsb_app, ?Hx, ?Hs; cbn;
    try (split; reflexivity).
  - destruct (Hmap (take k subcomponent_regions)) as [-> ->].
    split; reflexivity.
  - destruct lead; cbn; split; reflexivity.
Qed.

(** X5. Whenever the ensemble's [c_main] returns, the sub-regions it has
    asked for are an initial part of 1, 2, 3, 4, 5, 10, 6, 7, 8, 9, 11, 12,
    13, 15, in that order; region 14 is never asked for, and a region is
    asked for only after all the ones before it. *)
Theorem ensemble_region_order (L : library G) (m m' : machine G) :
  c_main L m = Some (tt, m') ->
  exists k : nat,
    (1 <= k)%nat
    /\ regions (new_events m m')
       = take k [1; 2; 3; 4; 5; 10; 6; 7; 8; 9; 11; 12; 13; 15]
    /\ 14 ∉ regions (new_events m m').
Proof.
  intros H. destruct (c_main_ends L m m' H) as (s & gains & Hg & Hev & Hwhy).
  rewrite Hev, (boot_events_regions s gains _ _ Hg).
  assert (Hno : forall k, 14 ∉ take k [1; 2; 3; 4; 5; 10; 6; 7; 8; 9; 11; 12; 13; 15]).
  { intros k H14. apply elem_of_take in H14 as (i & Hi & _).
    do 14 (destruct i as [|i]; [discriminate Hi|]). discriminate Hi. }
  destruct s.
  - exists 1%nat. split; [lia|]. split; [reflexivity|]. apply (Hno 1%nat).
  - exists 5%nat. split; [lia|]. split; [reflexivity|]. apply (Hno 5%nat).
  - destruct Hwhy as (_ & Hk & _).
    exists (6 + k)%nat. split; [lia|].
    assert (Heq : [1; 2; 3; 4; 5; 10] ++ take k subcomponent_regions
                  = take (6 + k) [1; 2; 3; 4; 5; 10; 6; 7; 8; 9; 11; 12; 13; 15]).
    { do 7 (destruct k as [|k]; [try lia; try reflexivity|]). lia. }
    rewrite Heq. split; [reflexivity|]. apply Hno.
  - exists 13%nat. split; [lia|]. split; [reflexivity|]. apply (Hno 13%nat).
  - exists 14%nat. split; [lia|]. split; [reflexivity|]. apply (Hno 14%nat).
  - exists 14%nat. split; [lia|]. split; [reflexivity|]. apply (Hno 14%nat).
Qed.

(** X6. [spin1_start] is reached only past every check: if a run of
    [c_main] calls it, then [data_system], the allocation of the
    inhibitory gains, each of the six filter and route loaders, [get_pes]
    and [record_buffer_initialise] have all returned success, each on the
    globals left by the steps of the run before it; all fourteen regions
    were asked for, the timer period was set to
    [g_ensemble.machine_timestep] and [spin1_start] is the last call. *)
Theorem ensemble_starts_only_past_every_check (L : library G)
    (m m' : machine G) :
  c_main L m = Some (tt, m') ->
  existsb is_start (new_events m m') = true ->
  stop_reason L m Started
  /\ regions (new_events m m') = [1; 2; 3; 4; 5; 10; 6; 7; 8; 9; 11; 12; 13; 15]
  /\ exists before,
       new_events m m'
       = before ++ [SetTimerTick (machine_timestep L (globals m')); Start]
       /\ existsb is_run_event before = false.
Proof.
  intros H Hstart.
  destruct (c_main_ends L m m' H) as (s & gains & Hg & Hev & Hwhy).
  rewrite Hev in Hstart |- *.
  destruct (boot_events_start s gains (leadAp m)
              (machine_timestep L (globals m')) Hg) as [Hs _].
  rewrite Hs in Hstart.
  destruct s; try discriminate Hstart.
  split; [exact Hwhy|].
  split; [now rewrite boot_events_regions|].
  destruct (silent_events gains Hg) as (_ & Hx & _).
  exists ([IoPrintf "[Ensemble] C_MAIN\n" []; RegionStart 1]
          ++ map RegionStart [2; 3; 4; 5] ++ (RegionStart 10 :: gains)
          ++ map RegionStart subcomponent_regions
          ++ [RegionStart 13; RegionStart 15;
              IoPrintf "[Ensemble] C_MAIN Configuring system.\n" []]
          ++ (if leadAp m then [LeadAppConfigured] else [])
          ++ [IoPrintf "[Ensemble] C_MAIN Set timer and spin1_start.\n" []]).
  split.
  - unfold boot_events. rewrite <- !app_assoc. reflexivity.
  - change (RegionStart 10 :: gains) with ([RegionStart 10] ++ gains).
    rewrite !existsb_app, Hx. destruct (leadAp m); reflexivity.
Qed.


End EnsembleBootFacts.

Section EnsembleBootMore.
Import Word Kernel EnsembleMain EnsembleBoot EnsembleBootExamples.

(** X8. The results of the four data loaders (bias, encoders, decoders,
    keys; regions 2 to 5) are dropped at the call: for every library and
    machine, [c_main] does the same whatever the four return. *)
Theorem ensemble_data_reports_are_dropped {G} (L : library G)
    (b2 b3 b4 b5 : bool) (m : machine G) :
  c_main (reporting_data b2 b3 b4 b5 L) m = c_main L m.
Proof.
  unfold c_main, bind, call. cbn.
  destruct (data_system L _ _) as [[|] g1]; cbn; [|reflexivity].
  destruct (data_get_bias L _ _ _) as [r2 g2]; cbn.
  destruct (data_get_encoders L _ _ _ _) as [r3 g3]; cbn.
  destruct (data_get_decoders L _ _ _ _) as [r4 g4]; cbn.
  destruct (data_get_keys L _ _ _) as [r5 g5]; cbn.
  reflexivity.
Qed.

(** X9. The two early ways out, run forward.  When [data_system] fails,
    [c_main] returns having asked for region 1 only.  When it succeeds
    but the heap cannot hold the inhibitory gains ([n_neurons * 4] bytes,
    for the [g_ensemble.n_neurons] that line 21 reads in the globals left
    by the data loaders), [c_main] returns with the allocation message
    after regions 1 to 5: region 10 is not read, no filter is loaded,
    nothing is started. *)
Theorem ensemble_early_returns {G} (L : library G) (m : machine G) :
  ((data_system L (sram m 1) (globals m)).1 = false ->
   exists m',
     c_main L m = Some (tt, m')
     /\ new_events m m'
        = [IoPrintf "[Ensemble] C_MAIN\n" []; RegionStart 1; failure_message])
  /\ ((data_system L (sram m 1) (globals m)).1 = true ->
      heap_free m < wrap (n_neurons L (globals_after_data L m) * 4) ->
      exists m',
        c_main L m = Some (tt, m')
        /\ new_events m m'
           = [IoPrintf "[Ensemble] C_MAIN\n" []; RegionStart 1; RegionStart 2;
              RegionStart 3; RegionStart 4; RegionStart 5;
              IoPrintf "[Ensemble] Failed to malloc inhib gains.\n" []]).
Proof.
  unfold c_main, load_inhib_gain, failed_to_start.
  unfold io_printf, region_start, system_load_sram, spin1_malloc.
  unfold emit, ret, read, update. unfold bind.
  split.
  - intros E1.
    repeat (cbn [globals sram leadAp simulation_ticks heap_free exit_code
                 trace with_events negb app];
            cbv beta iota; try rewrite call_eq).
    rewrite E1. cbn [negb]. eexists. split; [reflexivity|].
    unfold new_events. cbn [trace with_events].
    rewrite <- !app_assoc, drop_app_length. reflexivity.
  - intros E1 Hheap.
    repeat (cbn [globals sram leadAp simulation_ticks heap_free exit_code
                 trace with_events negb app];
            cbv beta iota; try rewrite call_eq).
    rewrite E1.
    repeat (cbn [globals sram leadAp simulation_ticks heap_free exit_code
                 trace with_events negb app];
            cbv beta iota; try rewrite call_eq).
    unfold globals_after_data, system_result in Hheap. cbv zeta in Hheap.
    rewrite (proj2 (Z.leb_gt _ _) Hheap).
    cbn [negb]. eexists. split; [reflexivity|].
    unfold new_events. cbn [trace with_events].
    rewrite <- !app_assoc, drop_app_length. reflexivity.
Qed.

Lemma ensemble_region_order_witness :
  exists m',
    c_main (stub_library true) boot_machine = Some (tt, m')
    /\ 14 ∉ regions (new_events boot_machine m').
Proof.
  destruct (c_main (stub_library true) boot_machine) as [[[] m']|] eqn:H;
    [|vm_compute in H; discriminate H].
  exists m'. split; [reflexivity|].
  destruct (ensemble_region_order _ _ _ H) as (k & _ & _ & H14). exact H14.
Defined.

Lemma ensemble_starts_only_past_every_check_witness :
  exists m',
    c_main (logging_library 0) logging_boot_machine = Some (tt, m')
    /\ (get_pes (logging_library 0) (sram logging_boot_machine 13)
          (globals logging_boot_machine)).1 = false
    /\ (pes_result (logging_library 0) logging_boot_machine).1 = true
    /\ stop_reason (logging_library 0) logging_boot_machine Started
    /\ regions (new_events logging_boot_machine m')
       = [1; 2; 3; 4; 5; 10; 6; 7; 8; 9; 11; 12; 13; 15].
Proof.
  destruct (c_main (logging_library 0) logging_boot_machine)
    as [[[] m']|] eqn:H; [|vm_compute in H; discriminate H].
  exists m'. split; [reflexivity|]. split; [reflexivity|].
  destruct (ensemble_starts_only_past_every_check _ _ _ H)
    as (Hwhy & Hr & _).
  - vm_compute in H. injection H as <-. reflexivity.
  - split; [exact (proj1 (proj2 (proj2 Hwhy)))|]. split; [exact Hwhy|].
    exact Hr.
Defined.


Lemma ensemble_early_returns_witness :
  exists m',
    c_main (logging_library 0) starved_logging_machine = Some (tt, m')
    /\ n_neurons (logging_library 0) (globals starved_logging_machine) = 0
    /\ n_neurons (logging_library 0)
         (globals_after_data (logging_library 0) starved_logging_machine)
       = 2
    /\ regions (new_events starved_logging_machine m') = [1; 2; 3; 4; 5].
Proof.
  destruct (ensemble_early_returns (logging_library 0)
              starved_logging_machine)
    as [_ Hmalloc].
  destruct Hmalloc as (m' & Hrun & Hev).
  - reflexivity.
  - vm_compute. reflexivity.
  - exists m'. split; [exact Hrun|]. split; [reflexivity|].
    split; [reflexivity|]. rewrite Hev. reflexivity.
Defined.

End EnsembleBootMore.

(** ** The packed neuron word: how the operations compose *)

Section PackedWordComposition.
Import Word Ensemble.

(** X10. The last voltage written wins, and the counter survives both
    writes: [set_neuron_voltage(n, v2)] after [set_neuron_voltage(n, v1)]
    leaves the same state as [set_neuron_voltage(n, v2)] alone. *)
Theorem set_neuron_voltage_twice (n v1 v2 : Z) (g g1 : globals) :
  set_neuron_voltage n v1 g = Some g1 ->
  set_neuron_voltage n v2 g1 = set_neuron_voltage n v2 g.
Proof.
  unfold set_neuron_voltage. intros H.
  destruct (load_word n g) as [w|] eqn:Hw; [|discriminate]. simpl in H.
  rewrite (store_word_Some _ _ _ _ Hw) in H. injection H as <-.
  rewrite (load_after_store _ _ _ _ Hw). simpl.
  rewrite counter_of_packed.
  rewrite (store_word_Some _ _ _ _ Hw).
  unfold store_word. simpl.
  rewrite decide_True by (rewrite length_insert; now apply load_word_lt in Hw).
  unfold set_v_ref_voltage. simpl. now rewrite list_insert_insert_eq.
Qed.

Lemma set_neuron_voltage_twice_witness :
  set_neuron_voltage 0 5
    {| t_ref := 0; v_ref_voltage := [0x30000009] |}
  = Some {| t_ref := 0; v_ref_voltage := [0x30000005] |}
  /\ set_neuron_voltage 0 7 {| t_ref := 0; v_ref_voltage := [0x30000005] |}
     = Some {| t_ref := 0; v_ref_voltage := [0x30000007] |}.
Proof.
  split; [reflexivity|].
  rewrite (set_neuron_voltage_twice 0 5 7
             {| t_ref := 0; v_ref_voltage := [0x30000009] |}
             {| t_ref := 0; v_ref_voltage := [0x30000005] |} eq_refl).
  reflexivity.
Defined.

(** X11. The refractory period, end to end.  When [t_ref] holds the count
    [c] (below 16) in the counter field, [set_neuron_refractory(n)]
    followed by [i <= c] calls of [decrement_neuron_refractory(n)] leaves
    the counter at [c - i] and the voltage at zero: the neuron leaves the
    refractory state after exactly [c] decrements, with zero voltage. *)
Theorem refractory_period (n : Z) (g : globals) (w c : Z) (i : nat) :
  load_word n g = Some w ->
  0 <= c < 16 ->
  t_ref g = Z.shiftl c 28 ->
  Z.of_nat i <= c ->
  exists g0 gi,
    set_neuron_refractory n g = Some g0
    /\ decrement_steps i n g0 = Some gi
    /\ neuron_refractory n gi = Some (c - Z.of_nat i)
    /\ neuron_voltage n gi = Some 0
    /\ (neuron_refractory n gi = Some 0 <-> Z.of_nat i = c).
Proof.
  intros Hw Hc Ht Hi.
  assert (Hu : is_uint (Z.shiftl c 28)).
  { rewrite Z.shiftl_mul_pow2 by lia. unfold is_uint, modulus. lia. }
  eexists. 
  assert (Hset : set_neuron_refractory n g
                 = Some (set_v_ref_voltage
                           (<[Z.to_nat n := t_ref g]> (v_ref_voltage g)) g)).
  { unfold set_neuron_refractory. now apply store_word_Some with (w := w). }
  pose proof (load_after_store n (t_ref g) g w Hw) as Hload.
  rewrite Ht in Hload.
  assert (Hcnt : neuron_refractory n
                   (set_v_ref_voltage
                      (<[Z.to_nat n := t_ref g]> (v_ref_voltage g)) g)
                 = Some c).
  { unfold neuron_refractory. rewrite Ht, Hload. simpl.
    rewrite shiftr_counter_mask, Z.shiftl_mul_pow2 by lia.
    rewrite Z.div_mul by lia. f_equal. apply Z.mod_small. lia. }
  rewrite Ht in Hset, Hcnt.
  destruct (decrement_many i n _ _ c Hload Hu Hcnt Hi) as (gi & Hsteps & Hci & Hvi).
  exists gi. split; [exact Hset|]. split; [exact Hsteps|].
  split; [exact Hci|]. split.
  - unfold voltage_bits in Hvi. rewrite Hload in Hvi. simpl in Hvi.
    unfold neuron_voltage.
    destruct (load_word n gi) as [wi|]; [|discriminate]. simpl in *.
    injection Hvi as ->.
    rewrite land_voltage_mask, Z.shiftl_mul_pow2, Z_mod_mult by lia.
    reflexivity.
  - rewrite Hci. split; [intros [=]; lia | intros ->; f_equal; lia].
Qed.

Lemma refractory_period_witness :
  exists g0 g2,
    set_neuron_refractory 0 {| t_ref := 0x20000000; v_ref_voltage := [77] |}
    = Some g0
    /\ decrement_steps 2 0 g0 = Some g2
    /\ neuron_refractory 0 g2 = Some 0
    /\ neuron_voltage 0 g2 = Some 0.
Proof.
  destruct (refractory_period 0
              {| t_ref := 0x20000000; v_ref_voltage := [77] |} 77 2 2)
    as (g0 & g2 & Hset & Hsteps & Hc & Hv & _).
  - reflexivity.
  - lia.
  - reflexivity.
  - lia.
  - exists g0, g2. auto.
Defined.

End PackedWordComposition.

(** ** Encoders and decoders *)

Section CodingFacts.
Import Word Coding.

(** Entry [(n, d)] of a flattened matrix with rows of length [D]. *)
Lemma lookup_concat_rows (D : nat) (rows : list (list Z)) :
  Forall (fun r => length r = D) rows ->
  forall (n d : nat) (row : list Z),
    rows !! n = Some row -> (d < D)%nat ->
    concat rows !! (n * D + d)%nat = row !! d.
Proof.
  induction 1 as [|r rows Hr Hrows IH]; intros n d row Hn Hd.
  - discriminate Hn.
  - destruct n as [|n]; simpl in *.
    + injection Hn as ->. apply lookup_app_l. lia.
    + rewrite lookup_app_r by lia.
      replace (D + n * D + d - length r)%nat with (n * D + d)%nat by lia.
      now apply IH.
Qed.

Lemma flat_index (D n d : Z) (N : nat) :
  is_uint D -> Z.of_nat N * D <= modulus ->
  0 <= n < Z.of_nat N -> 0 <= d < D ->
  Z.to_nat (wrap (n * D + d)) = (Z.to_nat n * Z.to_nat D + Z.to_nat d)%nat.
Proof.
  unfold is_uint, modulus. intros HD HN Hn Hd.
  rewrite wrap_small by (unfold is_uint, modulus; nia). nia.
Qed.

(** X12. The encoders and decoders are row-major matrices, one row per
    neuron: when the array is the concatenation of the rows, each of
    length [n_input_dimensions], and the whole matrix has at most 2^32
    entries, [neuron_encoder(n, d)] is entry [d] of row [n] for every
    [d < n_input_dimensions].  There is no check on [d]: a column index
    [n_input_dimensions + d] reads entry [d] of the next neuron's row. *)
Theorem neuron_encoder_row_major (g : globals) (rows : list (list Z))
    (n d : Z) (row : list Z) :
  encoders g = concat rows ->
  Forall (fun r => length r = Z.to_nat (n_input_dimensions g)) rows ->
  is_uint (n_input_dimensions g) ->
  Z.of_nat (length rows) * n_input_dimensions g <= modulus ->
  0 <= n -> rows !! Z.to_nat n = Some row ->
  0 <= d < n_input_dimensions g ->
  neuron_encoder n d g = row !! Z.to_nat d
  /\ is_Some (neuron_encoder n d g)
  /\ forall d', neuron_encoder n (n_input_dimensions g + d') g
                = neuron_encoder (n + 1) d' g.
Proof.
  intros Henc Hrows HD HN Hn Hrow Hd.
  assert (Hlt : (Z.to_nat n < length rows)%nat).
  { apply lookup_lt_Some in Hrow. exact Hrow. }
  assert (Heq : neuron_encoder n d g = row !! Z.to_nat d).
  { unfold neuron_encoder.
    rewrite (flat_index _ _ _ (length rows)), Henc by (assumption || lia).
    apply lookup_concat_rows with (D := Z.to_nat (n_input_dimensions g));
      [assumption | assumption | lia]. }
  split; [exact Heq|]. split.
  - rewrite Heq. apply lookup_lt_is_Some.
    assert (Hlen : length row = Z.to_nat (n_input_dimensions g)).
    { eapply Forall_lookup_1 in Hrows; [exact Hrows | exact Hrow]. }
    lia.
  - intros d'. unfold neuron_encoder. do 3 f_equal. lia.
Qed.

Lemma neuron_encoder_row_major_witness :
  neuron_encoder 1 0
    {| n_input_dimensions := 2; n_output_dimensions := 1;
       encoders := [10; 11; 20; 21]; decoders := [] |} = Some 20
  /\ neuron_encoder 0 2
       {| n_input_dimensions := 2; n_output_dimensions := 1;
          encoders := [10; 11; 20; 21]; decoders := [] |} = Some 20.
Proof.
  destruct (neuron_encoder_row_major
              {| n_input_dimensions := 2; n_output_dimensions := 1;
                 encoders := [10; 11; 20; 21]; decoders := [] |}
              [[10; 11]; [20; 21]] 1 0 [20; 21])
    as (Hentry & _ & _).
  - reflexivity.
  - repeat constructor.
  - unfold is_uint, modulus. simpl. lia.
  - unfold modulus. simpl. lia.
  - lia.
  - reflexivity.
  - simpl. lia.
  - split; [rewrite Hentry; reflexivity | reflexivity].
Defined.

(** X13. The same for the decoders, with rows of length
    [n_output_dimensions]. *)
Theorem neuron_decoder_row_major (g : globals) (rows : list (list Z))
    (n d : Z) (row : list Z) :
  decoders g = concat rows ->
  Forall (fun r => length r = Z.to_nat (n_output_dimensions g)) rows ->
  is_uint (n_output_dimensions g) ->
  Z.of_nat (length rows) * n_output_dimensions g <= modulus ->
  0 <= n -> rows !! Z.to_nat n = Some row ->
  0 <= d < n_output_dimensions g ->
  neuron_decoder n d g = row !! Z.to_nat d
  /\ is_Some (neuron_decoder n d g)
  /\ forall d', neuron_decoder n (n_output_dimensions g + d') g
                = neuron_decoder (n + 1) d' g.
Proof.
  intros Hdec Hrows HD HN Hn Hrow Hd.
  assert (Hlt : (Z.to_nat n < length rows)%nat).
  { apply lookup_lt_Some in Hrow. exact Hrow. }
  assert (Heq : neuron_decoder n d g = row !! Z.to_nat d).
  { unfold neuron_decoder.
    rewrite (flat_index _ _ _ (length rows)), Hdec by (assumption || lia).
    apply lookup_concat_rows with (D := Z.to_nat (n_output_dimensions g));
      [assumption | assumption | lia]. }
  split; [exact Heq|]. split.
  - rewrite Heq. apply lookup_lt_is_Some.
    assert (Hlen : length row = Z.to_nat (n_output_dimensions g)).
    { eapply Forall_lookup_1 in Hrows; [exact Hrows | exact Hrow]. }
    lia.
  - intros d'. unfold neuron_decoder. do 3 f_equal. lia.
Qed.

Lemma neuron_decoder_row_major_witness :
  neuron_decoder 2 0
    {| n_input_dimensions := 2; n_output_dimensions := 1;
       encoders := []; decoders := [5; 6; 7] |} = Some 7.
Proof.
  destruct (neuron_decoder_row_major
              {| n_input_dimensions := 2; n_output_dimensions := 1;
                 encoders := []; decoders := [5; 6; 7] |}
              [[5]; [6]; [7]] 2 0 [7])
    as (Hentry & _ & _).
  - reflexivity.
  - repeat constructor.
  - unfold is_uint, modulus. simpl. lia.
  - unfold modulus. simpl. lia.
  - lia.
  - reflexivity.
  - simpl. lia.
  - rewrite Hentry. reflexivity.
Defined.

End CodingFacts.

(** ** The filter's tick: what it keeps, and its edge cases *)

Section FilterTickFacts.
Import Word Kernel Filter.
Context {FP : FixedPoint} {IF : InputFilter}.

(** X14. A tick keeps the configuration: on well-formed globals
    [filter_update] returns, the globals are well-formed again, and the
    sizes, the timing parameters, the keys, the transform and the input
    pointer, like the heap and the configuration memory, are as before:
    only the output, the delay counter, the input filter and the kernel's
    record change. *)
Theorem filter_update_keeps_configuration `{!InputFilterWidth}
    (ticks arg1 : Z) (m : machine filter_globals) :
  well_formed m ->
  exists m',
    filter_update ticks arg1 m = Some (tt, m')
    /\ well_formed m'
    /\ set_output [] (g_filter (globals m'))
       = set_output [] (g_filter (globals m))
    /\ sram m' = sram m /\ leadAp m' = leadAp m
    /\ simulation_ticks m' = simulation_ticks m
    /\ heap_free m' = heap_free m
    /\ exists es, trace m' = trace m ++ es.
Proof.
  intros Hwf. exists (after_tick ticks m).
  split; [now apply filter_update_after_tick|].
  split; [now apply after_tick_well_formed|].
  cbn. repeat split. eexists. reflexivity.
Qed.

(** X15. On a transmitting tick every packet is followed by the pause,
    the last one included: the kernel calls of the tick are, after the
    exit request if any, [spin1_send_mc_packet(keys[d], bitsk(output[d]))]
    and [spin1_delay_us(interpacket_pause)] in turn for [d = 0, 1, ...],
    so with at least one output dimension the tick ends with a pause. *)
Theorem transmission_pauses_after_every_packet `{!InputFilterWidth}
    (ticks arg1 : Z) (m : machine filter_globals) :
  well_formed m ->
  delay_remaining (globals m) = 1 ->
  exists m',
    filter_update ticks arg1 m = Some (tt, m')
    /\ new_events m m'
       = (if exits ticks m then [Exit 0] else [])
         ++ flat_map
              (fun kp => [SendMcPacket kp.1 kp.2;
                          DelayUs (interpacket_pause (g_filter (globals m)))])
              (zip (keys (g_filter (globals m)))
                   (map bitsk (output (g_filter (globals m')))))
    /\ (1 <= size_out (g_filter (globals m)) ->
        last (new_events m m')
        = Some (DelayUs (interpacket_pause (g_filter (globals m))))).
Proof.
  intros Hwf Hd. exists (after_tick ticks m).
  split; [now apply filter_update_after_tick|].
  assert (Htr : transmits m = true).
  { unfold transmits. rewrite Hd. reflexivity. }
  rewrite new_events_after_tick, Htr. split; [reflexivity|].
  intros Hn. rewrite last_app.
  unfold transmission_trace, output_packets.
  assert (Hlen : (0 < length (zip (keys (g_filter (globals m)))
                               (map bitsk (output_of_tick m))))%nat).
  { rewrite length_zip_with, length_map.
    unfold output_of_tick, matvec. rewrite length_map, length_seq.
    rewrite (wf_keys m Hwf). lia. }
  destruct (zip (keys (g_filter (globals m))) (map bitsk (output_of_tick m)))
    as [|kp l] using rev_ind; [simpl in Hlen; lia|].
  rewrite flat_map_app. simpl. rewrite last_app. reflexivity.
Qed.

(** X16. With no input dimension the sum is empty: after a tick every
    output is zero, whatever the transform holds. *)
Theorem filter_update_without_input `{!InputFilterWidth}
    (ticks arg1 : Z) (m : machine filter_globals) :
  well_formed m ->
  size_in (g_filter (globals m)) = 0 ->
  exists m',
    filter_update ticks arg1 m = Some (tt, m')
    /\ output (g_filter (globals m'))
       = replicate (Z.to_nat (size_out (g_filter (globals m)))) 0.
Proof.
  intros Hwf Hin. exists (after_tick ticks m).
  split; [now apply filter_update_after_tick|].
  cbn. unfold output_of_tick, matvec. rewrite Hin.
  change (Z.to_nat 0) with 0%nat.
  generalize (Z.to_nat (size_out (g_filter (globals m)))). intros n.
  generalize 0%nat at 2. induction n as [|n IH]; intros s; [reflexivity|].
  simpl. f_equal. apply IH.
Qed.

Lemma run_ticks_silent `{!InputFilterWidth}
    (arrivals : list (list (Z * Z))) :
  forall (t : Z) (m : machine filter_globals),
    well_formed m ->
    Z.of_nat (length arrivals) <= wrap (delay_remaining (globals m) - 1) ->
    exists reports m' es,
      run_ticks t arrivals m = Some (reports, m')
      /\ Forall (fun r => sent r = []) reports
      /\ trace m' = trace m ++ es
      /\ packets es = [].
Proof.
  induction arrivals as [|pk rest IH]; intros t m Hwf Hlen.
  - exists [], m, []. rewrite app_nil_r. repeat split. constructor.
  - destruct (exit_code m) as [code|] eqn:He.
    { exists [], m, []. rewrite app_nil_r.
      split; [now apply run_ticks_exited with (code := code)|].
      repeat split. constructor. }
    rewrite (run_ticks_cons t pk rest m Hwf He). cbv zeta.
    set (m0 := with_globals _ m).
    assert (Hwf0 : well_formed m0) by now apply delivered_well_formed.
    pose proof (wrap_range (delay_remaining (globals m) - 1)) as Hr.
    unfold is_uint in Hr. simpl length in Hlen.
    assert (Htr : transmits m0 = false).
    { unfold transmits. cbn. apply Z.eqb_neq. lia. }
    destruct (IH (wrap (t + 1)) (after_tick t m0))
      as (more & m' & es & Hrun & Hall & Htrace & Hpk).
    + now apply after_tick_well_formed.
    + cbn -[transmits]. rewrite Htr.
      rewrite (wrap_small (wrap (delay_remaining (globals m) - 1) - 1))
        by (unfold is_uint; lia).
      lia.
    + rewrite Hrun.
      assert (Hsent : packets (new_events m0 (after_tick t m0)) = []).
      { rewrite packets_after_tick, Htr. reflexivity. }
      eexists _, m', (new_events m0 (after_tick t m0) ++ es).
      split; [reflexivity|].
      split; [constructor; [exact Hsent | exact Hall]|]. split.
      * rewrite Htrace, new_events_after_tick, app_assoc. reflexivity.
      * unfold packets in *. rewrite omap_app, Hsent, Hpk. reflexivity.
Qed.

(** X17. The ticks before the first transmission are silent: a run of at
    most [(delay_remaining - 1) mod 2^32] ticks sends no packet.  In
    particular, with a transmission delay of 0 (so [delay_remaining = 0])
    nothing is sent during the first [2^32 - 1] ticks. *)
Theorem silent_until_counter_expires `{!InputFilterWidth}
    (t : Z) (arrivals : list (list (Z * Z))) (m : machine filter_globals) :
  well_formed m ->
  Z.of_nat (length arrivals) <= wrap (delay_remaining (globals m) - 1) ->
  exists reports m',
    run_ticks t arrivals m = Some (reports, m')
    /\ Forall (fun r => sent r = []) reports
    /\ packets (new_events m m') = [].
Proof.
  intros Hwf Hlen.
  destruct (run_ticks_silent arrivals t m Hwf Hlen)
    as (reports & m' & es & Hrun & Hall & Htrace & Hpk).
  exists reports, m'. split; [exact Hrun|]. split; [exact Hall|].
  now rewrite (new_events_app m m' es Htrace).
Qed.

End FilterTickFacts.

(** ** The filter's loaders *)

Section FilterLoaderFacts.
Import Word Kernel Filter.
Context {IF : InputFilter}.

Lemma to_nat_words (n : Z) :
  0 <= n < 2 ^ 30 -> wrap (n * 4) = n * 4 /\ Z.to_nat (wrap (n * 4) / 4) = Z.to_nat n.
Proof.
  intros Hn. unfold wrap, modulus.
  rewrite Z.mod_small by lia. split; [reflexivity|].
  rewrite Z.div_mul by lia. reflexivity.
Qed.

(** The loop that prints the keys (lines 63-64). *)
Lemma print_keys_at (m : machine filter_globals) (n : nat) :
  (n <= length (keys (g_filter (globals m))))%nat ->
  for_from 0 n
    (fun i => key <- load_keys i ;;
              io_printf "g_filter.keys[%d] = %08x\n" [i; key])%K m
  = Some (tt, with_events
                (map (fun i : nat =>
                        IoPrintf "g_filter.keys[%d] = %08x\n"
                          [Z.of_nat i; keys (g_filter (globals m)) !!! i])
                     (seq 0 n)) m).
Proof.
  intros Hn.
  destruct (for_from_invariant
    (fun i => key <- load_keys i ;;
              io_printf "g_filter.keys[%d] = %08x\n" [i; key])%K
    (fun k mk => mk = with_events
                   (map (fun i : nat =>
                           IoPrintf "g_filter.keys[%d] = %08x\n"
                             [Z.of_nat i; keys (g_filter (globals m)) !!! i])
                        (seq 0 k)) m)
    n 0%nat m) as (m' & Hrun & Hm').
  - simpl. symmetry. apply with_events_nil.
  - intros k mk Hk ->. eexists. split.
    + erewrite bind_Some by (apply load_keys_at; cbn; rewrite Nat2Z.id; lia).
      cbn. reflexivity.
    + rewrite seq_S, map_app. unfold with_events. cbn.
      rewrite Nat2Z.id, <- app_assoc. reflexivity.
  - rewrite Hrun, Hm'. reflexivity.
Qed.

(** The run of the loader, as used by the boot. *)
Lemma data_get_output_keys_run (addr : address_t)
    (m : machine filter_globals) :
  0 <= size_out (g_filter (globals m)) < 2 ^ 30 ->
  (size_out (g_filter (globals m)) * 4 <= heap_free m ->
   exists m',
     data_get_output_keys addr m = Some (true, m')
     /\ keys (g_filter (globals m'))
        = copy_words addr (Z.to_nat (size_out (g_filter (globals m))))
     /\ set_keys [] (g_filter (globals m')) = set_keys [] (g_filter (globals m))
     /\ delay_remaining (globals m') = delay_remaining (globals m)
     /\ g_input (globals m') = g_input (globals m)
     /\ sram m' = sram m /\ leadAp m' = leadAp m
     /\ simulation_ticks m' = simulation_ticks m
     /\ exit_code m' = exit_code m
     /\ heap_free m' = heap_free m - size_out (g_filter (globals m)) * 4
     /\ new_events m m'
        = map (fun i : nat =>
                 IoPrintf "g_filter.keys[%d] = %08x\n"
                   [Z.of_nat i; read_uint addr i])
              (seq 0 (Z.to_nat (size_out (g_filter (globals m))))))
  /\ (heap_free m < size_out (g_filter (globals m)) * 4 ->
      data_get_output_keys addr m
      = Some (false, with_globals (set_g_filter (set_keys [])) m)).
Proof.
  intros Hn. destruct (to_nat_words _ Hn) as [Hbytes Hwords].
  split.
  - intros Hfit. unfold data_get_output_keys, MALLOC_FAIL_FALSE.
    unfold bind at 1, read at 1. unfold bind at 1, spin1_malloc at 1.
    rewrite Hbytes, (proj2 (Z.leb_le _ _) Hfit).
    unfold bind at 1, read at 1. unfold bind at 1, update at 1.
    unfold bind at 1, read at 1.
    cbn [globals with_globals g_filter set_g_filter set_keys size_out].
    rewrite ?Hwords, ?Hbytes.
    unfold for_uint. unfold bind at 1.
    rewrite print_keys_at
      by (cbn; unfold copy_words; rewrite length_map, length_seq; lia).
    eexists. split; [reflexivity|].
    cbn. repeat split.
    unfold new_events. cbn. rewrite drop_app_length.
    apply map_ext_in. intros i Hi%in_seq.
    unfold copy_words.
    rewrite list_lookup_total_alt, list_lookup_fmap, lookup_seq_lt by lia.
    reflexivity.
  - intros Hfull. unfold data_get_output_keys, MALLOC_FAIL_FALSE.
    unfold bind at 1, read at 1. unfold bind at 1, spin1_malloc at 1.
    rewrite Hbytes, (proj2 (Z.leb_gt _ _) Hfull). reflexivity.
Qed.

(** X18. [data_get_output_keys], for a [size_out] whose byte count does
    not wrap.  When the heap holds [4 * size_out] bytes it returns [true]:
    the keys are the first [size_out] words of the region, the heap has
    shrunk by that many bytes, one line per key was printed, and nothing
    else has changed.  Otherwise it returns [false]: [g_filter.keys] has
    been assigned [NULL] (whatever it held before), and the rest of the
    globals, the heap and the kernel's record are as they were. *)
Theorem data_get_output_keys_result (addr : address_t)
    (m : machine filter_globals) :
  0 <= size_out (g_filter (globals m)) < 2 ^ 30 ->
  (size_out (g_filter (globals m)) * 4 <= heap_free m ->
   exists m',
     data_get_output_keys addr m = Some (true, m')
     /\ keys (g_filter (globals m'))
        = copy_words addr (Z.to_nat (size_out (g_filter (globals m))))
     /\ set_keys [] (g_filter (globals m')) = set_keys [] (g_filter (globals m))
     /\ delay_remaining (globals m') = delay_remaining (globals m)
     /\ g_input (globals m') = g_input (globals m)
     /\ sram m' = sram m /\ leadAp m' = leadAp m
     /\ simulation_ticks m' = simulation_ticks m
     /\ exit_code m' = exit_code m
     /\ heap_free m' = heap_free m - size_out (g_filter (globals m)) * 4
     /\ new_events m m'
        = map (fun i : nat =>
                 IoPrintf "g_filter.keys[%d] = %08x\n"
                   [Z.of_nat i; read_uint addr i])
              (seq 0 (Z.to_nat (size_out (g_filter (globals m))))))
  /\ (heap_free m < size_out (g_filter (globals m)) * 4 ->
      data_get_output_keys addr m
      = Some (false, with_globals (set_g_filter (set_keys [])) m)).
Proof. exact (data_get_output_keys_run addr m). Qed.


(** The loops that print the transform (lines 77-82) only print. *)
Lemma print_transform_at (m : machine filter_globals) :
  is_uint (size_in (g_filter (globals m))) ->
  is_uint (size_out (g_filter (globals m))) ->
  size_in (g_filter (globals m)) * size_out (g_filter (globals m)) <= modulus ->
  length (transform (g_filter (globals m)))
  = (Z.to_nat (size_out (g_filter (globals m)))
     * Z.to_nat (size_in (g_filter (globals m))))%nat ->
  exists es,
    for_uint (size_out (g_filter (globals m)))
      (fun i =>
         n_in <- read (fun g => size_in (g_filter g)) ;;
         for_uint n_in (fun j =>
           n_in <- read (fun g => size_in (g_filter g)) ;;
           t <- load_transform (wrap (i * n_in + j)) ;;
           io_printf "%k " [t]) ;;
         io_printf "\n" [])%K m
    = Some (tt, with_events es m)
    /\ forallb is_printf es = true.
Proof.
  intros Hin Hout Hprod Hlen.
  set (n_in := size_in (g_filter (globals m))) in *.
  set (n_out := size_out (g_filter (globals m))) in *.
  assert (Hrow : forall (i : nat) es,
            (i < Z.to_nat n_out)%nat -> forallb is_printf es = true ->
            exists es',
              (n_in0 <- read (fun g => size_in (g_filter g)) ;;
               for_uint n_in0 (fun j =>
                 n_in1 <- read (fun g => size_in (g_filter g)) ;;
                 t <- load_transform (wrap (Z.of_nat i * n_in1 + j)) ;;
                 io_printf "%k " [t]) ;;
               io_printf "\n" [])%K (with_events es m)
              = Some (tt, with_events es' m)
              /\ forallb is_printf es' = true).
  { intros i es Hi Hes.
    unfold bind at 1, read at 1. cbn [globals with_events]. fold n_in.
    destruct (for_from_invariant
      (fun j =>
         n_in1 <- read (fun g => size_in (g_filter g)) ;;
         t <- load_transform (wrap (Z.of_nat i * n_in1 + j)) ;;
         io_printf "%k " [t])%K
      (fun _ mk => exists es1, mk = with_events es1 m
                               /\ forallb is_printf es1 = true)
      (Z.to_nat n_in) 0%nat (with_events es m)) as (m' & Hrun & es1 & -> & Hes1).
    - eauto.
    - intros j mk Hj (es1 & -> & Hes1).
      destruct (transform_index n_in n_out i j) as [Hidx Hlt]; try lia;
        try assumption.
      unfold bind at 1, read at 1. cbn [globals with_events]. fold n_in.
      erewrite bind_Some
        by (apply load_transform_at; cbn; rewrite Hidx; lia).
      eexists. split.
      { unfold io_printf, emit. reflexivity. }
      eexists. split; [apply with_events_app|].
      rewrite forallb_app, Hes1. reflexivity.
    - unfold for_uint. unfold bind at 1. rewrite Hrun.
      eexists. split.
      { cbv beta iota. unfold io_printf, emit.
        rewrite with_events_app. reflexivity. }
      rewrite forallb_app, Hes1. reflexivity. }
  destruct (for_from_invariant
    (fun i =>
       n_in0 <- read (fun g => size_in (g_filter g)) ;;
       for_uint n_in0 (fun j =>
         n_in1 <- read (fun g => size_in (g_filter g)) ;;
         t <- load_transform (wrap (i * n_in1 + j)) ;;
         io_printf "%k " [t]) ;;
       io_printf "\n" [])%K
    (fun _ mk => exists es1, mk = with_events es1 m
                             /\ forallb is_printf es1 = true)
    (Z.to_nat n_out) 0%nat m) as (m' & Hrun & es & -> & Hes).
  - exists []. split; [symmetry; apply with_events_nil | reflexivity].
  - intros i mk Hi (es1 & -> & Hes1).
    destruct (Hrow i es1 ltac:(lia) Hes1) as (es' & Hrun & Hes').
    eexists. split; [exact Hrun|]. eauto.
  - exists es. split; [exact Hrun | exact Hes].
Qed.

Lemma transform_words (n_in n_out : Z) :
  0 <= n_in -> 0 <= n_out -> n_in * n_out < 2 ^ 30 ->
  wrap (wrap (4 * n_in) * n_out) = n_in * n_out * 4
  /\ Z.to_nat (wrap (wrap (n_in * n_out) * 4) / 4)
     = (Z.to_nat n_out * Z.to_nat n_in)%nat.
Proof.
  intros Hin Hout Hprod. unfold wrap, modulus.
  assert (0 <= n_in * n_out) by nia.
  rewrite Z.mul_mod_idemp_l by lia.
  rewrite (Z.mod_small (n_in * n_out)) by lia.
  replace (4 * n_in * n_out) with (n_in * n_out * 4) by lia.
  rewrite Z.mod_small by lia. split; [reflexivity|].
  rewrite Z.div_mul by lia. nia.
Qed.

(** The run of the loader, as used by the boot. *)
Lemma data_get_transform_run (addr : address_t)
    (m : machine filter_globals) :
  is_uint (size_in (g_filter (globals m))) ->
  is_uint (size_out (g_filter (globals m))) ->
  size_in (g_filter (globals m)) * size_out (g_filter (globals m)) < 2 ^ 30 ->
  (size_in (g_filter (globals m)) * size_out (g_filter (globals m)) * 4
   <= heap_free m ->
   exists m',
     data_get_transform addr m = Some (true, m')
     /\ transform (g_filter (globals m'))
        = map kbits (copy_words addr
                       (Z.to_nat (size_out (g_filter (globals m)))
                        * Z.to_nat (size_in (g_filter (globals m)))))
     /\ set_transform [] (g_filter (globals m'))
        = set_transform [] (g_filter (globals m))
     /\ delay_remaining (globals m') = delay_remaining (globals m)
     /\ g_input (globals m') = g_input (globals m)
     /\ sram m' = sram m /\ leadAp m' = leadAp m
     /\ simulation_ticks m' = simulation_ticks m
     /\ exit_code m' = exit_code m
     /\ heap_free m'
        = heap_free m
          - size_in (g_filter (globals m)) * size_out (g_filter (globals m)) * 4
     /\ forallb is_printf (new_events m m') = true)
  /\ (heap_free m
      < size_in (g_filter (globals m)) * size_out (g_filter (globals m)) * 4 ->
      data_get_transform addr m
      = Some (false, with_globals (set_g_filter (set_transform [])) m)).
Proof.
  intros Hin Hout Hprod.
  destruct (transform_words _ _ (proj1 Hin) (proj1 Hout) Hprod)
    as [Hbytes Hwords].
  split.
  - intros Hfit. unfold data_get_transform, MALLOC_FAIL_FALSE.
    unfold bind at 1, read at 1. unfold bind at 1, read at 1.
    unfold bind at 1, spin1_malloc at 1.
    rewrite Hbytes, (proj2 (Z.leb_le _ _) Hfit), Hwords.
    unfold bind at 1, update at 1. unfold bind at 1, io_printf at 1, emit at 1.
    unfold bind at 1, read at 1. unfold bind at 1.
    match goal with
    | |- context [for_uint _ _ ?m0] =>
        destruct (print_transform_at m0) as (es & Hrun & Hes)
    end.
    + exact Hin.
    + exact Hout.
    + cbn. unfold modulus. lia.
    + cbn. unfold copy_words. now rewrite !length_map, length_seq.
    + cbn [globals with_events with_globals g_filter set_g_filter
           set_transform size_out] in Hrun |- *.
      rewrite Hrun.
      eexists. split; [reflexivity|]. cbn. repeat split.
      unfold new_events. cbn. rewrite <- !app_assoc, drop_app_length.
      cbn. rewrite forallb_app, Hes. reflexivity.
  - intros Hfull. unfold data_get_transform, MALLOC_FAIL_FALSE.
    unfold bind at 1, read at 1. unfold bind at 1, read at 1.
    unfold bind at 1, spin1_malloc at 1.
    rewrite Hbytes, (proj2 (Z.leb_gt _ _) Hfull). reflexivity.
Qed.

(** X19. [data_get_transform], for sizes whose product stays below 2^30.
    When the heap holds [4 * size_in * size_out] bytes it returns [true]:
    the transform is the [accum] reading of the first
    [size_in * size_out] words of the region, the heap has shrunk by that
    many bytes, only diagnostics were printed, and nothing else has
    changed.  Otherwise it returns [false]: [g_filter.transform] has been
    assigned [NULL] (whatever it held before), and the rest of the
    globals, the heap and the kernel's record are as they were. *)
Theorem data_get_transform_result (addr : address_t)
    (m : machine filter_globals) :
  is_uint (size_in (g_filter (globals m))) ->
  is_uint (size_out (g_filter (globals m))) ->
  size_in (g_filter (globals m)) * size_out (g_filter (globals m)) < 2 ^ 30 ->
  (size_in (g_filter (globals m)) * size_out (g_filter (globals m)) * 4
   <= heap_free m ->
   exists m',
     data_get_transform addr m = Some (true, m')
     /\ transform (g_filter (globals m'))
        = map kbits (copy_words addr
                       (Z.to_nat (size_out (g_filter (globals m)))
                        * Z.to_nat (size_in (g_filter (globals m)))))
     /\ set_transform [] (g_filter (globals m'))
        = set_transform [] (g_filter (globals m))
     /\ delay_remaining (globals m') = delay_remaining (globals m)
     /\ g_input (globals m') = g_input (globals m)
     /\ sram m' = sram m /\ leadAp m' = leadAp m
     /\ simulation_ticks m' = simulation_ticks m
     /\ exit_code m' = exit_code m
     /\ heap_free m'
        = heap_free m
          - size_in (g_filter (globals m)) * size_out (g_filter (globals m)) * 4
     /\ forallb is_printf (new_events m m') = true)
  /\ (heap_free m
      < size_in (g_filter (globals m)) * size_out (g_filter (globals m)) * 4 ->
      data_get_transform addr m
      = Some (false, with_globals (set_g_filter (set_transform [])) m)).
Proof. exact (data_get_transform_run addr m). Qed.


(** A loop stops being defined at the first iteration that is not. *)
Lemma for_from_undefined {G} (body : Z -> M G unit)
    (I : nat -> machine G -> Prop) :
  forall (c i j : nat) (m : machine G),
    I i m ->
    (i <= j < i + c)%nat ->
    (forall k mk, (i <= k < j)%nat -> I k mk ->
       exists mk', body (Z.of_nat k) mk = Some (tt, mk') /\ I (S k) mk') ->
    (forall mj, I j mj -> body (Z.of_nat j) mj = None) ->
    for_from i c body m = None.
Proof.
  induction c as [|c IH]; intros i j m Hi Hj Hstep Hfail; [lia|].
  simpl. unfold bind.
  destruct (Nat.eq_dec i j) as [->|Hne].
  - now rewrite (Hfail m Hi).
  - destruct (Hstep i m ltac:(lia) Hi) as (m1 & Hb & Hi1).
    rewrite Hb. apply (IH (S i) j m1 Hi1); [lia | | exact Hfail].
    intros k mk Hk. apply Hstep. lia.
Qed.

(** X20. The byte count [size_out * sizeof(uint)] is computed in 32 bits.
    For [size_out >= 2^30] it wraps: the block obtained holds fewer than
    [size_out] keys, and the loop that prints the keys reads past its
    end, which is undefined. *)
Theorem data_get_output_keys_wraps (addr : address_t)
    (m : machine filter_globals) :
  is_uint (size_out (g_filter (globals m))) ->
  2 ^ 30 <= size_out (g_filter (globals m)) ->
  wrap (size_out (g_filter (globals m)) * 4) <= heap_free m ->
  wrap (size_out (g_filter (globals m)) * 4) / 4
  < size_out (g_filter (globals m))
  /\ data_get_output_keys addr m = None.
Proof.
  intros Hu Hbig Hfit.
  set (n := size_out (g_filter (globals m))) in *.
  assert (Hshort : wrap (n * 4) / 4 < n).
  { unfold wrap, modulus, is_uint in *. Z.div_mod_to_equations. lia. }
  split; [exact Hshort|].
  assert (Hpos : 0 <= wrap (n * 4) / 4).
  { pose proof (wrap_range (n * 4)) as Hr. unfold is_uint in Hr.
    apply Z.div_pos; lia. }
  unfold data_get_output_keys, MALLOC_FAIL_FALSE.
  unfold bind at 1, read at 1. unfold bind at 1, spin1_malloc at 1.
  fold n. rewrite (proj2 (Z.leb_le _ _) Hfit).
  unfold bind at 1, read at 1. unfold bind at 1, update at 1.
  unfold bind at 1, read at 1.
  cbn [globals with_globals g_filter set_g_filter set_keys size_out]. fold n.
  unfold bind at 1. unfold for_uint.
  match goal with
  | |- context [for_from 0 _ ?body ?m0] =>
      rewrite (for_from_undefined body
                 (fun _ mk => exists es, mk = with_events es m0)
                 (Z.to_nat n) 0 (Z.to_nat (wrap (n * 4) / 4)) m0)
  end.
  - reflexivity.
  - exists []. symmetry. apply with_events_nil.
  - lia.
  - intros k mk Hk (es & ->).
    erewrite bind_Some
      by (apply load_keys_at; cbn; unfold copy_words;
          rewrite length_map, length_seq, Nat2Z.id; lia).
    eexists. split; [reflexivity|].
    eexists. apply with_events_app.
  - intros mj (es & ->).
    unfold bind, load_keys, read, of_option. cbn.
    rewrite Nat2Z.id, lookup_ge_None_2; [reflexivity|].
    unfold copy_words. rewrite length_map, length_seq. lia.
Qed.

End FilterLoaderFacts.

(** ** The filter's boot *)

Section FilterBootFacts.
Import Word Kernel Filter FilterBoot.
Context {IF : InputFilter}.

Lemma data_system_at (addr : address_t) (m : machine filter_globals) :
  data_system addr m
  = Some ((input_filter_initialise (g_input (globals m)) (read_uint addr 0)).1,
          with_events
            [IoPrintf "[Filter] transmission delay = %d\n" [read_uint addr 3]]
            (with_globals
               (fun g =>
                  FilterGlobals
                    (set_input
                       (if (input_filter_initialise (g_input (globals m))
                              (read_uint addr 0)).1
                        then InputBuffer else NULL)
                       (set_sizes_and_timing (read_uint addr 0)
                          (read_uint addr 1) (read_uint addr 2)
                          (read_uint addr 3) (read_uint addr 4) (g_filter g)))
                    (read_uint addr 3)
                    (input_filter_initialise (g_input (globals m))
                       (read_uint addr 0)).2)
               m)).
Proof.
  unfold data_system, bind, update, read, io_printf, emit. cbn.
  destruct (input_filter_initialise (g_input (globals m)) (read_uint addr 0))
    as [[|] f']; reflexivity.
Qed.

Lemma on_g_input_at (f : input_filter_t -> bool * input_filter_t)
    (m : machine filter_globals) :
  on_g_input f m
  = Some ((f (g_input (globals m))).1,
          with_globals (set_g_input (f (g_input (globals m))).2) m).
Proof.
  unfold on_g_input, bind, read, update. cbn.
  destruct (f (g_input (globals m))) as [ok g']. reflexivity.
Qed.

(** The five loaders, run forward, for sizes in range. *)
Lemma boot_loaded `{!InputFilterWidth} (m : machine filter_globals) :
  read_uint (sram m 1) 1 < 2 ^ 30 ->
  read_uint (sram m 1) 0 * read_uint (sram m 1) 1 < 2 ^ 30 ->
  exists ok m1,
    loaded (sram m) [1; 2; 3; 4; 5] m ok m1
    /\ (ok = true -> booted m m1).
Proof.
  intros Hout Hprod.
  pose proof (wrap_range (sram m 1 0%nat)) as Hu0.
  pose proof (wrap_range (sram m 1 1%nat)) as Hu1.
  fold (read_uint (sram m 1) 0) in Hu0. fold (read_uint (sram m 1) 1) in Hu1.
  (* region 1 *)
  pose proof (data_system_at (sram m 1) (with_events [RegionStart 1] m)) as S1.
  cbn [globals with_events] in S1.
  destruct (input_filter_initialise (g_input (globals m))
              (read_uint (sram m 1) 0)) as [ok1 f1] eqn:Hinit.
  cbn [fst snd] in S1.
  destruct ok1.
  2:{ eexists false, _. split; [apply loaded_failure; exact S1 | discriminate]. }
  pose proof (initialise_width _ _ _ Hinit) as Hwidth.
  match type of S1 with _ = Some (_, ?M) => set (m1 := M) in * end.
  (* region 2 *)
  destruct (data_get_output_keys_run (sram m 2)
              (with_events [RegionStart 2] m1)) as [K2ok K2fail].
  { cbn. unfold is_uint in Hu1. lia. }
  cbn [globals with_events heap_free] in K2ok, K2fail.
  destruct (Z.le_gt_cases
              (size_out (g_filter (globals m1)) * 4) (heap_free m1))
    as [Hfit2|Hfull2].
  2:{ eexists false, _. split; [|discriminate].
      eapply loaded_next; [exact S1|].
      apply loaded_failure. apply K2fail. lia. }
  destruct (K2ok Hfit2)
    as (m2 & S2 & Hkeys & Hsame2 & Hd2 & Hg2 & Hs2 & Hl2 & Ht2 & He2
        & Hheap2 & Hev2).
  (* regions 3 and 4 *)
  pose proof (on_g_input_at
                (fun g => input_filter_get_filters g (sram m 3))
                (with_events [RegionStart 3] m2)) as S3.
  cbn [globals with_events] in S3.
  destruct ((input_filter_get_filters (g_input (globals m2)) (sram m 3)).1)
    eqn:Hok3.
  2:{ eexists false, _. split; [|discriminate].
      eapply loaded_next; [exact S1|]. eapply loaded_next; [exact S2|].
      apply loaded_failure. exact S3. }
  match type of S3 with _ = Some (_, ?M) => set (m3 := M) in * end.
  pose proof (on_g_input_at
                (fun g => input_filter_get_filter_routes g (sram m 4))
                (with_events [RegionStart 4] m3)) as S4.
  cbn [globals with_events] in S4.
  destruct ((input_filter_get_filter_routes (g_input (globals m3))
               (sram m 4)).1) eqn:Hok4.
  2:{ eexists false, _. split; [|discriminate].
      eapply loaded_next; [exact S1|]. eapply loaded_next; [exact S2|].
      eapply loaded_next; [exact S3|].
      apply loaded_failure. exact S4. }
  match type of S4 with _ = Some (_, ?M) => set (m4 := M) in * end.
  (* region 5 *)
  assert (Hp4 : set_keys [] (g_filter (globals m4))
                = set_keys [] (g_filter (globals m1))).
  { exact Hsame2. }
  assert (Hin4 : size_in (g_filter (globals m4)) = read_uint (sram m 1) 0).
  { apply (f_equal size_in) in Hp4. exact Hp4. }
  assert (Hout4 : size_out (g_filter (globals m4)) = read_uint (sram m 1) 1).
  { apply (f_equal size_out) in Hp4. exact Hp4. }
  destruct (data_get_transform_run (sram m 5)
              (with_events [RegionStart 5] m4)) as [T5ok T5fail].
  { cbn [globals with_events]. rewrite Hin4. exact Hu0. }
  { cbn [globals with_events]. rewrite Hout4. exact Hu1. }
  { cbn [globals with_events]. rewrite Hin4, Hout4. exact Hprod. }
  cbn [globals with_events heap_free] in T5ok, T5fail.
  rewrite Hin4, Hout4 in T5ok, T5fail.
  destruct (Z.le_gt_cases
              (read_uint (sram m 1) 0 * read_uint (sram m 1) 1 * 4)
              (heap_free m4)) as [Hfit5|Hfull5].
  2:{ eexists false, _. split; [|discriminate].
      eapply loaded_next; [exact S1|]. eapply loaded_next; [exact S2|].
      eapply loaded_next; [exact S3|]. eapply loaded_next; [exact S4|].
      apply loaded_failure. apply T5fail. lia. }
  destruct (T5ok Hfit5)
    as (m5 & S5 & Htr & Hsame5 & Hd5 & Hg5 & Hs5 & Hl5 & Ht5 & He5
        & Hheap5 & Hev5).
  exists true, m5. split.
  { eapply loaded_next; [exact S1|]. eapply loaded_next; [exact S2|].
    eapply loaded_next; [exact S3|]. eapply loaded_next; [exact S4|].
    eapply loaded_next; [exact S5|]. apply loaded_all. }
  intros _.
  assert (Hp5 : set_transform [] (g_filter (globals m5))
                = set_transform [] (g_filter (globals m4))) by exact Hsame5.
  assert (Hk5 : keys (g_filter (globals m5)) = keys (g_filter (globals m2))).
  { apply (f_equal keys) in Hp5. exact Hp5. }
  assert (Hpar : set_keys [] (set_transform [] (g_filter (globals m5)))
                 = set_keys [] (set_transform [] (g_filter (globals m1)))).
  { rewrite Hp5. change (g_filter (globals m4)) with (g_filter (globals m2)).
    apply (f_equal (set_transform [])) in Hsame2. exact Hsame2. }
  split.
  - apply (f_equal size_in) in Hpar. exact Hpar.
  - apply (f_equal size_out) in Hpar. exact Hpar.
  - apply (f_equal machine_timestep) in Hpar. exact Hpar.
  - apply (f_equal transmission_delay) in Hpar. exact Hpar.
  - apply (f_equal interpacket_pause) in Hpar. exact Hpar.
  - rewrite Hd5. change (delay_remaining (globals m4))
      with (delay_remaining (globals m2)). rewrite Hd2. reflexivity.
  - rewrite Hk5, Hkeys. reflexivity.
  - rewrite Htr. reflexivity.
  - apply (f_equal input) in Hpar. exact Hpar.
  - rewrite Hg5. cbn [m4 m3 globals with_globals with_events set_g_input g_input].
    rewrite get_filter_routes_width, get_filters_width, Hg2. exact Hwidth.
  - apply (f_equal output) in Hpar. exact Hpar.
  - rewrite Hheap5. change (heap_free m4) with (heap_free m2).
    rewrite Hheap2. cbn. lia.
  - rewrite Hs5. cbn [m4 m3 sram with_events with_globals].
    rewrite Hs2. reflexivity.
  - rewrite Hl5. cbn [m4 m3 leadAp with_events with_globals].
    rewrite Hl2. reflexivity.
  - rewrite Ht5. cbn [m4 m3 simulation_ticks with_events with_globals].
    rewrite Ht2. reflexivity.
  - rewrite He5. cbn [m4 m3 exit_code with_events with_globals].
    rewrite He2. reflexivity.
Qed.


Lemma booted_well_formed (m m1 : machine filter_globals) :
  booted m m1 ->
  read_uint (sram m 1) 0 * read_uint (sram m 1) 1 < 2 ^ 30 ->
  length (output (g_filter (globals m))) = Z.to_nat (read_uint (sram m 1) 1) ->
  well_formed m1.
Proof.
  intros [] Hprod Hlen.
  split.
  - rewrite booted_size_in0. apply wrap_range.
  - rewrite booted_size_out0. apply wrap_range.
  - rewrite booted_size_in0, booted_size_out0. unfold modulus. lia.
  - rewrite booted_keys0, booted_size_out0. unfold copy_words.
    now rewrite length_map, length_seq.
  - rewrite booted_output0, booted_size_out0. exact Hlen.
  - rewrite booted_transform0, booted_size_in0, booted_size_out0.
    unfold copy_words. now rewrite !length_map, length_seq.
  - exact booted_input0.
  - rewrite booted_input_vector0, booted_size_in0. reflexivity.
  - rewrite booted_delay_remaining0. apply wrap_range.
  - rewrite booted_transmission_delay0. apply wrap_range.
Qed.

Lemma booted_with_events (m m1 : machine filter_globals) (es : list event) :
  booted m m1 -> booted m (with_events es m1).
Proof. intros []. split; assumption. Qed.

(** The boot as a whole, for sizes in range. *)
Lemma boot_outcome `{!InputFilterWidth} (m : machine filter_globals) :
  read_uint (sram m 1) 1 < 2 ^ 30 ->
  read_uint (sram m 1) 0 * read_uint (sram m 1) 1 < 2 ^ 30 ->
  exists m' es,
    c_main m = Some (tt, m')
    /\ existsb is_run_event es = false
    /\ packets es = []
    /\ ((new_events m m'
         = es ++ [IoPrintf "[Filter] Failed to initialise.\n" []]
         /\ exists k, (1 <= k <= 5)%nat /\ regions es = take k [1; 2; 3; 4; 5])
        \/ (new_events m m'
            = es ++ (if leadAp m then [LeadAppConfigured] else [])
                 ++ [SetTimerTick (read_uint (sram m 1) 2);
                     CallbackOn MCPL_PACKET_RECEIVED "mcpl_callback" (-1);
                     CallbackOn TIMER_TICK "filter_update" 2;
                     Start]
            /\ regions es = [1; 2; 3; 4; 5]
            /\ booted m m')).
Proof.
  intros Hout Hprod.
  destruct (boot_loaded m Hout Hprod) as (ok & m1 & Hload & Hbooted).
  rewrite (c_main_of_loaded m ok m1 Hload).
  destruct (loaded_trace _ _ _ _ _ Hload) as (k & es & Htr & Hr & Hk & Hx & Hp).
  destruct ok.
  - specialize (Hbooted eq_refl).
    pose proof (booted_leadAp _ _ Hbooted) as Hlead.
    pose proof (booted_machine_timestep _ _ Hbooted) as Hdt.
    unfold bind at 1, get_leadAp at 1. cbv beta iota. rewrite Hlead.
    destruct (leadAp m);
      (eexists _, es; split; [reflexivity|];
       split; [exact Hx|]; split; [exact Hp|]; right;
       cbn [bind system_lead_app_configured emit read spin1_set_timer_tick
            spin1_callback_on spin1_start ret];
       split;
       [ apply new_events_app; cbn; rewrite Htr, Hdt, <- !app_assoc;
         reflexivity
       | split; [rewrite Hr, Hk; reflexivity|];
         repeat apply booted_with_events; exact Hbooted ]).
  - eexists _, es. split; [reflexivity|].
    split; [exact Hx|]. split; [exact Hp|]. left. split.
    + apply new_events_app. cbn. rewrite Htr, <- app_assoc. reflexivity.
    + exists k. split; [simpl in Hk; lia | exact Hr].
Qed.


Lemma run_event_covers_start (es : list event) :
  existsb is_run_event es = false -> existsb is_start es = false.
Proof.
  induction es as [|e es IH]; [reflexivity|].
  cbn. intros [He Hes]%orb_false_elim. rewrite (IH Hes).
  destruct e; cbn in *; congruence.
Qed.


(** X22. Boot and run together.  After a boot that reached
    [spin1_start], with a transmission delay [N >= 1] in word 3 of region
    1 and an output array of [size_out] entries, the timer loop sends on
    the ticks [N, 2N, ...] (counted from the first tick) one packet per
    output dimension, keyed by the words of region 2 in order, and
    nothing on the other ticks. *)
Theorem filter_boot_then_run `{FP : !FixedPoint} `{!InputFilterWidth}
    (m m' : machine filter_globals) (t0 : Z)
    (arrivals : list (list (Z * Z))) :
  read_uint (sram m 1) 1 < 2 ^ 30 ->
  read_uint (sram m 1) 0 * read_uint (sram m 1) 1 < 2 ^ 30 ->
  1 <= read_uint (sram m 1) 3 ->
  length (output (g_filter (globals m))) = Z.to_nat (read_uint (sram m 1) 1) ->
  c_main m = Some (tt, m') ->
  existsb is_start (new_events m m') = true ->
  exists reports m'',
    run_ticks t0 arrivals m' = Some (reports, m'')
    /\ forall (i : nat) (r : tick_report),
         reports !! i = Some r ->
         sent r
         = if Z.of_nat (S i) mod read_uint (sram m 1) 3 =? 0
           then zip (copy_words (sram m 2)
                       (Z.to_nat (read_uint (sram m 1) 1)))
                    (map bitsk (output_after r))
           else [].
Proof.
  intros Hout Hprod HN Hlen Hrun Hstart.
  destruct (boot_outcome m Hout Hprod)
    as (m1 & es & Hrun1 & Hx & Hp & [[Hev _] | (Hev & Hr & Hb)]).
  - rewrite Hrun in Hrun1. injection Hrun1 as <-.
    rewrite Hev, existsb_app, (run_event_covers_start es Hx) in Hstart.
    discriminate Hstart.
  - rewrite Hrun in Hrun1. injection Hrun1 as <-.
    pose proof (booted_well_formed m m' Hb Hprod Hlen) as Hwf.
    destruct (run_ticks_schedule (read_uint (sram m 1) 3)
                (keys (g_filter (globals m'))) arrivals HN t0 m' Hwf
                (booted_transmission_delay _ _ Hb) eq_refl)
      as (reports & m'' & Hticks & Hsent).
    { rewrite (booted_delay_remaining _ _ Hb). lia. }
    exists reports, m''. split; [exact Hticks|].
    intros i r Hi. destruct (Hsent i r Hi) as [Hs _].
    rewrite Hs, (booted_delay_remaining _ _ Hb), (booted_keys _ _ Hb).
    replace (Z.of_nat i + 1
             + (read_uint (sram m 1) 3 - read_uint (sram m 1) 3))
      with (Z.of_nat (S i)) by lia.
    reflexivity.
Qed.

End FilterBootFacts.

(** ** What the filter's boot never touches *)

Section FrameFacts.
Import Kernel Frame.
Context {G X : Type} (view : G -> X).

Lemma keeps_ret {A} (a : A) : keeps view (@ret G A a).
Proof. intros m a' m' H. injection H as _ <-. reflexivity. Qed.

Lemma keeps_undefined {A} : keeps view (@undefined G A).
Proof. intros m a m' H. discriminate H. Qed.

Lemma keeps_bind {A B} (c : M G A) (k : A -> M G B) :
  keeps view c -> (forall a, keeps view (k a)) -> keeps view (bind c k).
Proof.
  intros Hc Hk m b m2 H. unfold bind in H.
  destruct (c m) as [[a m1]|] eqn:Hcm; [|discriminate].
  rewrite (Hk a _ _ _ H). eapply Hc. eassumption.
Qed.

Lemma keeps_read {A} (f : G -> A) : keeps view (read f).
Proof. intros m a m' H. injection H as _ <-. reflexivity. Qed.

Lemma keeps_update (f : G -> G) :
  (forall g, view (f g) = view g) -> keeps view (update f).
Proof. intros Hf m a m' H. injection H as _ <-. cbn. apply Hf. Qed.

Lemma keeps_of_option {A} (o : option A) : keeps view (@of_option G A o).
Proof. destruct o; [apply keeps_ret | apply keeps_undefined]. Qed.

Lemma keeps_emit (e : event) : keeps view (@emit G e).
Proof. intros m a m' H. injection H as _ <-. reflexivity. Qed.

Lemma keeps_spin1_malloc (bytes : Z) : keeps view (@spin1_malloc G bytes).
Proof.
  intros m a m' H. unfold spin1_malloc in H.
  destruct (bytes <=? heap_free m); injection H as _ <-; reflexivity.
Qed.

Lemma keeps_system_load_sram : keeps view (@system_load_sram G).
Proof. intros m a m' H. injection H as _ <-. reflexivity. Qed.

Lemma keeps_get_leadAp : keeps view (@get_leadAp G).
Proof. intros m a m' H. injection H as _ <-. reflexivity. Qed.

Lemma keeps_for_uint (n : Z) (body : Z -> M G unit) :
  (forall k, keeps view (body k)) -> keeps view (for_uint n body).
Proof.
  intros Hb. unfold for_uint. generalize 0%nat.
  induction (Z.to_nat n) as [|c IH]; intros i.
  - apply keeps_ret.
  - simpl. apply keeps_bind; [apply Hb | intros _; apply IH].
Qed.

End FrameFacts.

Section FilterFrameFacts.
Import Word Kernel Frame Filter.
Context {IF : InputFilter}.

Ltac keeps_step :=
  first
    [ apply keeps_ret | apply keeps_undefined | apply keeps_read
    | apply keeps_of_option | apply keeps_emit | apply keeps_spin1_malloc
    | apply keeps_system_load_sram | apply keeps_get_leadAp
    | apply keeps_update; intros ?; reflexivity
    | apply keeps_bind; [|intros ?]
    | apply keeps_for_uint; intros ?
    | match goal with
      | |- keeps _ (if ?b then _ else _) => destruct b
      | |- keeps _ (match ?p with NULL => _ | InputBuffer => _ end) =>
          destruct p
      | |- keeps _ (let '(_, _) := ?p in _) => destruct p
      end ].

(** X23. [c_main] never touches [g_filter.output]: whatever the
    configuration, the heap and the library do, and whether the boot
    fails or starts, the output array after [c_main] is the one before
    it.  (No loader allocates it: [filter_update] writes to whatever
    [g_filter.output] was before the boot.) *)
Theorem filter_c_main_keeps_output (m m' : machine filter_globals) :
  c_main m = Some (tt, m') ->
  output (g_filter (globals m')) = output (g_filter (globals m)).
Proof.
  revert m m'.
  assert (H : keeps (fun g => output (g_filter g)) c_main).
  { unfold c_main, not_or, not_, region_start, data_system,
      data_get_output_keys, data_get_transform, on_g_input,
      MALLOC_FAIL_FALSE, load_keys, load_transform, io_printf,
      system_lead_app_configured, spin1_set_timer_tick, spin1_callback_on,
      spin1_start.
    repeat keeps_step. }
  intros m m' Hrun. exact (H m tt m' Hrun).
Qed.

End FilterFrameFacts.

Section FilterFrameExamples.
Import Word Kernel Filter FilterBootExamples.

Lemma filter_c_main_keeps_output_witness :
  exists m',
    @c_main plain_input_filter (sized_booting_machine 65536) = Some (tt, m')
    /\ output (g_filter (globals m')) = [0].
Proof.
  assert (Hboot : exists m',
            @c_main plain_input_filter (sized_booting_machine 65536)
            = Some (tt, m')).
  { eexists. vm_compute. reflexivity. }
  destruct Hboot as (m' & Hrun). exists m'. split; [exact Hrun|].
  exact (@filter_c_main_keeps_output plain_input_filter
           (sized_booting_machine 65536) m' Hrun).
Defined.

End FilterFrameExamples.

(** ** The filter's extra properties on concrete machines *)

Section FilterMoreExamples.
Import Word Kernel Filter FilterBoot FilterBootExamples.

Lemma inputless_machine_well_formed :
  @well_formed plain_input_filter inputless_machine.
Proof.
  split; simpl; try reflexivity; unfold is_uint, modulus; lia.
Qed.

Lemma filter_update_keeps_configuration_witness :
  exists m',
    @filter_update accum_arith plain_input_filter 1 0 (example_machine 1 5)
    = Some (tt, m')
    /\ keys (g_filter (globals m')) = [7]
    /\ transform (g_filter (globals m')) = [32768; -32768]
    /\ heap_free m' = 65536.
Proof.
  destruct (@filter_update_keeps_configuration accum_arith plain_input_filter
              plain_input_filter_width 1 0 (example_machine 1 5))
    as (m' & Hrun & _ & Hcfg & _ & _ & _ & Hheap & _).
  - apply example_machine_well_formed. unfold is_uint, modulus. lia.
  - exists m'. split; [exact Hrun|].
    split; [exact (f_equal keys Hcfg)|].
    split; [exact (f_equal transform Hcfg) | exact Hheap].
Defined.

Lemma transmission_pauses_after_every_packet_witness :
  exists m',
    @filter_update accum_arith plain_input_filter 1 0 (example_machine 1 5)
    = Some (tt, m')
    /\ last (new_events (example_machine 1 5) m') = Some (DelayUs 0).
Proof.
  destruct (@transmission_pauses_after_every_packet accum_arith
              plain_input_filter plain_input_filter_width 1 0
              (example_machine 1 5))
    as (m' & Hrun & _ & Hlast).
  - apply example_machine_well_formed. unfold is_uint, modulus. lia.
  - reflexivity.
  - exists m'. split; [exact Hrun|]. apply Hlast. simpl. lia.
Defined.

Lemma filter_update_without_input_witness :
  exists m',
    @filter_update accum_arith plain_input_filter 1 0 inputless_machine
    = Some (tt, m')
    /\ output (g_filter (globals m')) = [0; 0].
Proof.
  destruct (@filter_update_without_input accum_arith plain_input_filter
              plain_input_filter_width 1 0 inputless_machine)
    as (m' & Hrun & Hout).
  - exact inputless_machine_well_formed.
  - reflexivity.
  - exists m'. split; [exact Hrun | exact Hout].
Defined.

Lemma silent_until_counter_expires_witness :
  exists reports m',
    @run_ticks accum_arith plain_input_filter 1 [[]; []; []]
      (example_machine 0 UINT32_MAX)
    = Some (reports, m')
    /\ Forall (fun r => sent r = []) reports
    /\ packets (new_events (example_machine 0 UINT32_MAX) m') = [].
Proof.
  destruct (@silent_until_counter_expires accum_arith plain_input_filter
              plain_input_filter_width 1 [[]; []; []]
              (example_machine 0 UINT32_MAX))
    as (reports & m' & Hrun & Hall & Hpk).
  - apply example_machine_well_formed. unfold is_uint, modulus. lia.
  - vm_compute. discriminate.
  - exists reports, m'. auto.
Defined.

Lemma data_get_output_keys_result_witness :
  (exists m',
     @data_get_output_keys plain_input_filter (fun _ => 9)
       (example_machine 1 5)
     = Some (true, m')
     /\ keys (g_filter (globals m')) = [9]
     /\ heap_free m' = 65532)
  /\ (exists m',
        @data_get_output_keys plain_input_filter (fun _ => 9)
          starved_example_machine
        = Some (false, m')
        /\ keys (g_filter (globals starved_example_machine)) = [7]
        /\ keys (g_filter (globals m')) = []
        /\ heap_free m' = 3).
Proof.
  split.
  - destruct (@data_get_output_keys_result plain_input_filter (fun _ => 9)
                (example_machine 1 5))
      as [Hfit _].
    + simpl. lia.
    + destruct Hfit
        as (m' & Hrun & Hkeys & _ & _ & _ & _ & _ & _ & _ & Hheap & _).
      * simpl. lia.
      * exists m'. split; [exact Hrun|]. split; [exact Hkeys | exact Hheap].
  - destruct (@data_get_output_keys_result plain_input_filter (fun _ => 9)
                starved_example_machine)
      as [_ Hfull].
    + simpl. lia.
    + eexists. split; [apply Hfull; simpl; lia|].
      split; [reflexivity|]. split; reflexivity.
Defined.

Lemma data_get_transform_result_witness :
  (exists m',
     @data_get_transform plain_input_filter (fun _ => 32768)
       (example_machine 1 5)
     = Some (true, m')
     /\ transform (g_filter (globals m')) = [32768; 32768]
     /\ heap_free m' = 65528)
  /\ (exists m',
        @data_get_transform plain_input_filter (fun _ => 32768)
          starved_example_machine
        = Some (false, m')
        /\ transform (g_filter (globals starved_example_machine))
           = [32768; -32768]
        /\ transform (g_filter (globals m')) = []
        /\ heap_free m' = 3).
Proof.
  split.
  - destruct (@data_get_transform_result plain_input_filter (fun _ => 32768)
                (example_machine 1 5))
      as [Hfit _].
    + unfold is_uint, modulus. simpl. lia.
    + unfold is_uint, modulus. simpl. lia.
    + simpl. lia.
    + destruct Hfit
        as (m' & Hrun & Htr & _ & _ & _ & _ & _ & _ & _ & Hheap & _).
      * simpl. lia.
      * exists m'. split; [exact Hrun|]. split; [exact Htr | exact Hheap].
  - destruct (@data_get_transform_result plain_input_filter (fun _ => 32768)
                starved_example_machine)
      as [_ Hfull].
    + unfold is_uint, modulus. simpl. lia.
    + unfold is_uint, modulus. simpl. lia.
    + simpl. lia.
    + eexists. split; [apply Hfull; simpl; lia|].
      split; [reflexivity|]. split; reflexivity.
Defined.

Lemma data_get_output_keys_wraps_witness :
  @data_get_output_keys plain_input_filter (fun _ => 9) oversized_machine
  = None.
Proof.
  destruct (@data_get_output_keys_wraps plain_input_filter (fun _ => 9)
              oversized_machine)
    as [_ Hrun].
  - unfold is_uint, modulus. simpl. lia.
  - simpl. lia.
  - vm_compute. discriminate.
  - exact Hrun.
Defined.


Lemma filter_boot_then_run_witness :
  exists m' reports m'',
    @c_main plain_input_filter (sized_booting_machine 65536) = Some (tt, m')
    /\ @run_ticks accum_arith plain_input_filter 0 [[]; []; []; []] m'
       = Some (reports, m'')
    /\ map sent reports = [[]; [(7, 0)]; []; [(7, 0)]].
Proof.
  assert (Hboot : exists m',
            @c_main plain_input_filter (sized_booting_machine 65536)
            = Some (tt, m')
            /\ existsb is_start
                 (new_events (sized_booting_machine 65536) m') = true).
  { eexists. split; vm_compute; reflexivity. }
  destruct Hboot as (m' & Hrun & Hstart).
  destruct (@filter_boot_then_run plain_input_filter accum_arith
              plain_input_filter_width (sized_booting_machine 65536) m' 0
              [[]; []; []; []])
    as (reports & m'' & Hticks & _).
  - vm_compute. reflexivity.
  - vm_compute. reflexivity.
  - vm_compute. discriminate.
  - reflexivity.
  - exact Hrun.
  - exact Hstart.
  - exists m', reports, m''. split; [exact Hrun|]. split; [exact Hticks|].
    vm_compute in Hrun. injection Hrun as <-.
    vm_compute in Hticks. injection Hticks as <- _. reflexivity.
Defined.

End FilterMoreExamples.

(** ** The first harness: what [initialise_buffers] gets from the heap *)

Section HarnessFacts.
Import Word Kernel Harness.

Lemma malloc_into_at {A} (p : pointer_name) (bytes : Z)
    (k : unit -> M harness_globals A) (m : machine harness_globals) :
  bind (malloc_into p bytes) k m = k tt (serve m (p, bytes)).
Proof.
  unfold malloc_into, serve, bind, spin1_malloc, update. cbn [fst snd].
  destruct (bytes <=? heap_free m); reflexivity.
Qed.

Lemma malloc_into_last (p : pointer_name) (bytes : Z) (m : machine harness_globals) :
  malloc_into p bytes m = Some (tt, serve m (p, bytes)).
Proof.
  unfold malloc_into, serve, bind, spin1_malloc, update. cbn [fst snd].
  destruct (bytes <=? heap_free m); reflexivity.
Qed.

Lemma read_at {G A B} (f : G -> A) (k : A -> M G B) (m : machine G) :
  bind (read f) k m = k (f (globals m)) m.
Proof. reflexivity. Qed.

Lemma serve_sizes (m : machine harness_globals) (r : pointer_name * Z) :
  n_input_dimensions (globals (serve m r)) = n_input_dimensions (globals m)
  /\ n_output_dimensions (globals (serve m r))
     = n_output_dimensions (globals m)
  /\ n_neurons (globals (serve m r)) = n_neurons (globals m).
Proof. unfold serve. destruct (r.2 <=? heap_free m); auto. Qed.

Lemma initialise_buffers_serves (m : machine harness_globals) :
  initialise_buffers m
  = Some (tt, fold_left serve (requests (globals m)) m).
Proof.
  unfold initialise_buffers, requests. cbn [fold_left].
  repeat (rewrite ?read_at, ?malloc_into_at;
          repeat match goal with
          | |- context [n_input_dimensions (globals (serve ?m ?r))] =>
              rewrite (proj1 (serve_sizes m r))
          | |- context [n_output_dimensions (globals (serve ?m ?r))] =>
              rewrite (proj1 (proj2 (serve_sizes m r)))
          | |- context [n_neurons (globals (serve ?m ?r))] =>
              rewrite (proj2 (proj2 (serve_sizes m r)))
          end).
  rewrite malloc_into_last. reflexivity.
Qed.

Lemma serve_pointer (m : machine harness_globals) (r : pointer_name * Z)
    (q : pointer_name) :
  q <> r.1 -> pointer (globals (serve m r)) q = pointer (globals m) q.
Proof.
  intros Hq. unfold serve.
  destruct (r.2 <=? heap_free m); cbn; destruct (decide (q = r.1));
    congruence.
Qed.

Lemma fold_serve_pointer (rs : list (pointer_name * Z)) :
  forall (m : machine harness_globals) (q : pointer_name),
    q ∉ map fst rs ->
    pointer (globals (fold_left serve rs m)) q = pointer (globals m) q.
Proof.
  induction rs as [|r rs IH]; intros m q Hq; [reflexivity|].
  cbn [fold_left]. cbn in Hq. apply not_elem_of_cons in Hq as [Hne Hq].
  rewrite IH by exact Hq. now apply serve_pointer.
Qed.

Lemma fold_serve_rest (rs : list (pointer_name * Z)) :
  forall m : machine harness_globals,
    sram (fold_left serve rs m) = sram m
    /\ leadAp (fold_left serve rs m) = leadAp m
    /\ simulation_ticks (fold_left serve rs m) = simulation_ticks m
    /\ exit_code (fold_left serve rs m) = exit_code m
    /\ trace (fold_left serve rs m) = trace m
    /\ n_input_dimensions (globals (fold_left serve rs m))
       = n_input_dimensions (globals m)
    /\ n_output_dimensions (globals (fold_left serve rs m))
       = n_output_dimensions (globals m)
    /\ n_neurons (globals (fold_left serve rs m)) = n_neurons (globals m).
Proof.
  induction rs as [|r rs IH]; intros m; [repeat split|].
  cbn [fold_left].
  destruct (IH (serve m r)) as (-> & -> & -> & -> & -> & -> & -> & ->).
  unfold serve. destruct (r.2 <=? heap_free m); repeat split.
Qed.

(** What a run of requests leaves: every pointer named is [NULL] or the
    block asked for, and the heap has shrunk by what the pointers hold. *)
Lemma fold_serve_accounts (rs : list (pointer_name * Z)) :
  forall m : machine harness_globals,
    NoDup (map fst rs) ->
    let m' := fold_left serve rs m in
    (forall p bytes, (p, bytes) ∈ rs ->
       pointer (globals m') p = NULL \/ pointer (globals m') p = Block bytes)
    /\ heap_free m' = heap_free m - held_by (globals m') rs.
Proof.
  induction rs as [|r rs IH]; intros m Hnd; cbn zeta.
  - split; [intros p bytes H; inversion H | cbn; lia].
  - cbn [fold_left]. cbn [map] in Hnd. apply NoDup_cons in Hnd as [Hr Hnd].
    destruct (IH (serve m r) Hnd) as [Hptr Hheap]. cbn zeta in Hptr, Hheap.
    assert (Hr1 : pointer (globals (fold_left serve rs (serve m r))) r.1
                  = pointer (globals (serve m r)) r.1)
      by now apply fold_serve_pointer.
    split.
    + intros p bytes Hin. apply elem_of_cons in Hin as [Heq | Hin].
      * subst r. cbn [fst] in Hr1. rewrite Hr1. unfold serve. cbn [fst snd].
        destruct (bytes <=? heap_free m) eqn:Hfit; cbn;
          destruct (decide (p = p)); try congruence; auto.
      * exact (Hptr p bytes Hin).
    + rewrite Hheap. unfold held_by. cbn [map foldr]. rewrite Hr1.
      unfold serve. destruct (r.2 <=? heap_free m); cbn;
        destruct (decide (r.1 = r.1)); try congruence; cbn; lia.
Qed.

(** A request that does not fit the heap at the start is never served. *)
Lemma fold_serve_too_big (rs : list (pointer_name * Z)) :
  forall (m : machine harness_globals) (p : pointer_name) (bytes : Z),
    NoDup (map fst rs) ->
    Forall (fun r => 0 <= r.2) rs ->
    (p, bytes) ∈ rs ->
    heap_free m < bytes ->
    pointer (globals (fold_left serve rs m)) p = NULL.
Proof.
  induction rs as [|r rs IH]; intros m p bytes Hnd Hpos Hin Hbig;
    [inversion Hin|].
  cbn [fold_left]. cbn [map] in Hnd. apply NoDup_cons in Hnd as [Hr Hnd].
  apply Forall_cons in Hpos as [Hr0 Hpos].
  apply elem_of_cons in Hin as [Heq | Hin].
  - subst r. cbn [fst] in Hr. rewrite fold_serve_pointer by exact Hr.
    unfold serve. cbn [fst snd].
    rewrite (proj2 (Z.leb_gt _ _) Hbig). cbn.
    destruct (decide (p = p)); congruence.
  - apply (IH (serve m r) p bytes Hnd Hpos Hin).
    unfold serve. destruct (r.2 <=? heap_free m); cbn; lia.
Qed.

(** Requests that fit together are all served. *)
Lemma fold_serve_all (rs : list (pointer_name * Z)) :
  forall (m : machine harness_globals) (p : pointer_name) (bytes : Z),
    NoDup (map fst rs) ->
    Forall (fun r => 0 <= r.2) rs ->
    asked rs <= heap_free m ->
    (p, bytes) ∈ rs ->
    pointer (globals (fold_left serve rs m)) p = Block bytes.
Proof.
  induction rs as [|r rs IH]; intros m p bytes Hnd Hpos Hfit Hin;
    [inversion Hin|].
  cbn [fold_left]. cbn [map] in Hnd. apply NoDup_cons in Hnd as [Hr Hnd].
  apply Forall_cons in Hpos as [Hr0 Hpos].
  unfold asked in Hfit. cbn [map foldr] in Hfit.
  fold (asked rs) in Hfit.
  assert (Hrest : 0 <= asked rs).
  { clear -Hpos. induction Hpos; unfold asked in *; cbn; lia. }
  assert (Hserved : serve m r
                    = Machine (assign r.1 (Block r.2) (globals m)) (sram m)
                        (leadAp m) (simulation_ticks m) (heap_free m - r.2)
                        (exit_code m) (trace m)).
  { unfold serve. rewrite (proj2 (Z.leb_le _ _)) by lia. reflexivity. }
  apply elem_of_cons in Hin as [Heq | Hin].
  - subst r. cbn [fst snd] in *. rewrite fold_serve_pointer by exact Hr.
    rewrite Hserved. cbn. destruct (decide (p = p)); congruence.
  - apply (IH (serve m r) p bytes Hnd Hpos); [|exact Hin].
    rewrite Hserved. cbn. lia.
Qed.

Lemma requests_names (g : harness_globals) :
  map fst (requests g)
  = [encoders; decoders; output_keys; i_bias; ibuf_accumulator;
     ibuf_filtered; v_ref_voltage; decoded_values].
Proof. reflexivity. Qed.

Lemma requests_NoDup (g : harness_globals) : NoDup (map fst (requests g)).
Proof.
  rewrite requests_names. apply NoDup_ListNoDup.
  repeat (constructor; [cbn; intuition discriminate|]). constructor.
Qed.

Lemma requests_range (g : harness_globals) :
  Forall (fun r => 0 <= r.2) (requests g).
Proof.
  unfold requests.
  repeat (apply Forall_cons; split; [apply wrap_range|]). constructor.
Qed.

(** X24. [initialise_buffers] checks none of its eight allocations and
    reports nothing: it always returns, with no kernel call recorded and
    the sizes unchanged.  Afterwards every one of the eight pointers is
    [NULL] or the block of the byte count asked for (computed in 32
    bits), and the heap has shrunk by exactly what the eight pointers
    hold. *)
Theorem initialise_buffers_accounts (m : machine harness_globals) :
  exists m',
    initialise_buffers m = Some (tt, m')
    /\ trace m' = trace m /\ exit_code m' = exit_code m
    /\ n_input_dimensions (globals m') = n_input_dimensions (globals m)
    /\ n_output_dimensions (globals m') = n_output_dimensions (globals m)
    /\ n_neurons (globals m') = n_neurons (globals m)
    /\ (forall p bytes, (p, bytes) ∈ requests (globals m) ->
          pointer (globals m') p = NULL
          \/ pointer (globals m') p = Block bytes)
    /\ heap_free m'
       = heap_free m - held_by (globals m') (requests (globals m)).
Proof.
  exists (fold_left serve (requests (globals m)) m).
  split; [apply initialise_buffers_serves|].
  destruct (fold_serve_rest (requests (globals m)) m)
    as (_ & _ & _ & He & Ht & Hi & Ho & Hn).
  destruct (fold_serve_accounts (requests (globals m)) m
              (requests_NoDup (globals m))) as [Hptr Hheap].
  repeat split; assumption.
Qed.

(** X25. A failed allocation goes unnoticed.  A pointer whose request
    exceeds the heap found at entry is [NULL] after [initialise_buffers],
    which returns all the same and has made no kernel call: no message
    is printed and nothing is stopped. *)
Theorem initialise_buffers_leaves_null (m : machine harness_globals)
    (p : pointer_name) (bytes : Z) :
  (p, bytes) ∈ requests (globals m) ->
  heap_free m < bytes ->
  exists m',
    initialise_buffers m = Some (tt, m')
    /\ pointer (globals m') p = NULL
    /\ trace m' = trace m.
Proof.
  intros Hin Hbig. exists (fold_left serve (requests (globals m)) m).
  split; [apply initialise_buffers_serves|]. split.
  - exact (fold_serve_too_big _ m p bytes (requests_NoDup _)
             (requests_range _) Hin Hbig).
  - apply fold_serve_rest.
Qed.

(** X26. When the heap holds the eight byte counts together, every
    pointer is a block of the size asked for and the heap has shrunk by
    their sum. *)
Theorem initialise_buffers_all_served (m : machine harness_globals) :
  asked (requests (globals m)) <= heap_free m ->
  exists m',
    initialise_buffers m = Some (tt, m')
    /\ (forall p bytes, (p, bytes) ∈ requests (globals m) ->
          pointer (globals m') p = Block bytes)
    /\ heap_free m' = heap_free m - asked (requests (globals m)).
Proof.
  intros Hfit. exists (fold_left serve (requests (globals m)) m).
  split; [apply initialise_buffers_serves|].
  assert (Hall : forall p bytes, (p, bytes) ∈ requests (globals m) ->
            pointer (globals (fold_left serve (requests (globals m)) m)) p
            = Block bytes).
  { intros p bytes Hin.
    exact (fold_serve_all _ m p bytes (requests_NoDup _) (requests_range _)
             Hfit Hin). }
  split; [exact Hall|].
  destruct (fold_serve_accounts (requests (globals m)) m
              (requests_NoDup (globals m))) as [_ Hheap].
  cbn zeta in Hheap. rewrite Hheap. f_equal.
  unfold held_by, asked. f_equal. apply map_ext_in.
  intros [p bytes] Hin%list_elem_of_In. cbn [fst snd].
  now rewrite (Hall p bytes Hin).
Qed.

Lemma initialise_buffers_leaves_null_witness :
  exists m',
    initialise_buffers (small_ensemble 20) = Some (tt, m')
    /\ pointer (globals m') encoders = NULL
    /\ pointer (globals m') decoders = Block 12
    /\ heap_free m' = 0.
Proof.
  destruct (initialise_buffers_leaves_null (small_ensemble 20) encoders 24)
    as (m' & Hrun & Hnull & _).
  - apply list_elem_of_here.
  - simpl. lia.
  - exists m'. split; [exact Hrun|]. split; [exact Hnull|].
    vm_compute in Hrun. injection Hrun as <-. split; reflexivity.
Defined.

Lemma initialise_buffers_all_served_witness :
  exists m',
    initialise_buffers (small_ensemble 100) = Some (tt, m')
    /\ pointer (globals m') v_ref_voltage = Block 12
    /\ heap_free m' = 16.
Proof.
  destruct (initialise_buffers_all_served (small_ensemble 100))
    as (m' & Hrun & Hall & Hheap).
  - vm_compute. discriminate.
  - exists m'. split; [exact Hrun|]. split; [|exact Hheap].
    apply Hall. do 6 apply list_elem_of_further. apply list_elem_of_here.
Defined.

End HarnessFacts.
